(** * data_generation.py: trajectory generators for the Koopman experiments

    A shallow embedding of [src/data_generation.py].  The simulators are
    written against three interfaces that the Python code takes from its
    environment:

    - [Arith]: Python numbers, float32 tensor elements and the operations
      the source applies to them;
    - [Trig]: the elementwise cosine and sine of the tensor library;
    - [Generator]: the engine behind the process-global random generator.

    Effects are explicit: a computation threads a [world] holding the global
    generator and standard output, and ends in a value or a Python exception.
    Two instances follow the embedding: IEEE binary64/binary32 arithmetic
    ([IEEE]) and the Mersenne Twister engine of the CPU generator
    ([MT19937]). *)

From Stdlib Require Import ZArith List String Ascii Bool Lia.
From Stdlib Require Import SpecFloat DecimalString.
From stdpp Require Import base list numbers.

Local Open Scope Z_scope.

(** ** Exceptions and results *)

(** The exceptions the modelled calls can raise. *)
Inductive exn : Type :=
  | RuntimeError
  | IndexError
  | ValueError
  | OverflowError.

Inductive result (A : Type) : Type :=
  | Ok (a : A)
  | Raise (e : exn).
Arguments Ok {A} a.
Arguments Raise {A} e.

Definition rbind {A B} (r : result A) (k : A -> result B) : result B :=
  match r with
  | Ok a => k a
  | Raise e => Raise e
  end.

(** ** Interfaces *)

(** Numbers.  [py] stands for a Python scalar (the floats and small integers
    the module is called with), [elt] for one float32 tensor element.  A
    scalar meeting a tensor is converted with [cast] and the operation is
    carried out on elements, which is how the tensor library evaluates
    [tensor op scalar] for a float32 tensor. *)
Class Arith : Type := {
  py : Type;
  elt : Type;
  (** the literal [m / 10^k]: [py_lit 5 1] is [0.5], [py_lit 2 0] is [2] *)
  py_lit : Z -> nat -> py;
  (** an integer argument entering float arithmetic ([0.1 * numICs]) *)
  py_of_int : Z -> result py;
  py_add : py -> py -> py;
  py_sub : py -> py -> py;
  py_mul : py -> py -> py;
  py_div : py -> py -> py;
  py_neg : py -> py;
  (** [x ** 2] on a Python float, which raises when the result overflows *)
  py_sq : py -> result py;
  py_leb : py -> py -> bool;
  (** the builtin [round] with one argument *)
  py_round : py -> result Z;
  (** [format(x, '.4f')] *)
  py_fmt4 : py -> string;
  cast : py -> elt;
  elt_zero : elt;
  elt_add : elt -> elt -> elt;
  elt_sub : elt -> elt -> elt;
  elt_mul : elt -> elt -> elt;
  elt_div : elt -> elt -> elt;
  elt_neg : elt -> elt;
  elt_recip : elt -> elt;
  (** [x ** 2] on a tensor *)
  elt_sq : elt -> elt;
  elt_leb : elt -> elt -> bool;
  (** the uniform transformation of a raw 32-bit draw [v]:
      [(v & (2^24 - 1)) * 2^-24] *)
  uniform_real : Z -> elt
}.

Class Trig (A : Arith) : Type := {
  elt_cos : elt -> elt;
  elt_sin : elt -> elt
}.

(** The engine of the global generator: seeding and one raw draw. *)
Class Generator : Type := {
  gen : Type;
  seed_gen : Z -> gen;
  random : gen -> Z * gen
}.

(** ** The effect monad *)

Section Effects.
Context {G : Generator}.

Record world : Type := World { rng : gen; stdout : list string }.

Definition M (A : Type) : Type := world -> result A * world.

Definition ret {A} (a : A) : M A := fun w => (Ok a, w).

Definition bind {A B} (m : M A) (k : A -> M B) : M B :=
  fun w =>
    match m w with
    | (Ok a, w') => k a w'
    | (Raise e, w') => (Raise e, w')
    end.

Definition lift {A} (r : result A) : M A := fun w => (r, w).

(** [print(s)] *)
Definition print (s : string) : M unit :=
  fun w => (Ok tt, World (rng w) (stdout w ++ [s])).

(** [for t in xs: s = body(t, s)] *)
Fixpoint for_each {S} (xs : list Z) (body : Z -> S -> M S) (s : S) : M S :=
  match xs with
  | [] => ret s
  | t :: xs' => bind (body t s) (for_each xs' body)
  end.

(** [range(T)]: empty when [T <= 0] *)
Definition range (T : Z) : list Z := seqZ 0 T.
End Effects.

Declare Scope eff_scope.
Delimit Scope eff_scope with eff.
Notation "x <- m ;; k" := (bind m (fun x => k))
  (at level 100, m at next level, right associativity) : eff_scope.
Notation "m ;;; k" := (bind m (fun _ => k))
  (at level 100, right associativity) : eff_scope.

(** ** Tensors and the tensor operations the module uses *)

Section Tensors.
Context {A : Arith} {G : Generator}.

(** A one-dimensional tensor is the list of its elements; tensors of rank
    two and three carry their shape, which an empty leading extent would
    otherwise lose. *)
Record tensor2 : Type := Tensor2 { shape2 : nat * nat; data2 : list (list elt) }.
Record tensor3 : Type := Tensor3 { shape3 : nat * nat * nat; data3 : list (list (list elt)) }.

Definition row_at (rows : list (list elt)) (i t : nat) : option elt :=
  match rows !! i with
  | Some row => row !! t
  | None => None
  end.
Definition get2 (u : tensor2) (i t : nat) : option elt := row_at (data2 u) i t.
Definition get3 (x : tensor3) (i t c : nat) : option elt :=
  match data3 x !! i with
  | Some traj => row_at traj t c
  | None => None
  end.

(** What a caller sees of a call that returns a buffer: its shape and
    elements, or the exception; and one element of a returned buffer. *)
Definition observe (r : result tensor3)
  : (nat * nat * nat) * list (list (list elt)) + exn :=
  match r with
  | Ok x => inl (shape3 x, data3 x)
  | Raise e => inr e
  end.

Definition entry (r : result tensor3) (i t c : nat) : option elt :=
  match r with
  | Ok x => get3 x i t c
  | Raise _ => None
  end.

(** A requested extent: negative sizes are refused. *)
Definition check_size (n : Z) : result nat :=
  if n <? 0 then Raise RuntimeError else Ok (Z.to_nat n).

(** [torch.manual_seed(seed)]: accepts
    [-0x8000_0000_0000_0000 .. 0xffff_ffff_ffff_ffff], a negative seed is
    read as the unsigned 64-bit value with the same bits; any other seed is
    refused with [ValueError]. *)
Definition manual_seed (seed : Z) : M unit :=
  fun w =>
    if (- 2 ^ 63 <=? seed) && (seed <? 2 ^ 64)
    then (Ok tt, World (seed_gen (seed mod 2 ^ 64)) (stdout w))
    else (Raise ValueError, w).

(** [n] consecutive uniform draws, in storage order. *)
Fixpoint uniform_fill (n : nat) (g : gen) : list elt * gen :=
  match n with
  | O => ([], g)
  | S n' =>
      let (v, g1) := random g in
      let (l, g2) := uniform_fill n' g1 in
      (uniform_real v :: l, g2)
  end.

(** [n] rows filled one after the other by [fill]. *)
Fixpoint fill_rows {R} (fill : gen -> R * gen) (n : nat) (g : gen) : list R * gen :=
  match n with
  | O => ([], g)
  | S n' =>
      let (r, g1) := fill g in
      let (l, g2) := fill_rows fill n' g1 in
      (r :: l, g2)
  end.

(** [torch.rand(n)] *)
Definition rand1 (n : Z) : M (list elt) :=
  fun w =>
    match check_size n with
    | Raise e => (Raise e, w)
    | Ok n' =>
        let (v, g) := uniform_fill n' (rng w) in
        (Ok v, World g (stdout w))
    end.

(** [torch.rand(n, m)] *)
Definition rand2 (n m : Z) : M tensor2 :=
  fun w =>
    match check_size n, check_size m with
    | Ok n', Ok m' =>
        let (v, g) := fill_rows (uniform_fill m') n' (rng w) in
        (Ok (Tensor2 (n', m') v), World g (stdout w))
    | Raise e, _ | _, Raise e => (Raise e, w)
    end.

(** [torch.rand(n, m, k)] *)
Definition rand3 (n m k : Z) : M tensor3 :=
  fun w =>
    match check_size n, check_size m, check_size k with
    | Ok n', Ok m', Ok k' =>
        let (v, g) := fill_rows (fill_rows (uniform_fill k') m') n' (rng w) in
        (Ok (Tensor3 (n', m', k') v), World g (stdout w))
    | Raise e, _, _ | _, Raise e, _ | _, _, Raise e => (Raise e, w)
    end.

(** [torch.zeros(n, m, k, dtype=torch.float32)] *)
Definition zeros3 (n m k : Z) : result tensor3 :=
  match check_size n, check_size m, check_size k with
  | Ok n', Ok m', Ok k' =>
      Ok (Tensor3 (n', m', k') (replicate n' (replicate m' (replicate k' elt_zero))))
  | Raise e, _, _ | _, Raise e, _ | _, _, Raise e => Raise e
  end.

(** An index into an extent of [len]: [-len .. -1] count from the end. *)
Definition py_index (len : nat) (i : Z) : result nat :=
  if (0 <=? i) && (i <? Z.of_nat len) then Ok (Z.to_nat i)
  else if (- Z.of_nat len <=? i) && (i <? 0) then Ok (Z.to_nat (i + Z.of_nat len))
  else Raise IndexError.

(** [v[:, j]] for a list of rows of width [width] *)
Definition column (width : nat) (rows : list (list elt)) (j : Z) : result (list elt) :=
  rbind (py_index width j) (fun j' => Ok (map (fun row => nth j' row elt_zero) rows)).

(** [u[:, j]] *)
Definition select_col (u : tensor2) (j : Z) : result (list elt) :=
  column (snd (shape2 u)) (data2 u) j.

(** [tau[:, t, :]] *)
Definition select_step (x : tensor3) (t : Z) : result tensor2 :=
  let '(d0, d1, d2) := shape3 x in
  rbind (py_index d1 t) (fun t' =>
    Ok (Tensor2 (d0, d2) (map (fun traj => nth t' traj []) (data3 x)))).

(** [x[:, t, c] = v].  In the module [v] always has one element for each
    trajectory; another length is refused (the broadcast of a single element
    is not modelled). *)
Definition setitem (x : tensor3) (t c : Z) (v : list elt) : result tensor3 :=
  let '(d0, d1, d2) := shape3 x in
  rbind (py_index d1 t) (fun t' =>
  rbind (py_index d2 c) (fun c' =>
    if (length v =? d0)%nat
    then Ok (Tensor3 (shape3 x)
               (zip_with (fun traj a => alter (fun row => <[c' := a]> row) t' traj)
                  (data3 x) v))
    else Raise RuntimeError)).

(** [x[:, :, c] = u] *)
Definition setitem_plane (x : tensor3) (c : Z) (u : tensor2) : result tensor3 :=
  let '(d0, d1, d2) := shape3 x in
  rbind (py_index d2 c) (fun c' =>
    if ((fst (shape2 u) =? d0) && (snd (shape2 u) =? d1))%nat
    then Ok (Tensor3 (shape3 x)
               (zip_with (zip_with (fun row a => <[c' := a]> row)) (data3 x) (data2 u)))
    else Raise RuntimeError).

(** [x[:, :, c:] = y], for [0 <= c] *)
Definition setitem_tail (x : tensor3) (c : nat) (y : tensor3) : result tensor3 :=
  let '(d0, d1, d2) := shape3 x in
  let '(e0, e1, e2) := shape3 y in
  if ((e0 =? d0) && (e1 =? d1) && (e2 =? d2 - Nat.min c d2))%nat
  then Ok (Tensor3 (shape3 x)
             (zip_with (zip_with (fun row r => take c row ++ r)) (data3 x) (data3 y)))
  else Raise RuntimeError.

(** Elementwise operations; [_s] takes a Python scalar on the right of the
    element operation (for [+] and [*] the source writes it on either
    side).  The module applies them to vectors with one element for each
    trajectory, so the operands always have the same length. *)
Definition vadd (x y : list elt) : list elt := zip_with elt_add x y.
Definition vsub (x y : list elt) : list elt := zip_with elt_sub x y.
Definition vmul (x y : list elt) : list elt := zip_with elt_mul x y.
Definition vdiv (x y : list elt) : list elt := zip_with elt_div x y.
Definition vneg (x : list elt) : list elt := map elt_neg x.
Definition vsq (x : list elt) : list elt := map elt_sq x.
Definition vadd_s (x : list elt) (s : py) : list elt := map (fun a => elt_add a (cast s)) x.
Definition vsub_s (x : list elt) (s : py) : list elt := map (fun a => elt_sub a (cast s)) x.
Definition vmul_s (x : list elt) (s : py) : list elt := map (fun a => elt_mul a (cast s)) x.
(** [s / x] is evaluated as [x.reciprocal() * s] *)
Definition vrdiv_s (s : py) (x : list elt) : list elt :=
  map (fun a => elt_mul (elt_recip a) (cast s)) x.

Definition map2 (f : elt -> elt) (u : tensor2) : tensor2 :=
  Tensor2 (shape2 u) (map (map f) (data2 u)).
Definition map3 (f : elt -> elt) (x : tensor3) : tensor3 :=
  Tensor3 (shape3 x) (map (map (map f)) (data3 x)).
End Tensors.

(** ** The simulators and the dataset splitters *)

Section Simulators.
Context {A : Arith} {G : Generator}.
Local Open Scope eff_scope.

(** The state of the oscillator loop: the current [x1], [x2] and the
    buffer [xuk]. *)
Definition osc_state : Type := list elt * list elt * tensor3.

(** [low + (high - low) * torch.rand(numICs)], written as in the source:
    [(r[1] - r[0]) * torch.rand(numICs) + r[0]]. *)
Definition initial (r : py * py) (draw : list elt) : list elt :=
  vadd_s (vmul_s draw (py_sub (snd r) (fst r))) (fst r).

(** The body of [for t in range(T)] of [generate_data] (lines 19-28); the
    loop of [generate_data_unforced] (lines 151-160) is the same text. *)
Definition euler_step (mu dt dt_lam : py) (u : tensor2) (t : Z) (s : osc_state)
  : M osc_state :=
  let '(x1, x2, xuk) := s in
  xuk <- lift (setitem xuk t 0 x1) ;;
  xuk <- lift (setitem xuk t 1 x2) ;;
  ut <- lift (select_col u (t - 1)) ;;
  let dx1 := vadd (vmul_s x1 (py_mul dt mu)) (vmul_s ut dt) in
  let dx2 := vmul_s (vsub x2 (vsq x1)) dt_lam in
  ret (vadd x1 dx1, vadd x2 dx2, xuk).

Definition generate_data (x1range x2range : py * py) (numICs : Z) (mu lam : py)
    (T : Z) (dt : py) (seed : Z) : M tensor3 :=
  manual_seed seed ;;;
  r1 <- rand1 numICs ;;
  let x1 := initial x1range r1 in
  r2 <- rand1 numICs ;;
  let x2 := initial x2range r2 in
  r3 <- rand2 numICs T ;;
  let u := map2 (fun a => elt_sub a (cast (py_lit 5 1))) r3 in
  let dt_lam := py_mul dt lam in
  xuk <- lift (zeros3 numICs T 3) ;;
  xuk <- lift (setitem_plane xuk 2 u) ;;
  s <- for_each (range T) (euler_step mu dt dt_lam u) (x1, x2, xuk) ;;
  ret (snd s).

Definition generate_data_unforced (x1range x2range : py * py) (numICs : Z) (mu lam : py)
    (T_step : Z) (dt : py) (seed : Z) : M tensor3 :=
  manual_seed seed ;;;
  r1 <- rand1 numICs ;;
  let x1 := initial x1range r1 in
  r2 <- rand1 numICs ;;
  let x2 := initial x2range r2 in
  r3 <- rand2 numICs T_step ;;
  let u := map2 (fun a => elt_mul a (cast (py_lit 0 0))) r3 in
  let dt_lam := py_mul dt lam in
  xuk <- lift (zeros3 numICs T_step 3) ;;
  xuk <- lift (setitem_plane xuk 2 u) ;;
  s <- for_each (range T_step) (euler_step mu dt dt_lam u) (x1, x2, xuk) ;;
  ret (snd s).

(** *** The two-link arm *)

Context {R : Trig A}.

(** The quantities computed once before the loop, and the arguments the
    loop body reads. *)
Record arm : Type := Arm {
  arm_dt : py; arm_m1 : py; arm_m2 : py; arm_l1 : py; arm_g : py;
  arm_lc1 : py; arm_lc2 : py; arm_I1 : py; arm_I2 : py
}.

Definition arm_state : Type := list elt * list elt * list elt * list elt * tensor3.

(** [M11] of line 95.  The three squares are Python powers, taken in the
    order of the line: [lc1 ** 2], [l1 ** 2], [lc2 ** 2]. *)
Definition M11_of (p : arm) (cos_q2 : list elt) : result (list elt) :=
  rbind (py_sq (arm_lc1 p)) (fun lc1_sq =>
  rbind (py_sq (arm_l1 p)) (fun l1_sq =>
  rbind (py_sq (arm_lc2 p)) (fun lc2_sq =>
    Ok (vadd_s
          (vmul_s
             (vadd_s (vmul_s cos_q2 (py_mul (py_mul (py_lit 2 0) (arm_l1 p)) (arm_lc2 p)))
                (py_add l1_sq lc2_sq))
             (arm_m2 p))
          (py_add (py_add (arm_I1 p) (arm_I2 p)) (py_mul (arm_m1 p) lc1_sq)))))).

(** [M12] of line 96 *)
Definition M12_of (p : arm) (cos_q2 : list elt) : result (list elt) :=
  rbind (py_sq (arm_lc2 p)) (fun lc2_sq =>
    Ok (vadd_s
          (vmul_s (vadd_s (vmul_s cos_q2 (py_mul (arm_l1 p) (arm_lc2 p))) lc2_sq) (arm_m2 p))
          (arm_I2 p))).

(** [M22] of line 98 *)
Definition M22_of (p : arm) : result py :=
  rbind (py_sq (arm_lc2 p)) (fun lc2_sq => Ok (py_add (arm_I2 p) (py_mul (arm_m2 p) lc2_sq))).

(** The entries [(M11, M12, M22)] of lines 95-98. *)
Definition inertia (p : arm) (cos_q2 : list elt) : result (list elt * list elt * py) :=
  rbind (M11_of p cos_q2) (fun M11 =>
  rbind (M12_of p cos_q2) (fun M12 =>
  rbind (M22_of p) (fun M22 => Ok (M11, M12, M22)))).

(** Lines 100-124, from the entries of the inertia matrix on. *)
Definition solve (p : arm) (M11 M12 : list elt) (M22 : py)
    (sin_q2 cos_q1q2 q1 dq1 dq2 tau1 tau2 : list elt) : list elt * list elt :=
  let M21 := M12 in
  let detM := vsub (vmul_s M11 M22) (vmul M12 M21) in
  let invM11 := vrdiv_s M22 detM in
  let invM12 := vdiv (vneg M12) detM in
  let invM21 := vdiv (vneg M21) detM in
  let invM22 := vdiv M11 detM in
  let h := vmul_s sin_q2 (py_mul (py_mul (py_neg (arm_m2 p)) (arm_l1 p)) (arm_lc2 p)) in
  let C1 := vmul (vmul h dq2) (vadd (vmul_s dq1 (py_lit 2 0)) dq2) in
  let C2 := vmul h (vsq dq1) in
  let G1 :=
    vadd
      (vmul_s (map elt_cos q1)
         (py_mul (py_add (py_mul (arm_m1 p) (arm_lc1 p)) (py_mul (arm_m2 p) (arm_l1 p)))
            (arm_g p)))
      (vmul_s cos_q1q2 (py_mul (py_mul (arm_m2 p) (arm_lc2 p)) (arm_g p))) in
  let G2 := vmul_s cos_q1q2 (py_mul (py_mul (arm_m2 p) (arm_lc2 p)) (arm_g p)) in
  let rhs1 := vsub (vsub tau1 C1) G1 in
  let rhs2 := vsub (vsub tau2 C2) G2 in
  (vadd (vmul invM11 rhs1) (vmul invM12 rhs2),
   vadd (vmul invM21 rhs1) (vmul invM22 rhs2)).

(** The body of [for t in range(T)] of [generate_two_link_data]
    (lines 82-130). *)
Definition arm_step (p : arm) (tau : tensor3) (t : Z) (s : arm_state) : M arm_state :=
  let '(q1, q2, dq1, dq2, data) := s in
  data <- lift (setitem data t 0 q1) ;;
  data <- lift (setitem data t 1 q2) ;;
  data <- lift (setitem data t 2 dq1) ;;
  data <- lift (setitem data t 3 dq2) ;;
  let cos_q2 := map elt_cos q2 in
  let sin_q2 := map elt_sin q2 in
  let cos_q1q2 := map elt_cos (vadd q1 q2) in
  M <- lift (inertia p cos_q2) ;;
  let '(M11, M12, M22) := M in
  tau_t <- lift (select_step tau t) ;;
  tau1 <- lift (select_col tau_t 0) ;;
  tau2 <- lift (select_col tau_t 1) ;;
  let '(ddq1, ddq2) := solve p M11 M12 M22 sin_q2 cos_q1q2 q1 dq1 dq2 tau1 tau2 in
  let dq1 := vadd dq1 (vmul_s ddq1 (arm_dt p)) in
  let dq2 := vadd dq2 (vmul_s ddq2 (arm_dt p)) in
  let q1 := vadd q1 (vmul_s dq1 (arm_dt p)) in
  let q2 := vadd q2 (vmul_s dq2 (arm_dt p)) in
  ret (q1, q2, dq1, dq2, data).

Definition inertia_line (I1 I2 : py) : string :=
  ("Computed Inertia: I1 = " ++ py_fmt4 I1 ++ ", I2 = " ++ py_fmt4 I2)%string.

Definition generate_two_link_data (q1_range q2_range dq1_range dq2_range : py * py)
    (numICs T : Z) (dt : py) (seed : Z) (tau_max m1 m2 l1 l2 g : py) : M tensor3 :=
  manual_seed seed ;;;
  let lc1 := py_div l1 (py_lit 2 0) in
  let lc2 := py_div l2 (py_lit 2 0) in
  lc1_sq <- lift (py_sq lc1) ;;
  let I1 := py_mul m1 lc1_sq in
  lc2_sq <- lift (py_sq lc2) ;;
  let I2 := py_mul m2 lc2_sq in
  print (inertia_line I1 I2) ;;;
  r <- rand1 numICs ;;
  let q1 := initial q1_range r in
  r <- rand1 numICs ;;
  let q2 := initial q2_range r in
  r <- rand1 numICs ;;
  let dq1 := initial dq1_range r in
  r <- rand1 numICs ;;
  let dq2 := initial dq2_range r in
  r <- rand3 numICs T 2 ;;
  let tau :=
    map3 (fun a =>
            elt_mul (elt_mul (elt_sub a (cast (py_lit 5 1))) (cast (py_lit 2 0)))
              (cast tau_max)) r in
  data <- lift (zeros3 numICs T 6) ;;
  data <- lift (setitem_tail data 4 tau) ;;
  s <- for_each (range T) (arm_step (Arm dt m1 m2 l1 g lc1 lc2 I1 I2) tau)
         (q1, q2, dq1, dq2, data) ;;
  ret (snd s).

(** The default arguments [tau_max=1.0, m1=1.0, m2=1.0, l1=1.0, l2=1.0,
    g=9.81]. *)
Definition default_unit : py := py_lit 10 1.
Definition default_g : py := py_lit 981 2.

(** *** Splitters *)

(** [round(f * numICs)] for the literal [f = m / 10^k] *)
Definition share_of (m : Z) (k : nat) (numICs : Z) : result Z :=
  rbind (py_of_int numICs) (fun n => py_round (py_mul (py_lit m k) n)).

Definition share (m : Z) (k : nat) (numICs : Z) : M Z := lift (share_of m k numICs).

Definition DataGenerator (x1range x2range : py * py) (numICs : Z) (mu lam : py)
    (T : Z) (dt : py) : M (tensor3 * tensor3 * tensor3) :=
  n <- share 1 1 numICs ;;
  test_tensor <- generate_data x1range x2range n mu lam T dt 1 ;;
  n <- share 2 1 numICs ;;
  val_tensor <- generate_data x1range x2range n mu lam T dt 2 ;;
  n <- share 7 1 numICs ;;
  train_tensor <- generate_data x1range x2range n mu lam T dt 3 ;;
  ret (train_tensor, test_tensor, val_tensor).

Definition TwoLinkRobotDataGenerator (q1_range q2_range dq1_range dq2_range : py * py)
    (numICs T : Z) (dt tau_max : py) : M (tensor3 * tensor3 * tensor3) :=
  let run n seed :=
    generate_two_link_data q1_range q2_range dq1_range dq2_range n T dt seed tau_max
      default_unit default_unit default_unit default_unit default_g in
  n <- share 1 1 numICs ;;
  test_tensor <- run n 1 ;;
  n <- share 2 1 numICs ;;
  val_tensor <- run n 2 ;;
  n <- share 7 1 numICs ;;
  train_tensor <- run n 3 ;;
  ret (train_tensor, test_tensor, val_tensor).

Definition DataGenerator_mixed (x1range x2range : py * py) (numICs : Z) (mu lam : py)
    (T : Z) (dt : py)
  : M (tensor3 * tensor3 * tensor3 * tensor3 * tensor3) :=
  n <- share 5 2 numICs ;;
  test_tensor_unforced <- generate_data_unforced x1range x2range n mu lam T dt 1 ;;
  n <- share 5 2 numICs ;;
  test_tensor_forced <- generate_data x1range x2range n mu lam T dt 2 ;;
  n <- share 1 1 numICs ;;
  val_tensor <- generate_data x1range x2range n mu lam T dt 3 ;;
  n <- share 4 1 numICs ;;
  train_tensor_unforced <- generate_data_unforced x1range x2range n mu lam T dt 4 ;;
  n <- share 4 1 numICs ;;
  train_tensor_forced <- generate_data x1range x2range n mu lam T dt 5 ;;
  ret (train_tensor_unforced, train_tensor_forced, test_tensor_unforced,
       test_tensor_forced, val_tensor).
End Simulators.

(** ** Instance: IEEE 754 arithmetic

    Python floats are binary64 and tensor elements binary32, both as
    [spec_float] with round-to-nearest-even operations. *)

(** [n / d] rounded to the nearest integer, ties to even ([0 <= n], [0 < d]). *)
Definition rne_div (n d : Z) : Z :=
  let q := n / d in
  match (2 * (n mod d) ?= d) with
  | Lt => q
  | Gt => q + 1
  | Eq => if Z.even q then q else q + 1
  end.

Definition decimal (n : Z) : string := NilZero.string_of_uint (N.to_uint (Z.to_N n)).

(** The digits of [n / 10^4] with four decimals, for [0 <= n]. *)
Definition fixed4 (n : Z) : string :=
  (decimal (n / 10000) ++ "." ++
   match decimal (10000 + n mod 10000) with
   | String _ frac => frac
   | EmptyString => EmptyString
   end)%string.

Module IEEE.
Definition b64_of_Z (z : Z) : spec_float := binary_normalize 53 1024 z 0 false.

(** A decimal literal: the binary64 nearest to [m / 10^k] (both operands
    of the division are exact for the literals of the module). *)
Definition lit (m : Z) (k : nat) : spec_float :=
  SFdiv 53 1024 (b64_of_Z m) (b64_of_Z (10 ^ Z.of_nat k)).

(** [float(z)] *)
Definition of_int (z : Z) : result spec_float :=
  match b64_of_Z z with
  | S754_infinity _ | S754_nan => Raise OverflowError
  | x => Ok x
  end.

(** [round(x)]: ties to even on the exact value. *)
Definition round (x : spec_float) : result Z :=
  match x with
  | S754_zero _ => Ok 0
  | S754_nan => Raise ValueError
  | S754_infinity _ => Raise OverflowError
  | S754_finite s m e =>
      let a := if 0 <=? e then Z.pos m * 2 ^ e else rne_div (Z.pos m) (2 ^ (- e)) in
      Ok (if s then - a else a)
  end.

(** [format(x, '.4f')] *)
Definition fmt4 (x : spec_float) : string :=
  match x with
  | S754_zero s => ((if s then "-" else "") ++ "0.0000")%string
  | S754_nan => "nan"%string
  | S754_infinity s => ((if s then "-" else "") ++ "inf")%string
  | S754_finite s m e =>
      let n := if 0 <=? e then Z.pos m * 2 ^ e * 10000
               else rne_div (Z.pos m * 10000) (2 ^ (- e)) in
      ((if s then "-" else "") ++ fixed4 n)%string
  end.

(** [x ** 2]: [OverflowError] when the square of a finite number is not
    finite. *)
Definition pow2 (x : spec_float) : result spec_float :=
  match x, SFmul 53 1024 x x with
  | S754_finite _ _ _, S754_infinity _ => Raise OverflowError
  | _, y => Ok y
  end.

(** Conversion of a scalar to float32. *)
Definition to_b32 (x : spec_float) : spec_float :=
  match x with
  | S754_finite s m e => binary_round 24 128 s m e
  | _ => x
  end.

Definition b32_one : spec_float := binary_normalize 24 128 1 0 false.

(** [(v & (2^24 - 1)) * 2^-24]: the 24 low bits of the draw as a fraction,
    which float32 holds exactly. *)
Definition uniform (v : Z) : spec_float :=
  binary_normalize 24 128 (Z.land v (2 ^ 24 - 1)) (- 24) false.

#[export] Instance arith : Arith := {|
  py := spec_float;
  elt := spec_float;
  py_lit := lit;
  py_of_int := of_int;
  py_add := SFadd 53 1024;
  py_sub := SFsub 53 1024;
  py_mul := SFmul 53 1024;
  py_div := SFdiv 53 1024;
  py_neg := SFopp;
  py_sq := pow2;
  py_leb := SFleb;
  py_round := round;
  py_fmt4 := fmt4;
  cast := to_b32;
  elt_zero := S754_zero false;
  elt_add := SFadd 24 128;
  elt_sub := SFsub 24 128;
  elt_mul := SFmul 24 128;
  elt_div := SFdiv 24 128;
  elt_neg := SFopp;
  elt_recip := SFdiv 24 128 b32_one;
  elt_sq := fun x => SFmul 24 128 x x;
  elt_leb := SFleb;
  uniform_real := uniform
|}.
End IEEE.

(** ** Instance: the Mersenne Twister engine of the CPU generator

    [mt19937] with its 624-word state, seeded by [init_with_uint32] from the
    low 32 bits of the seed; [random()] returns the next tempered word. *)

Module MT19937.
Record state : Type := State { words : list Z; left : Z; next : nat }.

Definition u32 (x : Z) : Z := Z.land x 0xffffffff.

Fixpoint init_words (count : nat) (j : Z) (prev : Z) : list Z :=
  match count with
  | O => []
  | S c =>
      let x := u32 (1812433253 * Z.lxor prev (Z.shiftr prev 30) + j) in
      x :: init_words c (j + 1) x
  end.

Definition init_with_uint32 (seed : Z) : state :=
  let s0 := u32 seed in
  State (s0 :: init_words 623 1 s0) 1 0.

Definition mix_bits (u v : Z) : Z :=
  Z.lor (Z.land u 0x80000000) (Z.land v 0x7fffffff).

Definition twist (u v : Z) : Z :=
  Z.lxor (Z.shiftr (mix_bits u v) 1) (if Z.odd v then 0x9908b0df else 0).

(** One pass over the state, in place: word [i] becomes
    [p[(i + 397) mod 624] ^ twist(p[i], p[(i + 1) mod 624])]. *)
Definition next_word (p : list Z) (i : nat) : list Z :=
  <[ i := Z.lxor (nth ((i + 397) mod 624) p 0)
            (twist (nth i p 0) (nth ((i + 1) mod 624) p 0)) ]> p.

Definition next_state (p : list Z) : list Z := foldl next_word p (seq 0 624).

Definition temper (y : Z) : Z :=
  let y := Z.lxor y (Z.shiftr y 11) in
  let y := Z.lxor y (Z.land (Z.shiftl y 7) 0x9d2c5680) in
  let y := Z.lxor y (Z.land (Z.shiftl y 15) 0xefc60000) in
  Z.lxor y (Z.shiftr y 18).

Definition draw (s : state) : Z * state :=
  let s1 := if left s - 1 =? 0 then State (next_state (words s)) 624 0
            else State (words s) (left s - 1) (next s) in
  (temper (nth (next s1) (words s1) 0), State (words s1) (left s1) (S (next s1))).

#[export] Instance generator : Generator := {|
  gen := state;
  seed_gen := init_with_uint32;
  random := draw
|}.
End MT19937.

(** * Properties *)

(** ** How a computation uses the world *)

Section Frame.
Context {G : Generator}.

(** [m] writes nothing to standard output. *)
Definition silent {A} (m : M A) : Prop :=
  forall w, stdout (snd (m w)) = stdout w.

(** [m] reads nothing of the world but the generator: from worlds with
    the same generator it gives the same result and the same generator. *)
Definition oblivious {A} (m : M A) : Prop :=
  forall w1 w2, rng w1 = rng w2 ->
    fst (m w1) = fst (m w2) /\ rng (snd (m w1)) = rng (snd (m w2)).

Lemma silent_ret {A} (a : A) : silent (ret a).
Proof. intros w. reflexivity. Qed.

Lemma silent_lift {A} (r : result A) : silent (lift r).
Proof. intros w. reflexivity. Qed.

Lemma silent_bind {A B} (m : M A) (k : A -> M B) :
  silent m -> (forall a, silent (k a)) -> silent (bind m k).
Proof.
  intros Hm Hk w. unfold bind. specialize (Hm w).
  destruct (m w) as [[a|e] w']; simpl in *.
  - rewrite Hk. exact Hm.
  - exact Hm.
Qed.

Lemma silent_for_each {S} (body : Z -> S -> M S) xs :
  (forall t s, silent (body t s)) -> forall s, silent (for_each xs body s).
Proof.
  intros Hb. induction xs as [|t xs IH]; intros s; simpl.
  - apply silent_ret.
  - apply silent_bind; auto.
Qed.

Lemma oblivious_ret {A} (a : A) : oblivious (ret a).
Proof. intros w1 w2 H. split; [reflexivity | exact H]. Qed.

Lemma oblivious_lift {A} (r : result A) : oblivious (lift r).
Proof. intros w1 w2 H. split; [reflexivity | exact H]. Qed.

Lemma oblivious_print s : oblivious (print s).
Proof. intros w1 w2 H. split; [reflexivity | exact H]. Qed.

Lemma oblivious_bind {A B} (m : M A) (k : A -> M B) :
  oblivious m -> (forall a, oblivious (k a)) -> oblivious (bind m k).
Proof.
  intros Hm Hk w1 w2 H. unfold bind. destruct (Hm w1 w2 H) as [Hr Hg].
  destruct (m w1) as [[a1|e1] w1'], (m w2) as [[a2|e2] w2']; simpl in *;
    try discriminate.
  - injection Hr as ->. apply Hk. exact Hg.
  - injection Hr as ->. split; [reflexivity | exact Hg].
Qed.

Lemma oblivious_for_each {S} (body : Z -> S -> M S) xs :
  (forall t s, oblivious (body t s)) -> forall s, oblivious (for_each xs body s).
Proof.
  intros Hb. induction xs as [|t xs IH]; intros s; simpl.
  - apply oblivious_ret.
  - apply oblivious_bind; auto.
Qed.
End Frame.

Section TorchFrame.
Context {A : Arith} {G : Generator}.

Definition seed_ok (seed : Z) : bool := (- 2 ^ 63 <=? seed) && (seed <? 2 ^ 64).

(** After a successful [manual_seed] the generator is the seeded one,
    whatever it was. *)
Lemma manual_seed_bind {B} seed (k : unit -> M B) w :
  bind (manual_seed seed) k w =
  if seed_ok seed then k tt (World (seed_gen (seed mod 2 ^ 64)) (stdout w))
  else (Raise ValueError, w).
Proof. unfold bind, manual_seed, seed_ok. destruct (_ && _); reflexivity. Qed.

Lemma silent_manual_seed seed : silent (manual_seed seed).
Proof. intros w. unfold manual_seed. destruct (_ && _); reflexivity. Qed.

Lemma silent_rand1 n : silent (rand1 n).
Proof.
  intros w. unfold rand1. destruct (check_size n); [|reflexivity].
  destruct (uniform_fill _ _). reflexivity.
Qed.

Lemma silent_rand2 n m : silent (rand2 n m).
Proof.
  intros w. unfold rand2.
  destruct (check_size n); [|reflexivity].
  destruct (check_size m); [|reflexivity].
  destruct (fill_rows _ _ _). reflexivity.
Qed.

Lemma silent_rand3 n m k : silent (rand3 n m k).
Proof.
  intros w. unfold rand3.
  destruct (check_size n); [|reflexivity].
  destruct (check_size m); [|reflexivity].
  destruct (check_size k); [|reflexivity].
  destruct (fill_rows _ _ _). reflexivity.
Qed.

Lemma oblivious_rand1 n : oblivious (rand1 n).
Proof.
  intros w1 w2 H. unfold rand1. rewrite H.
  destruct (check_size n); [|split; [reflexivity | exact H]].
  destruct (uniform_fill _ _). split; reflexivity.
Qed.

Lemma oblivious_rand2 n m : oblivious (rand2 n m).
Proof.
  intros w1 w2 H. unfold rand2. rewrite H.
  destruct (check_size n); [|split; [reflexivity | exact H]].
  destruct (check_size m); [|split; [reflexivity | exact H]].
  destruct (fill_rows _ _ _). split; reflexivity.
Qed.

Lemma oblivious_rand3 n m k : oblivious (rand3 n m k).
Proof.
  intros w1 w2 H. unfold rand3. rewrite H.
  destruct (check_size n); [|split; [reflexivity | exact H]].
  destruct (check_size m); [|split; [reflexivity | exact H]].
  destruct (check_size k); [|split; [reflexivity | exact H]].
  destruct (fill_rows _ _ _). split; reflexivity.
Qed.
End TorchFrame.

Create HintDb frame.
#[export] Hint Resolve silent_ret silent_lift silent_manual_seed silent_rand1 silent_rand2
  silent_rand3 oblivious_ret oblivious_lift oblivious_print oblivious_rand1
  oblivious_rand2 oblivious_rand3 : frame.

(** Walks through a computation built from binds and loops. *)
Ltac frame_step :=
  match goal with
  | |- silent (bind _ _) => apply silent_bind; [|intros ?]
  | |- oblivious (bind _ _) => apply oblivious_bind; [|intros ?]
  | |- silent (for_each _ _ _) => apply silent_for_each; intros ? ?
  | |- oblivious (for_each _ _ _) => apply oblivious_for_each; intros ? ?
  | |- silent (let '(_, _) := ?s in _) => destruct s
  | |- oblivious (let '(_, _) := ?s in _) => destruct s
  | |- silent (match ?s with _ => _ end) => destruct s
  | |- oblivious (match ?s with _ => _ end) => destruct s
  | |- _ => solve [auto with frame]
  end.
Ltac frame := repeat frame_step.

Section SimulatorFrame.
Context {A : Arith} {G : Generator}.

Lemma silent_euler_step mu dt dt_lam u t s : silent (euler_step mu dt dt_lam u t s).
Proof. unfold euler_step. frame. Qed.

Lemma oblivious_euler_step mu dt dt_lam u t s : oblivious (euler_step mu dt dt_lam u t s).
Proof. unfold euler_step. frame. Qed.

Lemma silent_generate_data x1r x2r n mu lam T dt seed :
  silent (generate_data x1r x2r n mu lam T dt seed).
Proof. unfold generate_data, euler_step. frame. Qed.

Lemma silent_generate_data_unforced x1r x2r n mu lam T dt seed :
  silent (generate_data_unforced x1r x2r n mu lam T dt seed).
Proof. unfold generate_data_unforced, euler_step. frame. Qed.

Context {R : Trig A}.

Lemma oblivious_arm_step p tau t s : oblivious (arm_step p tau t s).
Proof. unfold arm_step. frame. Qed.
End SimulatorFrame.

(** ** Tensor operations *)

Section TensorFacts.
Context {A : Arith} {G : Generator}.

Lemma observe_ok r s d : observe r = inl (s, d) -> r = Ok (Tensor3 s d).
Proof. destruct r as [[s' d']|e]; simpl; congruence. Qed.

Lemma observe_raise r e : observe r = inr e -> r = Raise e.
Proof. destruct r as [[s' d']|e']; simpl; congruence. Qed.

Lemma entry_ok r x i t c : r = Ok x -> entry r i t c = get3 x i t c.
Proof. now intros ->. Qed.

Lemma check_size_nat (n : nat) : check_size (Z.of_nat n) = Ok n.
Proof.
  unfold check_size. destruct (Z.ltb_spec (Z.of_nat n) 0); [lia|].
  now rewrite Nat2Z.id.
Qed.

Lemma check_size_neg n : n < 0 -> check_size n = Raise RuntimeError.
Proof. intros H. unfold check_size. destruct (Z.ltb_spec n 0); [reflexivity | lia]. Qed.

Lemma py_index_nat len t : (t < len)%nat -> py_index len (Z.of_nat t) = Ok t.
Proof.
  intros H. unfold py_index.
  destruct (Z.leb_spec 0 (Z.of_nat t)); [|lia].
  destruct (Z.ltb_spec (Z.of_nat t) (Z.of_nat len)); [|lia].
  simpl. now rewrite Nat2Z.id.
Qed.

(** The index [t - 1] of the loop body: the previous column, and the
    last one when [t = 0]. *)
Definition prev (T t : nat) : nat := ((t + T - 1) mod T)%nat.

Lemma prev_0 T : (0 < T)%nat -> prev T 0 = (T - 1)%nat.
Proof. intros H. unfold prev. simpl. apply Nat.mod_small. lia. Qed.

Lemma prev_S T t : (S t < T)%nat -> prev T (S t) = t.
Proof.
  intros H. unfold prev. replace (S t + T - 1)%nat with (t + 1 * T)%nat by lia.
  rewrite Nat.Div0.mod_add. apply Nat.mod_small. lia.
Qed.

Lemma prev_lt T t : (0 < T)%nat -> (prev T t < T)%nat.
Proof. intros H. unfold prev. apply Nat.mod_upper_bound. lia. Qed.

Lemma py_index_prev T t : (t < T)%nat -> py_index T (Z.of_nat t - 1) = Ok (prev T t).
Proof.
  intros H. destruct t as [|t].
  - rewrite prev_0 by lia. unfold py_index.
    change (Z.of_nat 0 - 1) with (-1).
    destruct (Z.leb_spec (- Z.of_nat T) (-1)); [|lia].
    change ((0 <=? -1) && (-1 <? Z.of_nat T)) with false.
    change (true && (-1 <? 0)) with true. cbv iota.
    f_equal. lia.
  - rewrite prev_S by lia.
    replace (Z.of_nat (S t) - 1) with (Z.of_nat t) by lia.
    apply py_index_nat. lia.
Qed.

(** *** Reading after writing *)

(** The buffer after [x[:, t, c] = v]. *)
Definition record (x : tensor3) (t c : nat) (v : list elt) : tensor3 :=
  Tensor3 (shape3 x)
    (zip_with (fun traj a => alter (fun row => <[c := a]> row) t traj) (data3 x) v).

(** The buffer after [x[:, :, c] = u]. *)
Definition plane (x : tensor3) (c : nat) (u : tensor2) : tensor3 :=
  Tensor3 (shape3 x)
    (zip_with (zip_with (fun row a => <[c := a]> row)) (data3 x) (data2 u)).

Lemma setitem_ok x d0 d1 d2 t c v :
  shape3 x = (d0, d1, d2) -> (t < d1)%nat -> (c < d2)%nat -> length v = d0 ->
  setitem x (Z.of_nat t) (Z.of_nat c) v = Ok (record x t c v).
Proof.
  intros Hs Ht Hc Hv. unfold setitem. rewrite Hs.
  rewrite (py_index_nat d1 t Ht), (py_index_nat d2 c Hc). simpl.
  rewrite Hv, Nat.eqb_refl. unfold record. now rewrite Hs.
Qed.

Lemma setitem_plane_ok x d0 d1 d2 c u :
  shape3 x = (d0, d1, d2) -> (c < d2)%nat -> shape2 u = (d0, d1) ->
  setitem_plane x (Z.of_nat c) u = Ok (plane x c u).
Proof.
  intros Hs Hc Hu. unfold setitem_plane. rewrite Hs, Hu.
  rewrite (py_index_nat d2 c Hc). simpl. rewrite !Nat.eqb_refl. simpl.
  unfold plane. now rewrite Hs.
Qed.

(** The data of a tensor fits its shape. *)
Definition wf2 (u : tensor2) : Prop :=
  length (data2 u) = fst (shape2 u) /\
  Forall (fun row => length row = snd (shape2 u)) (data2 u).

Definition wf_traj (d1 d2 : nat) (traj : list (list elt)) : Prop :=
  length traj = d1 /\ Forall (fun row => length row = d2) traj.

Definition wf3 (x : tensor3) : Prop :=
  length (data3 x) = fst (fst (shape3 x)) /\
  Forall (wf_traj (snd (fst (shape3 x))) (snd (shape3 x))) (data3 x).

Lemma wf3_get3 x i t c :
  wf3 x ->
  (i < fst (fst (shape3 x)))%nat -> (t < snd (fst (shape3 x)))%nat ->
  (c < snd (shape3 x))%nat ->
  is_Some (get3 x i t c).
Proof.
  intros [Hlen Hall] Hi Ht Hc. unfold get3, row_at.
  destruct (lookup_lt_is_Some_2 (data3 x) i) as [traj Etraj]; [lia|].
  rewrite Etraj.
  destruct (proj1 (Forall_lookup _ _) Hall i traj Etraj) as [Hl Hrows].
  destruct (lookup_lt_is_Some_2 traj t) as [row Erow]; [lia|].
  rewrite Erow. apply lookup_lt_is_Some.
  rewrite (proj1 (Forall_lookup _ _) Hrows t row Erow). exact Hc.
Qed.

Lemma wf2_get2 u i t :
  wf2 u -> (i < fst (shape2 u))%nat -> (t < snd (shape2 u))%nat ->
  is_Some (get2 u i t).
Proof.
  intros [Hlen Hall] Hi Ht. unfold get2, row_at.
  destruct (lookup_lt_is_Some_2 (data2 u) i) as [row Erow]; [lia|].
  rewrite Erow. apply lookup_lt_is_Some.
  rewrite (proj1 (Forall_lookup _ _) Hall i row Erow). exact Ht.
Qed.

Lemma get3_record_other x t c v i t' c' :
  length v = length (data3 x) -> t' <> t \/ c' <> c ->
  get3 (record x t c v) i t' c' = get3 x i t' c'.
Proof.
  intros Hlen Hne. unfold get3, record. simpl. rewrite lookup_zip_with.
  destruct (data3 x !! i) as [traj|] eqn:Ei; simpl; [|reflexivity].
  destruct (v !! i) as [a|] eqn:Ev; simpl.
  - unfold row_at. rewrite list_lookup_alter. case_decide as Ht; [|reflexivity].
    subst t'. destruct (traj !! t) as [row|]; simpl; [|reflexivity].
    apply list_lookup_insert_ne. destruct Hne; congruence.
  - apply lookup_ge_None in Ev. apply lookup_lt_Some in Ei. lia.
Qed.

Lemma get3_record_same x t c v i a :
  is_Some (get3 x i t c) -> v !! i = Some a -> get3 (record x t c v) i t c = Some a.
Proof.
  intros [old Hold] Hv. unfold get3, record in *. simpl. rewrite lookup_zip_with.
  destruct (data3 x !! i) as [traj|]; simpl; [|discriminate].
  rewrite Hv. simpl. unfold row_at in *. rewrite list_lookup_alter.
  case_decide; [|congruence].
  destruct (traj !! t) as [row|]; simpl; [|discriminate].
  apply list_lookup_insert_eq. eapply lookup_lt_Some, Hold.
Qed.

Lemma wf3_record x t c v :
  length v = fst (fst (shape3 x)) -> wf3 x -> wf3 (record x t c v).
Proof.
  intros Hv [Hlen Hall]. split; simpl.
  - rewrite length_zip_with. lia.
  - apply Forall_lookup. intros i y Hy.
    apply lookup_zip_with_Some in Hy as (traj & a & -> & Etraj & _).
    destruct (proj1 (Forall_lookup _ _) Hall i traj Etraj) as [Hl Hrows].
    split; [now rewrite length_alter|].
    apply Forall_lookup. intros t' row' Hrow'.
    rewrite list_lookup_alter in Hrow'. case_decide.
    + subst t'. destruct (traj !! t) as [row|] eqn:Erow; simpl in Hrow'; [|discriminate].
      injection Hrow' as <-. rewrite length_insert.
      exact (proj1 (Forall_lookup _ _) Hrows t row Erow).
    + exact (proj1 (Forall_lookup _ _) Hrows t' row' Hrow').
Qed.

Lemma wf3_plane x c u :
  wf3 x -> wf2 u -> shape2 u = fst (shape3 x) -> wf3 (plane x c u).
Proof.
  intros [Hlen Hall] [Hlen2 Hall2] Hs. split; simpl.
  - rewrite length_zip_with. rewrite Hs in Hlen2. lia.
  - apply Forall_lookup. intros i y Hy.
    apply lookup_zip_with_Some in Hy as (traj & urow & -> & Etraj & Eurow).
    destruct (proj1 (Forall_lookup _ _) Hall i traj Etraj) as [Hl Hrows].
    pose proof (proj1 (Forall_lookup _ _) Hall2 i urow Eurow) as Hul. cbv beta in Hul.
    rewrite Hs in Hul.
    split; [rewrite length_zip_with; lia|].
    apply Forall_lookup. intros t row' Hrow'.
    apply lookup_zip_with_Some in Hrow' as (row & a & -> & Erow & _).
    rewrite length_insert. exact (proj1 (Forall_lookup _ _) Hrows t row Erow).
Qed.

Lemma get3_plane x c u i t c' :
  wf3 x -> wf2 u -> shape2 u = fst (shape3 x) -> (c < snd (shape3 x))%nat ->
  get3 (plane x c u) i t c' = if decide (c' = c) then get2 u i t else get3 x i t c'.
Proof.
  intros [Hlen Hall] [Hlen2 Hall2] Hs Hc. rewrite Hs in Hlen2, Hall2.
  unfold get3, get2, plane, row_at. simpl. rewrite lookup_zip_with.
  destruct (data3 x !! i) as [traj|] eqn:Ex; simpl.
  - destruct (proj1 (Forall_lookup _ _) Hall i traj Ex) as [Hl Hrows].
    destruct (lookup_lt_is_Some_2 (data2 u) i) as [urow Eu].
    { apply lookup_lt_Some in Ex. lia. }
    pose proof (proj1 (Forall_lookup _ _) Hall2 i urow Eu) as Hul. cbv beta in Hul.
    rewrite Eu. simpl. rewrite lookup_zip_with.
    destruct (traj !! t) as [row|] eqn:Et; simpl.
    + destruct (lookup_lt_is_Some_2 urow t) as [a Ea].
      { apply lookup_lt_Some in Et. lia. }
      rewrite Ea. simpl. rewrite list_lookup_insert.
      pose proof (proj1 (Forall_lookup _ _) Hrows t row Et) as Hrl. cbv beta in Hrl.
      repeat case_decide; try reflexivity; try (exfalso; lia); naive_solver lia.
    + case_decide; [|reflexivity]. symmetry. apply lookup_ge_None.
      apply lookup_ge_None in Et. lia.
  - case_decide; [|reflexivity]. symmetry.
    destruct (data2 u !! i) eqn:Eu; [|reflexivity].
    apply lookup_lt_Some in Eu. apply lookup_ge_None in Ex. lia.
Qed.

Lemma zeros3_nat (n m k : nat) :
  zeros3 (Z.of_nat n) (Z.of_nat m) (Z.of_nat k)
  = Ok (Tensor3 (n, m, k) (replicate n (replicate m (replicate k elt_zero)))).
Proof. unfold zeros3. now rewrite !check_size_nat. Qed.

Lemma wf3_zeros (n m k : nat) :
  wf3 (Tensor3 (n, m, k) (replicate n (replicate m (replicate k elt_zero)))).
Proof.
  split; simpl; [apply length_replicate|].
  apply Forall_replicate. split; [apply length_replicate|].
  apply Forall_replicate. apply length_replicate.
Qed.

Lemma get3_zeros (n m k i t c : nat) :
  (i < n)%nat -> (t < m)%nat -> (c < k)%nat ->
  get3 (Tensor3 (n, m, k) (replicate n (replicate m (replicate k elt_zero)))) i t c
  = Some elt_zero.
Proof.
  intros Hi Ht Hc. unfold get3, row_at. simpl.
  rewrite lookup_replicate_2 by assumption.
  rewrite lookup_replicate_2 by assumption.
  now apply lookup_replicate_2.
Qed.

(** *** Random tensors *)

Lemma length_uniform_fill n g : length (fst (uniform_fill n g)) = n.
Proof.
  revert g. induction n as [|n IH]; intros g; simpl; [reflexivity|].
  destruct (random g) as [v g1]. specialize (IH g1).
  destruct (uniform_fill n g1). simpl in *. now rewrite IH.
Qed.

Lemma length_fill_rows {R} (fill : gen -> R * gen) n g :
  length (fst (fill_rows fill n g)) = n.
Proof.
  revert g. induction n as [|n IH]; intros g; simpl; [reflexivity|].
  destruct (fill g) as [r g1]. specialize (IH g1).
  destruct (fill_rows fill n g1). simpl in *. now rewrite IH.
Qed.

Lemma Forall_fill_rows {R} (P : R -> Prop) (fill : gen -> R * gen) n g :
  (forall g', P (fst (fill g'))) -> Forall P (fst (fill_rows fill n g)).
Proof.
  intros HP. revert g. induction n as [|n IH]; intros g; simpl; [constructor|].
  pose proof (HP g) as Hg. destruct (fill g) as [r g1]. specialize (IH g1).
  destruct (fill_rows fill n g1). simpl in *. now constructor.
Qed.

(** Every element of a uniform fill is the transformation of a raw draw. *)
Lemma Forall_uniform_fill n g :
  Forall (fun a => exists v, a = uniform_real v) (fst (uniform_fill n g)).
Proof.
  revert g. induction n as [|n IH]; intros g; simpl; [constructor|].
  destruct (random g) as [v g1]. specialize (IH g1).
  destruct (uniform_fill n g1). simpl in *. constructor; eauto.
Qed.

Lemma rand1_nat (n : nat) w :
  rand1 (Z.of_nat n) w
  = (Ok (fst (uniform_fill n (rng w))),
     World (snd (uniform_fill n (rng w))) (stdout w)).
Proof.
  unfold rand1. rewrite check_size_nat. now destruct (uniform_fill n (rng w)).
Qed.

Lemma rand2_nat (n m : nat) w :
  rand2 (Z.of_nat n) (Z.of_nat m) w
  = (Ok (Tensor2 (n, m) (fst (fill_rows (uniform_fill m) n (rng w)))),
     World (snd (fill_rows (uniform_fill m) n (rng w))) (stdout w)).
Proof.
  unfold rand2. rewrite !check_size_nat.
  now destruct (fill_rows (uniform_fill m) n (rng w)).
Qed.

Lemma rand3_nat (n m k : nat) w :
  rand3 (Z.of_nat n) (Z.of_nat m) (Z.of_nat k) w
  = (Ok (Tensor3 (n, m, k) (fst (fill_rows (fill_rows (uniform_fill k) m) n (rng w)))),
     World (snd (fill_rows (fill_rows (uniform_fill k) m) n (rng w))) (stdout w)).
Proof.
  unfold rand3. rewrite !check_size_nat.
  now destruct (fill_rows (fill_rows (uniform_fill k) m) n (rng w)).
Qed.

Lemma wf2_rand (n m : nat) g :
  wf2 (Tensor2 (n, m) (fst (fill_rows (uniform_fill m) n g))).
Proof.
  split; simpl; [apply length_fill_rows|].
  apply Forall_fill_rows. intros g'. apply length_uniform_fill.
Qed.

Lemma wf3_rand (n m k : nat) g :
  wf3 (Tensor3 (n, m, k) (fst (fill_rows (fill_rows (uniform_fill k) m) n g))).
Proof.
  split; simpl; [apply length_fill_rows|].
  apply Forall_fill_rows. intros g'. split; [apply length_fill_rows|].
  apply Forall_fill_rows. intros g''. apply length_uniform_fill.
Qed.

Lemma wf2_map2 f u : wf2 u -> wf2 (map2 f u).
Proof.
  intros [Hlen Hall]. split; simpl; [now rewrite length_map|].
  apply Forall_fmap. eapply Forall_impl; [|exact Hall].
  intros row Hrow. simpl. now rewrite length_map.
Qed.

Lemma get2_map2 f u i t : get2 (map2 f u) i t = f <$> get2 u i t.
Proof.
  unfold get2, map2, row_at. simpl.
  change (map (map f) (data2 u)) with (map f <$> data2 u).
  rewrite list_lookup_fmap. destruct (data2 u !! i) as [row|]; simpl; [|reflexivity].
  apply (list_lookup_fmap f).
Qed.

(** [u[:, j]] on a well-formed tensor reads column [j] of every row. *)
Lemma select_col_prev u t :
  (t < snd (shape2 u))%nat ->
  select_col u (Z.of_nat t - 1)
  = Ok (map (fun row => nth (prev (snd (shape2 u)) t) row elt_zero) (data2 u)).
Proof.
  intros Ht. unfold select_col, column. now rewrite py_index_prev.
Qed.

Lemma select_col_nat u c :
  (c < snd (shape2 u))%nat ->
  select_col u (Z.of_nat c) = Ok (map (fun row => nth c row elt_zero) (data2 u)).
Proof. intros Hc. unfold select_col, column. now rewrite py_index_nat. Qed.

Lemma lookup_column (rows : list (list elt)) j i a :
  row_at rows i j = Some a ->
  map (fun row => nth j row elt_zero) rows !! i = Some a.
Proof.
  unfold row_at. intros H.
  change (map (fun row => nth j row elt_zero) rows)
    with ((fun row => nth j row elt_zero) <$> rows).
  rewrite list_lookup_fmap. destruct (rows !! i) as [row|]; [|discriminate].
  simpl. f_equal. now apply nth_lookup_Some.
Qed.
End TensorFacts.

(** ** Elementwise operations, element by element *)

Section Elementwise.
Context {A : Arith}.

Lemma lookup_zip2 (f : elt -> elt -> elt) (x y : list elt) i a b :
  x !! i = Some a -> y !! i = Some b -> zip_with f x y !! i = Some (f a b).
Proof. intros Hx Hy. rewrite lookup_zip_with, Hx, Hy. reflexivity. Qed.

Lemma lookup_map1 (f : elt -> elt) (x : list elt) i a :
  x !! i = Some a -> map f x !! i = Some (f a).
Proof. intros Hx. change (map f x) with (f <$> x). now rewrite list_lookup_fmap, Hx. Qed.

Lemma lookup_vadd x y i a b :
  x !! i = Some a -> y !! i = Some b -> vadd x y !! i = Some (elt_add a b).
Proof. apply lookup_zip2. Qed.

Lemma lookup_vsub x y i a b :
  x !! i = Some a -> y !! i = Some b -> vsub x y !! i = Some (elt_sub a b).
Proof. apply lookup_zip2. Qed.

Lemma lookup_vmul x y i a b :
  x !! i = Some a -> y !! i = Some b -> vmul x y !! i = Some (elt_mul a b).
Proof. apply lookup_zip2. Qed.

Lemma lookup_vdiv x y i a b :
  x !! i = Some a -> y !! i = Some b -> vdiv x y !! i = Some (elt_div a b).
Proof. apply lookup_zip2. Qed.

Lemma lookup_vneg x i a : x !! i = Some a -> vneg x !! i = Some (elt_neg a).
Proof. apply lookup_map1. Qed.

Lemma lookup_vsq x i a : x !! i = Some a -> vsq x !! i = Some (elt_sq a).
Proof. apply lookup_map1. Qed.

Lemma lookup_vadd_s x s i a :
  x !! i = Some a -> vadd_s x s !! i = Some (elt_add a (cast s)).
Proof. apply (lookup_map1 (fun a => elt_add a (cast s))). Qed.

Lemma lookup_vsub_s x s i a :
  x !! i = Some a -> vsub_s x s !! i = Some (elt_sub a (cast s)).
Proof. apply (lookup_map1 (fun a => elt_sub a (cast s))). Qed.

Lemma lookup_vmul_s x s i a :
  x !! i = Some a -> vmul_s x s !! i = Some (elt_mul a (cast s)).
Proof. apply (lookup_map1 (fun a => elt_mul a (cast s))). Qed.

Lemma lookup_vrdiv_s x s i a :
  x !! i = Some a -> vrdiv_s s x !! i = Some (elt_mul (elt_recip a) (cast s)).
Proof. apply (lookup_map1 (fun a => elt_mul (elt_recip a) (cast s))). Qed.

Lemma length_zip2 (f : elt -> elt -> elt) (x y : list elt) n :
  length x = n -> length y = n -> length (zip_with f x y) = n.
Proof. intros Hx Hy. rewrite length_zip_with. lia. Qed.

Lemma length_map1 (f : elt -> elt) (x : list elt) n :
  length x = n -> length (map f x) = n.
Proof. intros Hx. now rewrite length_map. Qed.

Lemma length_initial r draw n : length draw = n -> length (initial r draw) = n.
Proof. intros H. unfold initial, vadd_s, vmul_s. now rewrite !length_map. Qed.

Lemma lookup_initial r draw i a :
  draw !! i = Some a ->
  initial r draw !! i
  = Some (elt_add (elt_mul a (cast (py_sub (snd r) (fst r)))) (cast (fst r))).
Proof. intros H. unfold initial. now apply lookup_vadd_s, lookup_vmul_s. Qed.
End Elementwise.

Create HintDb vec.
#[export] Hint Resolve lookup_vadd lookup_vsub lookup_vmul lookup_vdiv lookup_vneg lookup_vsq
  lookup_vadd_s lookup_vsub_s lookup_vmul_s lookup_vrdiv_s lookup_map1 : vec.

Ltac vec_length :=
  unfold vadd, vsub, vmul, vdiv, vneg, vsq, vadd_s, vsub_s, vmul_s, vrdiv_s;
  repeat first [ assumption
               | apply length_zip2
               | apply length_map1 ].

(** ** The oscillator loop as a recurrence *)

Lemma for_each_snoc {G : Generator} {S} (body : Z -> S -> M S) xs t s w :
  for_each (xs ++ [t]) body s w = bind (for_each xs body s) (body t) w.
Proof.
  revert s w. induction xs as [|x xs IH]; intros s w; simpl.
  - unfold bind, ret. destruct (body t s w) as [[a|e] w']; reflexivity.
  - unfold bind. destruct (body x s w) as [[a|e] w']; [|reflexivity].
    rewrite IH. reflexivity.
Qed.

Section OscillatorLoop.
Context {A : Arith} {G : Generator}.
Variables (mu dt dt_lam : py) (u : tensor2) (n T : nat).
Variables (x10 x20 : list elt) (xuk0 : tensor3).
Hypothesis u_shape : shape2 u = (n, T).
Hypothesis u_wf : wf2 u.
Hypothesis x10_length : length x10 = n.
Hypothesis x20_length : length x20 = n.
Hypothesis xuk0_shape : shape3 xuk0 = (n, T, 3%nat).
Hypothesis xuk0_wf : wf3 xuk0.

(** [u[:, t - 1]] *)
Definition prev_col (t : nat) : list elt :=
  map (fun row => nth (prev T t) row elt_zero) (data2 u).

(** One update of [(x1, x2)], lines 24-28. *)
Definition osc_next (t : nat) (x : list elt * list elt) : list elt * list elt :=
  (vadd (fst x) (vadd (vmul_s (fst x) (py_mul dt mu)) (vmul_s (prev_col t) dt)),
   vadd (snd x) (vmul_s (vsub (snd x) (vsq (fst x))) dt_lam)).

(** [(x1, x2)] when iteration [t] starts. *)
Fixpoint osc_at (t : nat) : list elt * list elt :=
  match t with
  | O => (x10, x20)
  | S t' => osc_next t' (osc_at t')
  end.

(** The buffer when iteration [k] starts. *)
Fixpoint osc_buf (k : nat) : tensor3 :=
  match k with
  | O => xuk0
  | S k' => record (record (osc_buf k') k' 0 (fst (osc_at k'))) k' 1 (snd (osc_at k'))
  end.

Lemma length_prev_col t : length (prev_col t) = n.
Proof.
  unfold prev_col. rewrite length_map. destruct u_wf as [Hl _].
  rewrite Hl, u_shape. reflexivity.
Qed.

Lemma length_osc_at t : length (fst (osc_at t)) = n /\ length (snd (osc_at t)) = n.
Proof.
  induction t as [|t [IH1 IH2]]; simpl; [split; assumption|].
  pose proof (length_prev_col t). split; vec_length.
Qed.

Lemma shape_osc_buf k : shape3 (osc_buf k) = (n, T, 3%nat).
Proof. induction k as [|k IH]; simpl; assumption. Qed.

Lemma wf3_osc_buf k : wf3 (osc_buf k).
Proof.
  induction k as [|k IH]; simpl; [assumption|].
  destruct (length_osc_at k) as [H1 H2].
  apply wf3_record; [simpl; rewrite shape_osc_buf; exact H2|].
  apply wf3_record; [rewrite shape_osc_buf; exact H1 | exact IH].
Qed.

Lemma length_data_osc_buf k : length (data3 (osc_buf k)) = n.
Proof. destruct (wf3_osc_buf k) as [H _]. now rewrite shape_osc_buf in H. Qed.

(** One iteration of the source loop performs one step of the recurrence. *)
Lemma euler_step_run t w :
  (t < T)%nat ->
  euler_step mu dt dt_lam u (Z.of_nat t) (fst (osc_at t), snd (osc_at t), osc_buf t) w
  = (Ok (fst (osc_at (S t)), snd (osc_at (S t)), osc_buf (S t)), w).
Proof.
  intros Ht. destruct (length_osc_at t) as [H1 H2].
  unfold euler_step, bind, lift.
  pose proof (setitem_ok (osc_buf t) n T 3 t 0 (fst (osc_at t)) (shape_osc_buf t) Ht)
    as E0.
  pose proof (setitem_ok (record (osc_buf t) t 0 (fst (osc_at t))) n T 3 t 1
                (snd (osc_at t)) (shape_osc_buf t) Ht) as E1.
  change (Z.of_nat 0) with 0 in E0. change (Z.of_nat 1) with 1 in E1.
  rewrite E0, E1 by (lia || assumption).
  replace T with (snd (shape2 u)) in Ht by now rewrite u_shape.
  rewrite (select_col_prev u t Ht). rewrite u_shape. reflexivity.
Qed.

Lemma oscillator_prefix k w :
  (k <= T)%nat ->
  for_each (range (Z.of_nat k)) (euler_step mu dt dt_lam u) (x10, x20, xuk0) w
  = (Ok (fst (osc_at k), snd (osc_at k), osc_buf k), w).
Proof.
  unfold range. induction k as [|k IH]; intros Hk; [reflexivity|].
  rewrite seqZ_S, for_each_snoc. unfold bind at 1. rewrite IH by lia.
  rewrite Z.add_0_l. apply euler_step_run. lia.
Qed.

(** What the buffer holds when iteration [k] starts. *)
Lemma get3_osc_buf k i t :
  (i < n)%nat -> (t < T)%nat ->
  get3 (osc_buf k) i t 0 = (if decide (t < k)%nat then fst (osc_at t) !! i
                            else get3 xuk0 i t 0) /\
  get3 (osc_buf k) i t 1 = (if decide (t < k)%nat then snd (osc_at t) !! i
                            else get3 xuk0 i t 1) /\
  get3 (osc_buf k) i t 2 = get3 xuk0 i t 2.
Proof.
  intros Hi Ht. induction k as [|k (IH0 & IH1 & IH2)].
  - simpl. repeat split.
  - destruct (length_osc_at k) as [H1 H2].
    assert (Hl1 : length (fst (osc_at k)) = length (data3 (osc_buf k)))
      by now rewrite length_data_osc_buf.
    assert (Hl2 : length (snd (osc_at k))
                  = length (data3 (record (osc_buf k) k 0 (fst (osc_at k))))).
    { destruct (wf3_record (osc_buf k) k 0 (fst (osc_at k))) as [Hw _].
      - now rewrite shape_osc_buf.
      - apply wf3_osc_buf.
      - rewrite Hw. simpl. now rewrite shape_osc_buf. }
    destruct (lookup_lt_is_Some_2 (fst (osc_at k)) i) as [a Ea]; [lia|].
    destruct (lookup_lt_is_Some_2 (snd (osc_at k)) i) as [b Eb]; [lia|].
    assert (Hs0 : is_Some (get3 (osc_buf k) i k 0) \/ (T <= k)%nat).
    { destruct (le_lt_dec T k); [now right | left].
      apply wf3_get3; [apply wf3_osc_buf | rewrite shape_osc_buf; simpl; lia ..]. }
    assert (Hs1 : is_Some (get3 (record (osc_buf k) k 0 (fst (osc_at k))) i k 1)
                  \/ (T <= k)%nat).
    { destruct (le_lt_dec T k); [now right | left].
      rewrite get3_record_other by (auto || lia).
      apply wf3_get3; [apply wf3_osc_buf | rewrite shape_osc_buf; simpl; lia ..]. }
    simpl. destruct (decide (t = k)) as [->|Hne].
    + destruct Hs0 as [Hs0|]; [|lia]. destruct Hs1 as [Hs1|]; [|lia].
      repeat split.
      * rewrite get3_record_other by (auto || lia).
        rewrite (get3_record_same _ _ _ _ _ a Hs0 Ea).
        destruct (decide (k < S k)%nat); [now rewrite Ea | lia].
      * rewrite (get3_record_same _ _ _ _ _ b Hs1 Eb).
        destruct (decide (k < S k)%nat); [now rewrite Eb | lia].
      * rewrite !get3_record_other by (auto || lia). exact IH2.
    + rewrite !get3_record_other by (auto || lia).
      rewrite IH0, IH1, IH2.
      destruct (decide (t < k)%nat), (decide (t < S k)%nat);
        repeat split; try reflexivity; lia.
Qed.
End OscillatorLoop.

(** ** What the oscillator simulators return *)

Section OscillatorRun.
Context {A : Arith} {G : Generator}.
Variable ctl : elt -> elt.
Variables (x1range x2range : py * py) (mu lam dt : py) (seed : Z) (n T : nat).

(** The generator after seeding and the three draws, in program order. *)
Definition seeded : gen := seed_gen (seed mod 2 ^ 64).
Definition draw_x1 : list elt * gen := uniform_fill n seeded.
Definition draw_x2 : list elt * gen := uniform_fill n (snd draw_x1).
Definition draw_u : list (list elt) * gen := fill_rows (uniform_fill T) n (snd draw_x2).

(** The control signal: [ctl] applied to the third draw. *)
Definition control : tensor2 := map2 ctl (Tensor2 (n, T) (fst draw_u)).
Definition start_x1 : list elt := initial x1range (fst draw_x1).
Definition start_x2 : list elt := initial x2range (fst draw_x2).
Definition start_buf : tensor3 :=
  plane (Tensor3 (n, T, 3%nat) (replicate n (replicate T (replicate 3 elt_zero)))) 2 control.

(** [(x1, x2)] when iteration [t] starts, and the returned buffer. *)
Definition osc_traj (t : nat) : list elt * list elt :=
  osc_at mu dt (py_mul dt lam) control T start_x1 start_x2 t.
Definition osc_final : tensor3 :=
  osc_buf mu dt (py_mul dt lam) control T start_x1 start_x2 start_buf T.

Lemma control_shape : shape2 control = (n, T).
Proof. reflexivity. Qed.

Lemma control_wf : wf2 control.
Proof. apply wf2_map2, wf2_rand. Qed.

Lemma start_x1_length : length start_x1 = n.
Proof. apply length_initial, length_uniform_fill. Qed.

Lemma start_x2_length : length start_x2 = n.
Proof. apply length_initial, length_uniform_fill. Qed.

Lemma start_buf_shape : shape3 start_buf = (n, T, 3%nat).
Proof. reflexivity. Qed.

Lemma start_buf_wf : wf3 start_buf.
Proof. apply wf3_plane; [apply wf3_zeros | apply control_wf | reflexivity]. Qed.

Lemma get3_start_buf i t c :
  (i < n)%nat -> (t < T)%nat -> (c < 3)%nat ->
  get3 start_buf i t c = if decide (c = 2%nat) then get2 control i t else Some elt_zero.
Proof.
  intros Hi Ht Hc. unfold start_buf.
  rewrite get3_plane; [|apply wf3_zeros | apply control_wf | reflexivity | simpl; lia].
  case_decide; [reflexivity|]. now apply get3_zeros.
Qed.

Lemma osc_final_shape : shape3 osc_final = (n, T, 3%nat).
Proof. apply shape_osc_buf. reflexivity. Qed.

Lemma osc_final_wf : wf3 osc_final.
Proof.
  apply (wf3_osc_buf mu dt (py_mul dt lam) control n T);
    auto using control_shape, control_wf, start_x1_length, start_x2_length,
      start_buf_shape, start_buf_wf.
Qed.

(** The returned buffer, entry by entry. *)
Lemma get3_osc_final i t :
  (i < n)%nat -> (t < T)%nat ->
  get3 osc_final i t 0 = fst (osc_traj t) !! i /\
  get3 osc_final i t 1 = snd (osc_traj t) !! i /\
  get3 osc_final i t 2 = get2 control i t.
Proof.
  intros Hi Ht.
  destruct (get3_osc_buf mu dt (py_mul dt lam) control n T start_x1 start_x2 start_buf
              control_shape control_wf start_x1_length start_x2_length
              start_buf_shape start_buf_wf T i t Hi Ht) as (H0 & H1 & H2).
  fold osc_final in H0, H1, H2. rewrite H0, H1, H2.
  destruct (decide (t < T)%nat); [|lia].
  rewrite get3_start_buf by lia. repeat split.
Qed.

(** The body shared by [generate_data] and [generate_data_unforced] after
    the control signal is fixed. *)
Lemma oscillator_run w :
  (xuk <- lift (zeros3 (Z.of_nat n) (Z.of_nat T) 3) ;;
   xuk <- lift (setitem_plane xuk 2 control) ;;
   s <- for_each (range (Z.of_nat T)) (euler_step mu dt (py_mul dt lam) control)
          (start_x1, start_x2, xuk) ;;
   ret (snd s))%eff w
  = (Ok osc_final, w).
Proof.
  unfold bind, lift. change 3 with (Z.of_nat 3). rewrite zeros3_nat.
  change 2 with (Z.of_nat 2).
  rewrite (setitem_plane_ok _ n T 3 2 control) by (reflexivity || lia).
  fold start_buf.
  rewrite (oscillator_prefix mu dt (py_mul dt lam) control n T start_x1 start_x2 start_buf)
    by (auto using control_shape, control_wf, start_x1_length, start_x2_length,
          start_buf_shape, start_buf_wf).
  reflexivity.
Qed.
End OscillatorRun.

Section GenerateDataRun.
Context {A : Arith} {G : Generator}.

Definition forced (a : elt) : elt := elt_sub a (cast (py_lit 5 1)).
Definition unforced (a : elt) : elt := elt_mul a (cast (py_lit 0 0)).

Lemma generate_data_run x1range x2range (n : nat) mu lam (T : nat) dt seed w :
  seed_ok seed = true ->
  generate_data x1range x2range (Z.of_nat n) mu lam (Z.of_nat T) dt seed w
  = (Ok (osc_final forced x1range x2range mu lam dt seed n T),
     World (snd (draw_u seed n T)) (stdout w)).
Proof.
  intros Hs. unfold generate_data. rewrite manual_seed_bind, Hs.
  unfold bind at 1. rewrite rand1_nat. cbn [rng stdout].
  unfold bind at 1. rewrite rand1_nat. cbn [rng stdout].
  unfold bind at 1. rewrite rand2_nat. cbn [rng stdout].
  apply (oscillator_run forced).
Qed.

Lemma generate_data_unforced_run x1range x2range (n : nat) mu lam (T : nat) dt seed w :
  seed_ok seed = true ->
  generate_data_unforced x1range x2range (Z.of_nat n) mu lam (Z.of_nat T) dt seed w
  = (Ok (osc_final unforced x1range x2range mu lam dt seed n T),
     World (snd (draw_u seed n T)) (stdout w)).
Proof.
  intros Hs. unfold generate_data_unforced. rewrite manual_seed_bind, Hs.
  unfold bind at 1. rewrite rand1_nat. cbn [rng stdout].
  unfold bind at 1. rewrite rand1_nat. cbn [rng stdout].
  unfold bind at 1. rewrite rand2_nat. cbn [rng stdout].
  apply (oscillator_run unforced).
Qed.

(** The calls are refused exactly for a seed out of range or a negative
    extent. *)
Definition accepted (numICs T seed : Z) : bool :=
  seed_ok seed && (0 <=? numICs) && (0 <=? T).

(** What a refused call raises: the seed is looked at first. *)
Definition refusal (seed : Z) : exn := if seed_ok seed then RuntimeError else ValueError.

Lemma generate_data_refused x1range x2range numICs mu lam T dt seed w :
  accepted numICs T seed = false ->
  fst (generate_data x1range x2range numICs mu lam T dt seed w) = Raise (refusal seed).
Proof.
  unfold accepted, generate_data, refusal. intros Hs. rewrite manual_seed_bind.
  destruct (seed_ok seed); [|reflexivity]. simpl in Hs.
  destruct (Z.leb_spec 0 numICs) as [Hn|Hn].
  - apply Z_of_nat_complete in Hn as [n ->].
    unfold bind at 1. rewrite rand1_nat. cbn [rng stdout].
    unfold bind at 1. rewrite rand1_nat. cbn [rng stdout].
    unfold bind at 1, rand2. rewrite check_size_nat.
    simpl in Hs. destruct (Z.leb_spec 0 T) as [Ht|Ht]; [discriminate|].
    now rewrite (check_size_neg T Ht).
  - unfold bind at 1, rand1. now rewrite check_size_neg.
Qed.

Lemma generate_data_unforced_refused x1range x2range numICs mu lam T dt seed w :
  accepted numICs T seed = false ->
  fst (generate_data_unforced x1range x2range numICs mu lam T dt seed w)
  = Raise (refusal seed).
Proof.
  unfold accepted, generate_data_unforced, refusal. intros Hs. rewrite manual_seed_bind.
  destruct (seed_ok seed); [|reflexivity]. simpl in Hs.
  destruct (Z.leb_spec 0 numICs) as [Hn|Hn].
  - apply Z_of_nat_complete in Hn as [n ->].
    unfold bind at 1. rewrite rand1_nat. cbn [rng stdout].
    unfold bind at 1. rewrite rand1_nat. cbn [rng stdout].
    unfold bind at 1, rand2. rewrite check_size_nat.
    simpl in Hs. destruct (Z.leb_spec 0 T) as [Ht|Ht]; [discriminate|].
    now rewrite (check_size_neg T Ht).
  - unfold bind at 1, rand1. now rewrite check_size_neg.
Qed.

Lemma accepted_nat numICs T seed :
  accepted numICs T seed = true ->
  seed_ok seed = true /\ numICs = Z.of_nat (Z.to_nat numICs) /\ T = Z.of_nat (Z.to_nat T).
Proof.
  unfold accepted. intros H.
  apply andb_prop in H as [H HT]. apply andb_prop in H as [Hs Hn].
  apply Z.leb_le in HT, Hn. repeat split; [assumption | lia | lia].
Qed.
End GenerateDataRun.

(** ** The arm loop as a recurrence *)

Section RecordFacts.
Context {A : Arith} {G : Generator}.

Lemma get3_record x t c v i t' c' :
  wf3 x -> length v = fst (fst (shape3 x)) ->
  (i < fst (fst (shape3 x)))%nat -> (t < snd (fst (shape3 x)))%nat ->
  (c < snd (shape3 x))%nat ->
  get3 (record x t c v) i t' c'
  = if decide (t' = t /\ c' = c) then v !! i else get3 x i t' c'.
Proof.
  intros Hwf Hv Hi Ht Hc. case_decide as Hd.
  - destruct Hd as [-> ->].
    destruct (lookup_lt_is_Some_2 v i) as [a Ea]; [lia|].
    rewrite Ea. apply get3_record_same; [|exact Ea]. now apply wf3_get3.
  - apply get3_record_other.
    + destruct Hwf as [Hl _]. lia.
    + destruct (decide (t' = t)); [right; intros ->; tauto | left; assumption].
Qed.

(** The buffer after [x[:, :, c:] = y]. *)
Definition tail_set (x : tensor3) (c : nat) (y : tensor3) : tensor3 :=
  Tensor3 (shape3 x)
    (zip_with (zip_with (fun row r => take c row ++ r)) (data3 x) (data3 y)).

Lemma setitem_tail_ok x y d0 d1 d2 c :
  shape3 x = (d0, d1, d2) -> (c <= d2)%nat -> shape3 y = (d0, d1, d2 - c)%nat ->
  setitem_tail x c y = Ok (tail_set x c y).
Proof.
  intros Hx Hc Hy. unfold setitem_tail. rewrite Hx, Hy.
  rewrite Nat.min_l by exact Hc. rewrite !Nat.eqb_refl. simpl.
  unfold tail_set. now rewrite Hx.
Qed.

Lemma wf3_tail_set x y c :
  wf3 x -> wf3 y -> (c <= snd (shape3 x))%nat ->
  fst (shape3 y) = fst (shape3 x) -> snd (shape3 y) = (snd (shape3 x) - c)%nat ->
  wf3 (tail_set x c y).
Proof.
  intros [Hlen Hall] [Hlen2 Hall2] Hc Hs Hs2. rewrite Hs, Hs2 in *. split; simpl.
  - rewrite length_zip_with. lia.
  - apply Forall_lookup. intros i z Hz.
    apply lookup_zip_with_Some in Hz as (traj & ytraj & -> & Etraj & Eytraj).
    destruct (proj1 (Forall_lookup _ _) Hall i traj Etraj) as [Hl Hrows].
    destruct (proj1 (Forall_lookup _ _) Hall2 i ytraj Eytraj) as [Hl2 Hrows2].
    split; [rewrite length_zip_with; lia|].
    apply Forall_lookup. intros t row' Hrow'.
    apply lookup_zip_with_Some in Hrow' as (row & r & -> & Erow & Er).
    pose proof (proj1 (Forall_lookup _ _) Hrows t row Erow) as Hrl. cbv beta in Hrl.
    pose proof (proj1 (Forall_lookup _ _) Hrows2 t r Er) as Hrl2. cbv beta in Hrl2.
    rewrite length_app, length_take. lia.
Qed.

Lemma get3_tail_set x y c i t c' :
  wf3 x -> wf3 y -> (c <= snd (shape3 x))%nat ->
  fst (shape3 y) = fst (shape3 x) -> snd (shape3 y) = (snd (shape3 x) - c)%nat ->
  get3 (tail_set x c y) i t c'
  = if decide (c' < c)%nat then get3 x i t c' else get3 y i t (c' - c).
Proof.
  intros [Hlen Hall] [Hlen2 Hall2] Hc Hs Hs2. rewrite Hs, Hs2 in *.
  unfold get3, tail_set, row_at. simpl. rewrite lookup_zip_with.
  destruct (data3 x !! i) as [traj|] eqn:Ex; simpl.
  - destruct (proj1 (Forall_lookup _ _) Hall i traj Ex) as [Hl Hrows].
    destruct (lookup_lt_is_Some_2 (data3 y) i) as [ytraj Ey].
    { apply lookup_lt_Some in Ex. lia. }
    destruct (proj1 (Forall_lookup _ _) Hall2 i ytraj Ey) as [Hl2 Hrows2].
    rewrite Ey. simpl. rewrite lookup_zip_with.
    destruct (traj !! t) as [row|] eqn:Et; simpl.
    + destruct (lookup_lt_is_Some_2 ytraj t) as [r Er].
      { apply lookup_lt_Some in Et. lia. }
      rewrite Er. simpl.
      pose proof (proj1 (Forall_lookup _ _) Hrows t row Et) as Hrl. cbv beta in Hrl.
      rewrite lookup_app, lookup_take, length_take.
      case_decide.
      * destruct (lookup_lt_is_Some_2 row c') as [a Ea]; [lia|]. now rewrite Ea.
      * f_equal. lia.
    + assert (ytraj !! t = None) as ->.
      { apply lookup_ge_None. apply lookup_ge_None in Et. lia. }
      case_decide; reflexivity.
  - assert (data3 y !! i = None) as ->.
    { apply lookup_ge_None. apply lookup_ge_None in Ex. lia. }
    case_decide; reflexivity.
Qed.

Lemma wf3_map3 f x : wf3 x -> wf3 (map3 f x).
Proof.
  intros [Hlen Hall]. split; simpl; [now rewrite length_map|].
  apply Forall_fmap. eapply Forall_impl; [|exact Hall].
  intros traj [Hl Hrows]. split; simpl; [now rewrite length_map|].
  apply Forall_fmap. eapply Forall_impl; [|exact Hrows].
  intros row Hrow. simpl. now rewrite length_map.
Qed.

Lemma get3_map3 f x i t c : get3 (map3 f x) i t c = f <$> get3 x i t c.
Proof.
  unfold get3, map3, row_at. simpl.
  change (map (map (map f)) (data3 x)) with (map (map f) <$> data3 x).
  rewrite list_lookup_fmap. destruct (data3 x !! i) as [traj|]; simpl; [|reflexivity].
  change (map (map f) traj) with (map f <$> traj).
  rewrite list_lookup_fmap. destruct (traj !! t) as [row|]; simpl; [|reflexivity].
  apply (list_lookup_fmap f).
Qed.

(** [tau[:, t, :][:, c]]: entry [c] of step [t] for every trajectory. *)
Definition step_col (x : tensor3) (t c : nat) : list elt :=
  map (fun row => nth c row elt_zero) (map (fun traj => nth t traj []) (data3 x)).

Lemma select_step_nat x t :
  (t < snd (fst (shape3 x)))%nat ->
  select_step x (Z.of_nat t)
  = Ok (Tensor2 (fst (fst (shape3 x)), snd (shape3 x))
          (map (fun traj => nth t traj []) (data3 x))).
Proof.
  intros Ht. unfold select_step. destruct (shape3 x) as [[d0 d1] d2]. simpl in *.
  now rewrite py_index_nat.
Qed.

Lemma length_step_col x t c : length (step_col x t c) = length (data3 x).
Proof. unfold step_col. now rewrite !length_map. Qed.

Lemma lookup_step_col x t c i a :
  get3 x i t c = Some a -> step_col x t c !! i = Some a.
Proof.
  unfold get3, step_col. intros H. apply lookup_column. unfold row_at in *.
  change (map (fun traj => nth t traj []) (data3 x))
    with ((fun traj => nth t traj []) <$> data3 x).
  rewrite list_lookup_fmap. destruct (data3 x !! i) as [traj|]; [|discriminate].
  simpl. destruct (traj !! t) as [row|] eqn:Et; [|discriminate].
  now rewrite (nth_lookup_Some _ _ _ _ Et).
Qed.
End RecordFacts.

Section ArmSquares.
Context {A : Arith} {R : Trig A}.

(** The values of the three Python powers the loop body takes, when none
    of them overflows. *)
Record squares : Type := Squares { sq_lc1 : py; sq_l1 : py; sq_lc2 : py }.

Definition squares_ok (p : arm) (sq : squares) : Prop :=
  py_sq (arm_lc1 p) = Ok (sq_lc1 sq) /\
  py_sq (arm_l1 p) = Ok (sq_l1 sq) /\
  py_sq (arm_lc2 p) = Ok (sq_lc2 sq).

(** The entries of the inertia matrix for given squares. *)
Definition M11_with (p : arm) (sq : squares) (cos_q2 : list elt) : list elt :=
  vadd_s
    (vmul_s
       (vadd_s (vmul_s cos_q2 (py_mul (py_mul (py_lit 2 0) (arm_l1 p)) (arm_lc2 p)))
          (py_add (sq_l1 sq) (sq_lc2 sq)))
       (arm_m2 p))
    (py_add (py_add (arm_I1 p) (arm_I2 p)) (py_mul (arm_m1 p) (sq_lc1 sq))).

Definition M12_with (p : arm) (sq : squares) (cos_q2 : list elt) : list elt :=
  vadd_s
    (vmul_s (vadd_s (vmul_s cos_q2 (py_mul (arm_l1 p) (arm_lc2 p))) (sq_lc2 sq)) (arm_m2 p))
    (arm_I2 p).

Definition M22_with (p : arm) (sq : squares) : py :=
  py_add (arm_I2 p) (py_mul (arm_m2 p) (sq_lc2 sq)).

Definition accelerations_with (p : arm) (sq : squares) (q1 q2 dq1 dq2 tau1 tau2 : list elt)
  : list elt * list elt :=
  solve p (M11_with p sq (map elt_cos q2)) (M12_with p sq (map elt_cos q2)) (M22_with p sq)
    (map elt_sin q2) (map elt_cos (vadd q1 q2)) q1 dq1 dq2 tau1 tau2.

(** When no power overflows, the entries of the inertia matrix are those
    for the values of the squares. *)
Lemma inertia_ok p sq cos_q2 :
  squares_ok p sq ->
  inertia p cos_q2 = Ok (M11_with p sq cos_q2, M12_with p sq cos_q2, M22_with p sq).
Proof.
  intros (H1 & H2 & H3). unfold inertia, M11_of, M12_of, M22_of.
  rewrite H1, H2, H3. reflexivity.
Qed.

(** [l1 ** 2] is the second power of line 95; when it overflows nothing
    is computed. *)
Lemma inertia_raise p cos_q2 a e :
  py_sq (arm_lc1 p) = Ok a -> py_sq (arm_l1 p) = Raise e -> inertia p cos_q2 = Raise e.
Proof. intros H1 H2. unfold inertia, M11_of. rewrite H1, H2. reflexivity. Qed.
End ArmSquares.

Section ArmLoop.
Context {A : Arith} {G : Generator} {R : Trig A}.
Variables (p : arm) (sq : squares) (tau : tensor3) (n T : nat).
Variables (q10 q20 dq10 dq20 : list elt) (data0 : tensor3).
Hypothesis tau_shape : shape3 tau = (n, T, 2%nat).
Hypothesis tau_wf : wf3 tau.
Hypothesis q10_length : length q10 = n.
Hypothesis q20_length : length q20 = n.
Hypothesis dq10_length : length dq10 = n.
Hypothesis dq20_length : length dq20 = n.
Hypothesis data0_shape : shape3 data0 = (n, T, 6%nat).
Hypothesis data0_wf : wf3 data0.

Definition arm_vec : Type := list elt * list elt * list elt * list elt.

(** One update of [(q1, q2, dq1, dq2)], lines 89-130. *)
Definition arm_next (t : nat) (s : arm_vec) : arm_vec :=
  let '(q1, q2, dq1, dq2) := s in
  let '(ddq1, ddq2) :=
    accelerations_with p sq q1 q2 dq1 dq2 (step_col tau t 0) (step_col tau t 1) in
  let dq1' := vadd dq1 (vmul_s ddq1 (arm_dt p)) in
  let dq2' := vadd dq2 (vmul_s ddq2 (arm_dt p)) in
  (vadd q1 (vmul_s dq1' (arm_dt p)), vadd q2 (vmul_s dq2' (arm_dt p)), dq1', dq2').

Fixpoint arm_at (t : nat) : arm_vec :=
  match t with
  | O => (q10, q20, dq10, dq20)
  | S t' => arm_next t' (arm_at t')
  end.

Definition record4 (x : tensor3) (t : nat) (s : arm_vec) : tensor3 :=
  let '(q1, q2, dq1, dq2) := s in
  record (record (record (record x t 0 q1) t 1 q2) t 2 dq1) t 3 dq2.

Fixpoint arm_buf (k : nat) : tensor3 :=
  match k with
  | O => data0
  | S k' => record4 (arm_buf k') k' (arm_at k')
  end.

Definition arm_lengths (s : arm_vec) : Prop :=
  let '(q1, q2, dq1, dq2) := s in
  length q1 = n /\ length q2 = n /\ length dq1 = n /\ length dq2 = n.

Lemma length_accelerations q1 q2 dq1 dq2 tau1 tau2 :
  length q1 = n -> length q2 = n -> length dq1 = n -> length dq2 = n ->
  length tau1 = n -> length tau2 = n ->
  length (fst (accelerations_with p sq q1 q2 dq1 dq2 tau1 tau2)) = n /\
  length (snd (accelerations_with p sq q1 q2 dq1 dq2 tau1 tau2)) = n.
Proof.
  intros. unfold accelerations_with, solve, M11_with, M12_with. cbn [fst snd].
  split; vec_length.
Qed.

Lemma length_tau_col t c : length (step_col tau t c) = n.
Proof.
  rewrite length_step_col. destruct tau_wf as [Hl _]. now rewrite tau_shape in Hl.
Qed.

Lemma arm_lengths_at t : arm_lengths (arm_at t).
Proof.
  induction t as [|t IH]; simpl; [repeat split; assumption|].
  destruct (arm_at t) as [[[q1 q2] dq1] dq2]. destruct IH as (H1 & H2 & H3 & H4).
  unfold arm_next.
  destruct (length_accelerations q1 q2 dq1 dq2 (step_col tau t 0) (step_col tau t 1)
              H1 H2 H3 H4 (length_tau_col t 0) (length_tau_col t 1)) as [Ha Hb].
  destruct (accelerations_with _ _ _ _ _ _ _ _) as [ddq1 ddq2]. simpl in Ha, Hb.
  repeat split; vec_length.
Qed.

Lemma shape_record4 x t s : shape3 (record4 x t s) = shape3 x.
Proof. destruct s as [[[q1 q2] dq1] dq2]. reflexivity. Qed.

Lemma wf3_record4 x t s :
  shape3 x = (n, T, 6%nat) -> arm_lengths s -> wf3 x -> wf3 (record4 x t s).
Proof.
  intros Hs Hl Hwf. destruct s as [[[q1 q2] dq1] dq2].
  destruct Hl as (H1 & H2 & H3 & H4). unfold record4.
  repeat (apply wf3_record; [simpl; rewrite Hs; assumption|]). exact Hwf.
Qed.

Lemma shape_arm_buf k : shape3 (arm_buf k) = (n, T, 6%nat).
Proof. induction k as [|k IH]; simpl; [assumption|]. now rewrite shape_record4. Qed.

Lemma wf3_arm_buf k : wf3 (arm_buf k).
Proof.
  induction k as [|k IH]; simpl; [assumption|].
  apply wf3_record4; [apply shape_arm_buf | apply arm_lengths_at | exact IH].
Qed.

(** One iteration of the source loop: the state is recorded, and the
    iteration ends with the exception [**] raises in the inertia matrix
    or with the updated state. *)
Lemma arm_step_eval t w q1 q2 dq1 dq2 buf :
  (t < T)%nat -> shape3 buf = (n, T, 6%nat) ->
  length q1 = n -> length q2 = n -> length dq1 = n -> length dq2 = n ->
  arm_step p tau (Z.of_nat t) (q1, q2, dq1, dq2, buf) w
  = match inertia p (map elt_cos q2) with
    | Ok (M11, M12, M22) =>
        let '(ddq1, ddq2) :=
          solve p M11 M12 M22 (map elt_sin q2) (map elt_cos (vadd q1 q2)) q1 dq1 dq2
            (step_col tau t 0) (step_col tau t 1) in
        let dq1' := vadd dq1 (vmul_s ddq1 (arm_dt p)) in
        let dq2' := vadd dq2 (vmul_s ddq2 (arm_dt p)) in
        (Ok (vadd q1 (vmul_s dq1' (arm_dt p)), vadd q2 (vmul_s dq2' (arm_dt p)), dq1', dq2',
             record4 buf t (q1, q2, dq1, dq2)), w)
    | Raise e => (Raise e, w)
    end.
Proof.
  intros Ht Hs H1 H2 H3 H4.
  unfold arm_step, bind, lift.
  pose proof (setitem_ok buf n T 6 t 0 q1 Hs Ht) as E0.
  pose proof (setitem_ok (record buf t 0 q1) n T 6 t 1 q2 Hs Ht) as E1.
  pose proof (setitem_ok (record (record buf t 0 q1) t 1 q2) n T 6 t 2 dq1 Hs Ht) as E2.
  pose proof (setitem_ok (record (record (record buf t 0 q1) t 1 q2) t 2 dq1)
                n T 6 t 3 dq2 Hs Ht) as E3.
  change (Z.of_nat 0) with 0 in E0. change (Z.of_nat 1) with 1 in E1.
  change (Z.of_nat 2) with 2 in E2. change (Z.of_nat 3) with 3 in E3.
  rewrite E0, E1, E2, E3 by (lia || assumption).
  rewrite select_step_nat by (rewrite tau_shape; exact Ht).
  rewrite tau_shape. cbn [fst snd].
  change 0 with (Z.of_nat 0) at 1. rewrite select_col_nat by (simpl; lia).
  change 1 with (Z.of_nat 1) at 1. rewrite select_col_nat by (simpl; lia).
  destruct (inertia p (map elt_cos q2)) as [[[M11 M12] M22]|e]; [|reflexivity].
  cbn [data2]. fold (step_col tau t 0). fold (step_col tau t 1).
  destruct (solve _ _ _ _ _ _ _ _ _ _ _) as [ddq1 ddq2]. reflexivity.
Qed.

Section NoOverflow.
Hypothesis sq_ok : squares_ok p sq.

(** One iteration of the source loop performs one step of the recurrence. *)
Lemma arm_step_run t w :
  (t < T)%nat ->
  (let '(q1, q2, dq1, dq2) := arm_at t in
   arm_step p tau (Z.of_nat t) (q1, q2, dq1, dq2, arm_buf t) w)
  = (let '(q1, q2, dq1, dq2) := arm_at (S t) in
     (Ok (q1, q2, dq1, dq2, arm_buf (S t)), w)).
Proof.
  intros Ht. pose proof (arm_lengths_at t) as Hl. cbn [arm_at arm_buf].
  destruct (arm_at t) as [[[q1 q2] dq1] dq2]. destruct Hl as (H1 & H2 & H3 & H4).
  rewrite (arm_step_eval t w q1 q2 dq1 dq2 (arm_buf t) Ht (shape_arm_buf t) H1 H2 H3 H4).
  rewrite (inertia_ok p sq _ sq_ok). unfold arm_next, accelerations_with.
  destruct (solve _ _ _ _ _ _ _ _ _ _ _) as [ddq1 ddq2]. reflexivity.
Qed.

Lemma arm_prefix k w :
  (k <= T)%nat ->
  for_each (range (Z.of_nat k)) (arm_step p tau) (q10, q20, dq10, dq20, data0) w
  = (let '(q1, q2, dq1, dq2) := arm_at k in (Ok (q1, q2, dq1, dq2, arm_buf k), w)).
Proof.
  unfold range. induction k as [|k IH]; intros Hk; [reflexivity|].
  rewrite seqZ_S, for_each_snoc. unfold bind at 1. rewrite IH by lia.
  rewrite Z.add_0_l. pose proof (arm_step_run k w) as E.
  destruct (arm_at k) as [[[q1 q2] dq1] dq2]. apply E. lia.
Qed.
End NoOverflow.

(** When [l1 ** 2] overflows, the first iteration raises and the loop
    with it. *)
Lemma arm_loop_raises a e w :
  (0 < T)%nat ->
  py_sq (arm_lc1 p) = Ok a -> py_sq (arm_l1 p) = Raise e ->
  for_each (range (Z.of_nat T)) (arm_step p tau) (q10, q20, dq10, dq20, data0) w
  = (Raise e, w).
Proof.
  intros HT H1 H2. unfold range. rewrite seqZ_cons by lia. cbn [for_each].
  unfold bind at 1.
  pose proof (arm_step_eval 0 w q10 q20 dq10 dq20 data0 HT data0_shape
                q10_length q20_length dq10_length dq20_length) as E.
  change (Z.of_nat 0) with 0 in E. rewrite E.
  now rewrite (inertia_raise p _ a e H1 H2).
Qed.

(** What the buffer holds when iteration [k] starts. *)
Lemma get3_arm_buf k i t c :
  (i < n)%nat -> (t < T)%nat ->
  get3 (arm_buf k) i t c
  = if decide (t < k /\ c < 4)%nat
    then (let '(q1, q2, dq1, dq2) := arm_at t in
          match c with
          | 0 => q1 !! i | 1 => q2 !! i | 2 => dq1 !! i | _ => dq2 !! i
          end)%nat
    else get3 data0 i t c.
Proof.
  intros Hi Ht. induction k as [|k IH].
  - simpl. destruct (decide (t < 0 /\ c < 4)%nat) as [[? ?]|]; [lia | reflexivity].
  - pose proof (arm_lengths_at k) as Hl. pose proof (shape_arm_buf k) as Hs.
    pose proof (wf3_arm_buf k) as Hwf. simpl.
    destruct (le_lt_dec T k) as [HTk|HTk].
    { (* past the horizon [record] changes nothing *)
      destruct (arm_at k) as [[[q1 q2] dq1] dq2] eqn:Ek. unfold record4.
      rewrite !get3_record_other.
      - rewrite IH. destruct (decide (t < k /\ c < 4)%nat), (decide (t < S k /\ c < 4)%nat);
          try reflexivity; lia.
      - destruct Hwf as [Hw _]. rewrite Hs in Hw. destruct Hl as (? & _). simpl in *. lia.
      - left. lia.
      - simpl. rewrite length_zip_with. destruct Hwf as [Hw _]. rewrite Hs in Hw.
        destruct Hl as (? & ? & _). simpl in *. lia.
      - left. lia.
      - simpl. rewrite !length_zip_with. destruct Hwf as [Hw _]. rewrite Hs in Hw.
        destruct Hl as (? & ? & ? & _). simpl in *. lia.
      - left. lia.
      - simpl. rewrite !length_zip_with. destruct Hwf as [Hw _]. rewrite Hs in Hw.
        destruct Hl as (? & ? & ? & ?). simpl in *. lia.
      - left. lia. }
    destruct (arm_at k) as [[[q1 q2] dq1] dq2] eqn:Ek.
    destruct Hl as (H1 & H2 & H3 & H4). unfold record4.
    assert (W1 : wf3 (record (arm_buf k) k 0 q1))
      by (apply wf3_record; [rewrite Hs|]; assumption).
    assert (W2 : wf3 (record (record (arm_buf k) k 0 q1) k 1 q2))
      by (apply wf3_record; [simpl; rewrite Hs|]; assumption).
    assert (W3 : wf3 (record (record (record (arm_buf k) k 0 q1) k 1 q2) k 2 dq1))
      by (apply wf3_record; [simpl; rewrite Hs|]; assumption).
    rewrite get3_record by (assumption || (simpl; rewrite Hs; simpl; (assumption || lia))).
    rewrite get3_record by (assumption || (simpl; rewrite Hs; simpl; (assumption || lia))).
    rewrite get3_record by (assumption || (simpl; rewrite Hs; simpl; (assumption || lia))).
    rewrite get3_record by (assumption || (simpl; rewrite Hs; simpl; (assumption || lia))).
    rewrite IH.
    destruct (decide (t = k)) as [->|Hne].
    + rewrite Ek.
      destruct c as [|[|[|[|c]]]];
        repeat (case_decide; try lia); try reflexivity;
        exfalso; intuition lia.
    + repeat (case_decide; try lia); try reflexivity; exfalso; intuition lia.
Qed.
End ArmLoop.

(** ** What the arm simulator returns *)

Section ArmRun.
Context {A : Arith} {G : Generator} {R : Trig A}.
Variables (q1_range q2_range dq1_range dq2_range : py * py).
Variables (dt : py) (seed : Z) (tau_max m1 m2 l1 l2 g : py) (sq : squares) (n T : nat).

(** The constants of a call whose squares are [sq]. *)
Definition arm_of : arm :=
  let lc1 := py_div l1 (py_lit 2 0) in
  let lc2 := py_div l2 (py_lit 2 0) in
  Arm dt m1 m2 l1 g lc1 lc2 (py_mul m1 (sq_lc1 sq)) (py_mul m2 (sq_lc2 sq)).

Definition draw_q1 : list elt * gen := uniform_fill n (seeded seed).
Definition draw_q2 : list elt * gen := uniform_fill n (snd draw_q1).
Definition draw_dq1 : list elt * gen := uniform_fill n (snd draw_q2).
Definition draw_dq2 : list elt * gen := uniform_fill n (snd draw_dq1).
Definition draw_tau : list (list (list elt)) * gen :=
  fill_rows (fill_rows (uniform_fill 2) T) n (snd draw_dq2).

Definition scale_torque (a : elt) : elt :=
  elt_mul (elt_mul (elt_sub a (cast (py_lit 5 1))) (cast (py_lit 2 0))) (cast tau_max).

Definition torque : tensor3 := map3 scale_torque (Tensor3 (n, T, 2%nat) (fst draw_tau)).

Definition arm_start : arm_vec :=
  (initial q1_range (fst draw_q1), initial q2_range (fst draw_q2),
   initial dq1_range (fst draw_dq1), initial dq2_range (fst draw_dq2)).

Definition arm_start_buf : tensor3 :=
  tail_set (Tensor3 (n, T, 6%nat) (replicate n (replicate T (replicate 6 elt_zero))))
    4 torque.

Definition arm_traj (t : nat) : arm_vec :=
  let '(q1, q2, dq1, dq2) := arm_start in arm_at arm_of sq torque q1 q2 dq1 dq2 t.

Definition arm_final : tensor3 :=
  let '(q1, q2, dq1, dq2) := arm_start in
  arm_buf arm_of sq torque q1 q2 dq1 dq2 arm_start_buf T.

(** The line printed before the draws. *)
Definition arm_line : string := inertia_line (arm_I1 arm_of) (arm_I2 arm_of).

Lemma torque_wf : wf3 torque.
Proof. apply wf3_map3, wf3_rand. Qed.

Lemma arm_start_buf_wf : wf3 arm_start_buf.
Proof.
  apply wf3_tail_set; [apply wf3_zeros | apply torque_wf | simpl; lia | reflexivity ..].
Qed.

Lemma get3_arm_start_buf i t c :
  (i < n)%nat -> (t < T)%nat -> (c < 6)%nat ->
  get3 arm_start_buf i t c
  = if decide (c < 4)%nat then Some elt_zero else get3 torque i t (c - 4).
Proof.
  intros Hi Ht Hc. unfold arm_start_buf.
  rewrite get3_tail_set;
    [|apply wf3_zeros | apply torque_wf | simpl; lia | reflexivity | reflexivity].
  case_decide; [|reflexivity]. apply get3_zeros; lia.
Qed.

Lemma arm_final_shape : shape3 arm_final = (n, T, 6%nat).
Proof. unfold arm_final, arm_start. apply shape_arm_buf. reflexivity. Qed.

Lemma arm_final_wf : wf3 arm_final.
Proof.
  unfold arm_final, arm_start.
  apply (wf3_arm_buf arm_of sq torque n T);
    first [ reflexivity | apply torque_wf | apply arm_start_buf_wf
          | apply length_initial, length_uniform_fill ].
Qed.

(** The returned buffer, entry by entry. *)
Lemma get3_arm_final i t c :
  (i < n)%nat -> (t < T)%nat -> (c < 6)%nat ->
  get3 arm_final i t c
  = if decide (c < 4)%nat
    then (let '(q1, q2, dq1, dq2) := arm_traj t in
          match c with
          | 0 => q1 !! i | 1 => q2 !! i | 2 => dq1 !! i | _ => dq2 !! i
          end)%nat
    else get3 torque i t (c - 4).
Proof.
  intros Hi Ht Hc. unfold arm_final, arm_traj, arm_start.
  rewrite (get3_arm_buf arm_of sq torque n T);
    try first [ reflexivity | assumption | apply torque_wf | apply arm_start_buf_wf
              | apply length_initial, length_uniform_fill ].
  rewrite get3_arm_start_buf by assumption.
  repeat case_decide; try reflexivity; exfalso; intuition lia.
Qed.

(** The call up to the loop: seeding, the two squares, the line, the
    draws. *)
Lemma generate_two_link_data_setup w :
  seed_ok seed = true ->
  py_sq (py_div l1 (py_lit 2 0)) = Ok (sq_lc1 sq) ->
  py_sq (py_div l2 (py_lit 2 0)) = Ok (sq_lc2 sq) ->
  generate_two_link_data q1_range q2_range dq1_range dq2_range (Z.of_nat n) (Z.of_nat T)
    dt seed tau_max m1 m2 l1 l2 g w
  = (let '(q1, q2, dq1, dq2) := arm_start in
     s <- for_each (range (Z.of_nat T)) (arm_step arm_of torque)
            (q1, q2, dq1, dq2, arm_start_buf) ;;
     ret (snd s))%eff
      (World (snd draw_tau) (stdout w ++ [arm_line])).
Proof.
  intros Hs H1 H2. unfold generate_two_link_data. rewrite manual_seed_bind, Hs.
  unfold bind at 1, lift at 1. rewrite H1.
  unfold bind at 1, lift at 1. rewrite H2.
  unfold bind at 1, print. cbn [rng stdout].
  unfold bind at 1. rewrite rand1_nat. cbn [rng stdout].
  unfold bind at 1. rewrite rand1_nat. cbn [rng stdout].
  unfold bind at 1. rewrite rand1_nat. cbn [rng stdout].
  unfold bind at 1. rewrite rand1_nat. cbn [rng stdout].
  unfold bind at 1. change 2 with (Z.of_nat 2) at 1. rewrite rand3_nat. cbn [rng stdout].
  unfold bind at 1, lift at 1. change 6 with (Z.of_nat 6). rewrite zeros3_nat.
  unfold bind at 1, lift at 1.
  rewrite (setitem_tail_ok _ _ n T 6 4) by (reflexivity || lia).
  reflexivity.
Qed.

Lemma generate_two_link_data_run w :
  seed_ok seed = true ->
  py_sq (py_div l1 (py_lit 2 0)) = Ok (sq_lc1 sq) ->
  py_sq (py_div l2 (py_lit 2 0)) = Ok (sq_lc2 sq) ->
  ((0 < T)%nat -> py_sq l1 = Ok (sq_l1 sq)) ->
  generate_two_link_data q1_range q2_range dq1_range dq2_range (Z.of_nat n) (Z.of_nat T)
    dt seed tau_max m1 m2 l1 l2 g w
  = (Ok arm_final, World (snd draw_tau) (stdout w ++ [arm_line])).
Proof.
  intros Hs H1 H2 H3. rewrite generate_two_link_data_setup by assumption.
  unfold arm_final, arm_start. unfold bind at 1.
  destruct (Nat.eq_dec T 0%nat) as [E|E].
  - revert H3. rewrite E. intros _. reflexivity.
  - pose proof (arm_prefix arm_of sq torque n T
                  (initial q1_range (fst draw_q1)) (initial q2_range (fst draw_q2))
                  (initial dq1_range (fst draw_dq1)) (initial dq2_range (fst draw_dq2))
                  arm_start_buf) as P.
    rewrite P;
      try first [ reflexivity | apply torque_wf | apply arm_start_buf_wf
                | apply length_initial, length_uniform_fill | lia ].
    + destruct (arm_at _ _ _ _ _ _ _ _) as [[[q1 q2] dq1] dq2]. reflexivity.
    + repeat split; (assumption || (apply H3; lia)).
Qed.

(** The same call when [l1 ** 2] overflows: it raises in the first
    iteration, after the line and all the draws. *)
Lemma generate_two_link_data_overflow e w :
  seed_ok seed = true ->
  py_sq (py_div l1 (py_lit 2 0)) = Ok (sq_lc1 sq) ->
  py_sq (py_div l2 (py_lit 2 0)) = Ok (sq_lc2 sq) ->
  (0 < T)%nat -> py_sq l1 = Raise e ->
  generate_two_link_data q1_range q2_range dq1_range dq2_range (Z.of_nat n) (Z.of_nat T)
    dt seed tau_max m1 m2 l1 l2 g w
  = (Raise e, World (snd draw_tau) (stdout w ++ [arm_line])).
Proof.
  intros Hs H1 H2 HT H3. rewrite generate_two_link_data_setup by assumption.
  unfold arm_start. unfold bind at 1.
  erewrite (arm_loop_raises arm_of torque n T);
    first [ reflexivity | apply length_initial, length_uniform_fill | exact HT
          | exact H3 | exact H1 ].
Qed.

(** What a call has printed when it ends, however it ends. *)
Lemma generate_two_link_data_stdout (numICs T' : Z) w :
  stdout (snd (generate_two_link_data q1_range q2_range dq1_range dq2_range numICs T'
                 dt seed tau_max m1 m2 l1 l2 g w))
  = if seed_ok seed
    then match py_sq (py_div l1 (py_lit 2 0)), py_sq (py_div l2 (py_lit 2 0)) with
         | Ok a, Ok b => stdout w ++ [inertia_line (py_mul m1 a) (py_mul m2 b)]
         | _, _ => stdout w
         end
    else stdout w.
Proof.
  unfold generate_two_link_data. rewrite manual_seed_bind.
  destruct (seed_ok seed); [|reflexivity].
  unfold bind at 1, lift at 1.
  destruct (py_sq (py_div l1 (py_lit 2 0))) as [a|e]; [|reflexivity].
  unfold bind at 1, lift at 1.
  destruct (py_sq (py_div l2 (py_lit 2 0))) as [b|e]; [|reflexivity].
  unfold bind at 1, print. cbn [rng stdout].
  match goal with
  | |- stdout (snd (?m ?w')) = _ =>
      assert (Hsil : silent m); [|rewrite (Hsil w'); reflexivity]
  end.
  unfold arm_step. frame.
Qed.
End ArmRun.

(** * The claims *)

(** ** Effects of a call: generator and standard output *)

Section EffectClaims.
Context {A : Arith} {G : Generator} {R : Trig A}.

(** After the seeding, no simulator reads anything of the world but the
    generator. *)
Lemma generate_data_seeded x1range x2range numICs mu lam T dt seed w1 w2 :
  fst (generate_data x1range x2range numICs mu lam T dt seed w1)
  = fst (generate_data x1range x2range numICs mu lam T dt seed w2) /\
  (seed_ok seed = true ->
   rng (snd (generate_data x1range x2range numICs mu lam T dt seed w1))
   = rng (snd (generate_data x1range x2range numICs mu lam T dt seed w2))).
Proof.
  unfold generate_data. rewrite !manual_seed_bind.
  destruct (seed_ok seed); [|split; [reflexivity | discriminate]].
  match goal with
  | |- fst (?m ?a) = fst (?m ?b) /\ _ =>
      assert (Hob : oblivious m); [|destruct (Hob a b eq_refl); split; auto]
  end.
  unfold euler_step. frame.
Qed.

Lemma generate_data_unforced_seeded x1range x2range numICs mu lam T dt seed w1 w2 :
  fst (generate_data_unforced x1range x2range numICs mu lam T dt seed w1)
  = fst (generate_data_unforced x1range x2range numICs mu lam T dt seed w2) /\
  (seed_ok seed = true ->
   rng (snd (generate_data_unforced x1range x2range numICs mu lam T dt seed w1))
   = rng (snd (generate_data_unforced x1range x2range numICs mu lam T dt seed w2))).
Proof.
  unfold generate_data_unforced. rewrite !manual_seed_bind.
  destruct (seed_ok seed); [|split; [reflexivity | discriminate]].
  match goal with
  | |- fst (?m ?a) = fst (?m ?b) /\ _ =>
      assert (Hob : oblivious m); [|destruct (Hob a b eq_refl); split; auto]
  end.
  unfold euler_step. frame.
Qed.

Lemma generate_two_link_data_seeded q1r q2r dq1r dq2r numICs T dt seed
    tau_max m1 m2 l1 l2 g w1 w2 :
  fst (generate_two_link_data q1r q2r dq1r dq2r numICs T dt seed tau_max m1 m2 l1 l2 g w1)
  = fst (generate_two_link_data q1r q2r dq1r dq2r numICs T dt seed tau_max m1 m2 l1 l2 g w2)
  /\
  (seed_ok seed = true ->
   rng (snd (generate_two_link_data q1r q2r dq1r dq2r numICs T dt seed
               tau_max m1 m2 l1 l2 g w1))
   = rng (snd (generate_two_link_data q1r q2r dq1r dq2r numICs T dt seed
                 tau_max m1 m2 l1 l2 g w2))).
Proof.
  unfold generate_two_link_data. rewrite !manual_seed_bind.
  destruct (seed_ok seed); [|split; [reflexivity | discriminate]].
  match goal with
  | |- fst (?m ?a) = fst (?m ?b) /\ _ =>
      assert (Hob : oblivious m); [|destruct (Hob a b eq_refl); split; auto]
  end.
  unfold arm_step. frame.
Qed.

(** C5 (determinism).  For each of [generate_data],
    [generate_data_unforced] and [generate_two_link_data], two calls with
    the same arguments and the same seed return the same buffer (or raise
    the same exception), whatever the state of the global generator and of
    standard output before each call: the seeding at the start of the call
    overwrites the generator.  Equality of results is equality of every
    element. *)
Theorem C5_same_seed_same_buffer :
  (forall x1range x2range numICs mu lam T dt seed w1 w2,
      fst (generate_data x1range x2range numICs mu lam T dt seed w1)
      = fst (generate_data x1range x2range numICs mu lam T dt seed w2)) /\
  (forall x1range x2range numICs mu lam T dt seed w1 w2,
      fst (generate_data_unforced x1range x2range numICs mu lam T dt seed w1)
      = fst (generate_data_unforced x1range x2range numICs mu lam T dt seed w2)) /\
  (forall q1r q2r dq1r dq2r numICs T dt seed tau_max m1 m2 l1 l2 g w1 w2,
      fst (generate_two_link_data q1r q2r dq1r dq2r numICs T dt seed
             tau_max m1 m2 l1 l2 g w1)
      = fst (generate_two_link_data q1r q2r dq1r dq2r numICs T dt seed
               tau_max m1 m2 l1 l2 g w2)).
Proof.
  repeat split; intros.
  - apply generate_data_seeded.
  - apply generate_data_unforced_seeded.
  - apply generate_two_link_data_seeded.
Qed.

(** C3, amended (effects).  [generate_data] and [generate_data_unforced]
    write nothing to standard output; [generate_two_link_data] appends
    exactly one line, ["Computed Inertia: I1 = ..., I2 = ..."] with the two
    moments of inertia [m * (l / 2) ** 2] to four decimals, on every call
    that gets as far as line 67: the seed is accepted and neither
    [(l1 / 2) ** 2] nor [(l2 / 2) ** 2] raises.  A call whose seed is
    refused, or whose squares overflow, prints nothing.  The only other
    effect of the three is on the global generator, which an accepted seed
    resets: its state after the call does not depend on the world before
    the call. *)
Theorem C3_effects_of_a_call :
  (forall x1range x2range numICs mu lam T dt seed w,
      stdout (snd (generate_data x1range x2range numICs mu lam T dt seed w)) = stdout w) /\
  (forall x1range x2range numICs mu lam T dt seed w,
      stdout (snd (generate_data_unforced x1range x2range numICs mu lam T dt seed w))
      = stdout w) /\
  (forall q1r q2r dq1r dq2r numICs T dt seed tau_max m1 m2 l1 l2 g w,
      stdout (snd (generate_two_link_data q1r q2r dq1r dq2r numICs T dt seed
                     tau_max m1 m2 l1 l2 g w))
      = if seed_ok seed
        then match py_sq (py_div l1 (py_lit 2 0)), py_sq (py_div l2 (py_lit 2 0)) with
             | Ok lc1_sq, Ok lc2_sq =>
                 stdout w ++ [inertia_line (py_mul m1 lc1_sq) (py_mul m2 lc2_sq)]
             | _, _ => stdout w
             end
        else stdout w) /\
  (forall x1range x2range numICs mu lam T dt seed w1 w2,
      seed_ok seed = true ->
      rng (snd (generate_data x1range x2range numICs mu lam T dt seed w1))
      = rng (snd (generate_data x1range x2range numICs mu lam T dt seed w2))) /\
  (forall x1range x2range numICs mu lam T dt seed w1 w2,
      seed_ok seed = true ->
      rng (snd (generate_data_unforced x1range x2range numICs mu lam T dt seed w1))
      = rng (snd (generate_data_unforced x1range x2range numICs mu lam T dt seed w2))) /\
  (forall q1r q2r dq1r dq2r numICs T dt seed tau_max m1 m2 l1 l2 g w1 w2,
      seed_ok seed = true ->
      rng (snd (generate_two_link_data q1r q2r dq1r dq2r numICs T dt seed
                  tau_max m1 m2 l1 l2 g w1))
      = rng (snd (generate_two_link_data q1r q2r dq1r dq2r numICs T dt seed
                    tau_max m1 m2 l1 l2 g w2))).
Proof.
  repeat split; intros.
  - apply silent_generate_data.
  - apply silent_generate_data_unforced.
  - apply (generate_two_link_data_stdout q1r q2r dq1r dq2r dt seed tau_max m1 m2 l1 l2 g).
  - now apply generate_data_seeded.
  - now apply generate_data_unforced_seeded.
  - now apply generate_two_link_data_seeded.
Qed.
End EffectClaims.

(** ** Facts of the IEEE instance *)

Module IEEEFacts.
Import IEEE.

Lemma digits2_pos_iter_xO p k :
  digits2_pos (Pos.iter xO p k) = (digits2_pos p + k)%positive.
Proof.
  induction k as [|k IH] using Pos.peano_ind.
  - simpl. now rewrite Pos.add_1_r.
  - rewrite Pos.iter_succ. simpl. rewrite IH. now rewrite Pos.add_succ_r.
Qed.

Lemma digits2_pos_bound p : forall n, Z.pos p < 2 ^ n -> 0 <= n -> Z.pos (digits2_pos p) <= n.
Proof.
  induction p as [p IH|p IH|]; intros n Hp Hn.
  - assert (n <> 0) by (intros ->; simpl in Hp; lia).
    assert (Z.pos p < 2 ^ (n - 1)).
    { replace n with (Z.succ (n - 1)) in Hp by lia.
      rewrite Z.pow_succ_r in Hp by lia. lia. }
    specialize (IH (n - 1)). simpl. lia.
  - assert (n <> 0) by (intros ->; simpl in Hp; lia).
    assert (Z.pos p < 2 ^ (n - 1)).
    { replace n with (Z.succ (n - 1)) in Hp by lia.
      rewrite Z.pow_succ_r in Hp by lia. lia. }
    specialize (IH (n - 1)). simpl. lia.
  - assert (n <> 0) by (intros ->; simpl in Hp; lia). simpl. lia.
Qed.

(** A 24-digit mantissa with an exponent in range is already a binary32
    number: rounding leaves it alone. *)
Lemma binary_round_aux_exact s mz ez :
  Z.pos (digits2_pos mz) = 24 -> -149 <= ez <= 104 ->
  binary_round_aux 24 128 s (Z.pos mz) ez loc_Exact = S754_finite s mz ez.
Proof.
  intros Hd He. unfold binary_round_aux, shr_fexp, fexp, emin. cbn [Zdigits2].
  rewrite Hd. replace (Z.max (24 + ez - 24) (3 - 128 - 24)) with ez by lia.
  rewrite Z.sub_diag. cbn [shr shr_record_of_loc shr_m loc_of_shr_record round_nearest_even].
  cbn [Zdigits2]. rewrite Hd.
  replace (Z.max (24 + ez - 24) (3 - 128 - 24)) with ez by lia.
  rewrite Z.sub_diag. cbn [shr shr_record_of_loc shr_m].
  destruct (Z.leb_spec ez (128 - 24)); [reflexivity | lia].
Qed.

(** A uniform draw is [+0] or a positive finite binary32 number. *)
Lemma uniform_cases v :
  uniform v = S754_zero false \/ exists m e, uniform v = S754_finite false m e.
Proof.
  unfold uniform, binary_normalize.
  assert (Hk : 0 <= Z.land v (2 ^ 24 - 1) < 2 ^ 24).
  { change (2 ^ 24 - 1) with (Z.ones 24). rewrite Z.land_ones by lia.
    apply Z.mod_pos_bound. lia. }
  destruct (Z.land v (2 ^ 24 - 1)) as [|p|p]; [now left | right | lia].
  unfold binary_round, fexp, emin.
  pose proof (digits2_pos_bound p 24 (proj2 Hk) ltac:(lia)) as Hd.
  assert (0 < Z.pos (digits2_pos p)) by lia.
  replace (Z.max (Z.pos (digits2_pos p) + -24 - 24) (3 - 128 - 24))
    with (Z.pos (digits2_pos p) - 48) by lia.
  unfold shl_align.
  destruct (Z.pos (digits2_pos p) - 48 - -24) as [|q|q] eqn:Eq; [|lia|].
  - exists p, (-24). apply binary_round_aux_exact; lia.
  - exists (Pos.iter xO p q), (Z.pos (digits2_pos p) - 48).
    apply binary_round_aux_exact; [|lia].
    rewrite digits2_pos_iter_xO. lia.
Qed.

Lemma unforced_uniform v : unforced (uniform_real v) = S754_zero false.
Proof.
  unfold unforced. cbn [uniform_real cast py_lit elt_mul arith].
  change (to_b32 (lit 0 0)) with (S754_zero false).
  destruct (uniform_cases v) as [->|(m & e & ->)]; reflexivity.
Qed.
End IEEEFacts.

(** ** Floating-point numbers in order

    SpecFloat defines the operations; what follows relates them to the
    values of the numbers, as far as the order of results is concerned. *)

(** Neither infinite nor NaN. *)
Definition finite_float (x : spec_float) : bool :=
  match x with
  | S754_zero _ | S754_finite _ _ _ => true
  | S754_infinity _ | S754_nan => false
  end.

(** ** Rounding to nearest, ties to even *)

Module Nearest.

Lemma rne_div_exact q d : 0 < d -> rne_div (q * d) d = q.
Proof.
  intros Hd. unfold rne_div. rewrite Z.div_mul, Z.mod_mul by lia.
  destruct (Z.compare_spec (2 * 0) d); [lia | reflexivity | lia].
Qed.

Lemma rne_div_floor n d : 0 < d -> n / d <= rne_div n d <= n / d + 1.
Proof.
  intros Hd. unfold rne_div.
  destruct (2 * (n mod d) ?= d); [destruct (Z.even _)| |]; lia.
Qed.

Lemma rne_div_mono n1 n2 d : 0 < d -> n1 <= n2 -> rne_div n1 d <= rne_div n2 d.
Proof.
  intros Hd Hn.
  pose proof (Z.div_le_mono n1 n2 d Hd Hn) as Hq.
  destruct (Z.eq_dec (n1 / d) (n2 / d)) as [E|E].
  - unfold rne_div. rewrite <- E.
    pose proof (Z.div_mod n1 d ltac:(lia)) as D1.
    pose proof (Z.div_mod n2 d ltac:(lia)) as D2.
    rewrite <- E in D2.
    assert (Hr : n1 mod d <= n2 mod d) by lia.
    destruct (Z.compare_spec (2 * (n1 mod d)) d), (Z.compare_spec (2 * (n2 mod d)) d);
      try destruct (Z.even (n1 / d)); lia.
  - pose proof (rne_div_floor n1 d Hd). pose proof (rne_div_floor n2 d Hd). lia.
Qed.

Lemma rne_div_scale n d c : 0 < d -> 0 < c -> rne_div (n * c) (d * c) = rne_div n d.
Proof.
  intros Hd Hc. unfold rne_div.
  rewrite Z.div_mul_cancel_r, Z.mul_mod_distr_r by lia.
  replace (2 * (n mod d * c) ?= d * c) with (2 * (n mod d) ?= d); [reflexivity|].
  destruct (Z.compare_spec (2 * (n mod d)) d), (Z.compare_spec (2 * (n mod d * c)) (d * c));
    try reflexivity; nia.
Qed.

Lemma rne_div_nonneg n d : 0 < d -> 0 <= n -> 0 <= rne_div n d.
Proof.
  intros Hd Hn. pose proof (rne_div_floor n d Hd).
  pose proof (Z.div_pos n d Hn Hd). lia.
Qed.

Lemma rne_div_below n d t : 0 < d -> n <= t * d -> rne_div n d <= t.
Proof.
  intros Hd H. rewrite <- (rne_div_exact t d Hd). now apply rne_div_mono.
Qed.

Lemma rne_div_above n d t : 0 < d -> t * d <= n -> t <= rne_div n d.
Proof.
  intros Hd H. rewrite <- (rne_div_exact t d Hd). now apply rne_div_mono.
Qed.

End Nearest.

(** *** Digits and shifts *)

Module Digits.

Lemma pos_iter_xO p q : Z.pos (Pos.iter xO p q) = Z.pos p * 2 ^ Z.pos q.
Proof.
  induction q as [|q IH] using Pos.peano_ind.
  - simpl. lia.
  - rewrite Pos.iter_succ, Pos2Z.inj_xO, IH, Pos2Z.inj_succ, Z.pow_succ_r by lia. lia.
Qed.

Lemma digits2_pos_range p :
  2 ^ (Z.pos (digits2_pos p) - 1) <= Z.pos p < 2 ^ Z.pos (digits2_pos p).
Proof.
  induction p as [p IH|p IH|]; simpl digits2_pos.
  - rewrite Pos2Z.inj_succ.
    replace (Z.succ (Z.pos (digits2_pos p)) - 1) with (Z.succ (Z.pos (digits2_pos p) - 1))
      by lia.
    rewrite !Z.pow_succ_r by lia. lia.
  - rewrite Pos2Z.inj_succ.
    replace (Z.succ (Z.pos (digits2_pos p)) - 1) with (Z.succ (Z.pos (digits2_pos p) - 1))
      by lia.
    rewrite !Z.pow_succ_r by lia. lia.
  - simpl. lia.
Qed.

(** The number of binary digits is the logarithm plus one. *)
Lemma digits2_pos_log2 p : Z.pos (digits2_pos p) = Z.log2 (Z.pos p) + 1.
Proof.
  pose proof (digits2_pos_range p) as H.
  rewrite (Z.log2_unique (Z.pos p) (Z.pos (digits2_pos p) - 1)); [lia | lia |].
  replace (Z.succ (Z.pos (digits2_pos p) - 1)) with (Z.pos (digits2_pos p)) by lia.
  exact H.
Qed.

Lemma log2_scaled m k : 0 < m -> 0 <= k -> Z.log2 (m * 2 ^ k) = Z.log2 m + k.
Proof. intros Hm Hk. rewrite Z.log2_mul_pow2 by lia. lia. Qed.

Lemma pow2_half n : 0 < n -> 2 ^ n = 2 ^ (n - 1) * 2.
Proof.
  intros Hn. replace n with (Z.succ (n - 1)) at 1 by lia.
  rewrite Z.pow_succ_r by lia. lia.
Qed.

Lemma iter_pos_swap {X} (f : X -> X) p x :
  SpecFloat.iter_pos f p (f x) = f (SpecFloat.iter_pos f p x).
Proof.
  revert x. induction p as [p IH|p IH|]; intros x; simpl; [|now rewrite !IH|reflexivity].
  now rewrite !IH.
Qed.

Lemma iter_pos_iter {X} (f : X -> X) p x : SpecFloat.iter_pos f p x = Pos.iter f x p.
Proof.
  revert x. induction p as [p IH|p IH|]; intros x; simpl; [|now rewrite !IH|reflexivity].
  now rewrite iter_pos_swap, iter_pos_swap, !IH.
Qed.

(** One step of the right shift: the mantissa is halved, the digit shifted
    out becomes the round bit, and the old round bit joins the sticky
    bit. *)
Lemma shr_1_spec m r s :
  0 <= m -> shr_1 {| shr_m := m; shr_r := r; shr_s := s |}
            = {| shr_m := m / 2; shr_r := Z.odd m; shr_s := r || s |}.
Proof.
  intros Hm. rewrite <- Z.div2_div.
  destruct m as [|[p|p|]|p]; try reflexivity; lia.
Qed.

(** [n] steps: the quotient by [2^n], with the round bit set when the
    remainder reaches half of [2^n] and the sticky bit when digits below
    the round bit are set. *)
Lemma shr_spec m n :
  0 <= m ->
  let mrs := SpecFloat.iter_pos shr_1 n {| shr_m := m; shr_r := false; shr_s := false |} in
  shr_m mrs = m / 2 ^ Z.pos n /\
  shr_r mrs = (2 ^ (Z.pos n - 1) <=? m mod 2 ^ Z.pos n) /\
  shr_s mrs = negb (m mod 2 ^ (Z.pos n - 1) =? 0).
Proof.
  intros Hm. cbv zeta. rewrite iter_pos_iter.
  induction n as [|n IH] using Pos.peano_ind.
  - cbn [Pos.iter]. rewrite shr_1_spec by exact Hm. cbn [shr_m shr_r shr_s].
    change (Z.pos 1 - 1) with 0. change (2 ^ 0) with 1. change (2 ^ Z.pos 1) with 2.
    rewrite Z.mod_1_r. split; [reflexivity|]. split; [|reflexivity].
    rewrite Zodd_mod. destruct (Z.eqb_spec (m mod 2) 1), (Z.leb_spec 1 (m mod 2));
      try reflexivity; pose proof (Z.mod_pos_bound m 2); lia.
  - rewrite Pos.iter_succ.
    destruct (Pos.iter shr_1 _ n) as [q r s]. cbn [shr_m shr_r shr_s] in IH.
    destruct IH as (-> & -> & ->).
    assert (Hq : 0 <= m / 2 ^ Z.pos n) by (apply Z.div_pos; lia).
    rewrite shr_1_spec by exact Hq. cbn [shr_m shr_r shr_s].
    rewrite Pos2Z.inj_succ.
    replace (Z.succ (Z.pos n) - 1) with (Z.pos n) by lia.
    set (a := 2 ^ Z.pos n).
    assert (Ha : 0 < a) by (apply Z.pow_pos_nonneg; lia).
    assert (Ea : 2 ^ Z.succ (Z.pos n) = a * 2) by (rewrite Z.pow_succ_r by lia; lia).
    rewrite Ea.
    pose proof (Z.mod_pos_bound m a Ha) as Hr.
    pose proof (Z.mod_pos_bound (m / a) 2 ltac:(lia)) as Hb.
    assert (Em : m mod (a * 2) = m mod a + a * ((m / a) mod 2)) by (apply Z.rem_mul_r; lia).
    split; [now rewrite Z.div_div by lia|]. split.
    + rewrite Em, Zodd_mod.
      assert (Hb01 : (m / a) mod 2 = 0 \/ (m / a) mod 2 = 1) by lia.
      destruct Hb01 as [->| ->]; rewrite ?Z.mul_0_r, ?Z.mul_1_r;
        destruct (Z.leb_spec a (m mod a + 0)), (Z.leb_spec a (m mod a + a));
        try reflexivity; lia.
    + set (h := 2 ^ (Z.pos n - 1)).
      assert (Hh : 0 < h) by (apply Z.pow_pos_nonneg; lia).
      assert (Eh : a = h * 2).
      { unfold a, h. apply pow2_half. lia. }
      pose proof (Z.mod_pos_bound m h Hh) as Hl.
      assert (El : m mod a = m mod h + h * ((m / h) mod 2)).
      { rewrite Eh. apply Z.rem_mul_r; lia. }
      pose proof (Z.mod_pos_bound (m / h) 2 ltac:(lia)) as Hb'.
      assert (Hb01 : (m / h) mod 2 = 0 \/ (m / h) mod 2 = 1) by lia.
      destruct Hb01 as [E|E]; rewrite E, ?Z.mul_0_r, ?Z.mul_1_r in El;
        destruct (Z.leb_spec h (m mod a)), (Z.eqb_spec (m mod h) 0), (Z.eqb_spec (m mod a) 0);
        try reflexivity; simpl; lia.
Qed.

(** Shifting right by [n] digits and rounding to nearest even is the
    rounded quotient by [2^n]. *)
Lemma shr_round m n :
  0 <= m ->
  let mrs := SpecFloat.iter_pos shr_1 n {| shr_m := m; shr_r := false; shr_s := false |} in
  round_nearest_even (shr_m mrs) (loc_of_shr_record mrs) = rne_div m (2 ^ Z.pos n).
Proof.
  intros Hm. cbv zeta. destruct (shr_spec m n Hm) as (Eq & Er & Es).
  destruct (SpecFloat.iter_pos shr_1 n _) as [q r s]. cbn [shr_m shr_r shr_s] in *.
  subst q r s. unfold rne_div.
  set (a := 2 ^ Z.pos n). set (h := 2 ^ (Z.pos n - 1)).
  assert (Hh : 0 < h) by (apply Z.pow_pos_nonneg; lia).
  assert (Eh : a = h * 2).
  { unfold a, h. apply pow2_half. lia. }
  pose proof (Z.mod_pos_bound m h Hh) as Hl.
  assert (El : m mod a = m mod h + h * ((m / h) mod 2)).
  { rewrite Eh. apply Z.rem_mul_r; lia. }
  pose proof (Z.mod_pos_bound (m / h) 2 ltac:(lia)) as Hb.
  assert (Hb01 : (m / h) mod 2 = 0 \/ (m / h) mod 2 = 1) by lia.
  destruct Hb01 as [E|E]; rewrite E, ?Z.mul_0_r, ?Z.mul_1_r in El;
    destruct (Z.leb_spec h (m mod a)), (Z.eqb_spec (m mod h) 0),
      (Z.compare_spec (2 * (m mod a)) a); cbn [negb loc_of_shr_record round_nearest_even];
    try reflexivity; lia.
Qed.

End Digits.

(** *** Rounding in a format *)

Module Rounding.
Import Nearest Digits.

Section Format.
Variables prec emax : Z.
Hypothesis prec_pos : 0 < prec.
Hypothesis prec_lt_emax : prec < emax.

(** Values are counted in units of [2^-K], for a [K] that makes every
    number of the format, and every operand at hand, an integer. *)
Variable K : Z.
Hypothesis K_ok : - K <= SpecFloat.emin prec emax.

Local Abbreviation emin := (SpecFloat.emin prec emax).
Local Abbreviation fexp := (SpecFloat.fexp prec emax).

(** The exponent of the grid the format has around [N > 0], and [N]
    rounded to that grid. *)
Definition gexp (N : Z) : Z := Z.max (Z.log2 N + 1 - prec) (emin + K).
Definition rnd (N : Z) : Z := rne_div N (2 ^ gexp N) * 2 ^ gexp N.

(** [M * 2^g] as the format writes it: at most [prec] digits, and exactly
    [prec] above the smallest exponent. *)
Definition canon (M g : Z) : Prop :=
  0 < M < 2 ^ prec /\ emin + K <= g /\ (emin + K < g -> 2 ^ (prec - 1) <= M).

Lemma gexp_nonneg N : 0 <= gexp N.
Proof. unfold gexp. lia. Qed.

Lemma gexp_mono N1 N2 : N1 <= N2 -> gexp N1 <= gexp N2.
Proof. intros H. unfold gexp. pose proof (Z.log2_le_mono N1 N2 H). lia. Qed.

Lemma pow2_pos n : 0 <= n -> 0 < 2 ^ n.
Proof. intros H. apply Z.pow_pos_nonneg; lia. Qed.

Lemma fexp_gexp m e :
  0 <= e + K -> fexp (Z.pos (digits2_pos m) + e) + K = gexp (Z.pos m * 2 ^ (e + K)).
Proof.
  intros He. unfold gexp, SpecFloat.fexp.
  rewrite log2_scaled, digits2_pos_log2 by lia. lia.
Qed.

Lemma log2_below M d : 0 < M < 2 ^ d -> Z.log2 M < d.
Proof.
  intros [H0 H1]. destruct (Z.lt_ge_cases (Z.log2 M) d) as [|Hge]; [assumption|].
  pose proof (Z.log2_spec M H0) as [Hlo _].
  assert (0 <= d) by (destruct (Z.lt_ge_cases d 0) as [Hn|]; [|assumption];
                      rewrite (Z.pow_neg_r 2 d Hn) in H1; lia).
  pose proof (Z.pow_le_mono_r 2 d (Z.log2 M) ltac:(lia) Hge). lia.
Qed.

Lemma log2_above M d : 0 <= d -> 2 ^ d <= M -> d <= Z.log2 M.
Proof.
  intros Hd H. assert (0 < M) by (pose proof (pow2_pos d Hd); lia).
  pose proof (Z.log2_le_mono _ _ H) as L. now rewrite Z.log2_pow2 in L by lia.
Qed.

Lemma canon_gexp M g : canon M g -> gexp (M * 2 ^ g) = g.
Proof.
  intros ([H0 H1] & Hg & Hn). unfold gexp.
  assert (0 <= g) by lia. rewrite log2_scaled by lia.
  pose proof (log2_below M prec (conj H0 H1)).
  destruct (Z.eq_dec g (emin + K)) as [E|E]; [lia|].
  pose proof (log2_above M (prec - 1) ltac:(lia) (Hn ltac:(lia))). lia.
Qed.

Lemma canon_rnd M g : canon M g -> rnd (M * 2 ^ g) = M * 2 ^ g.
Proof.
  intros H. unfold rnd. rewrite (canon_gexp M g H).
  destruct H as (_ & Hg & _).
  now rewrite rne_div_exact by (apply pow2_pos; lia).
Qed.

(** The rounded mantissa on the grid of [N]. *)
Lemma rnd_mantissa N :
  0 < N ->
  0 <= rne_div N (2 ^ gexp N) <= 2 ^ prec /\
  (emin + K < gexp N -> 2 ^ (prec - 1) <= rne_div N (2 ^ gexp N)).
Proof.
  intros HN. pose proof (gexp_nonneg N) as Hg.
  pose proof (pow2_pos (gexp N) Hg) as Hp.
  pose proof (Z.log2_spec N HN) as [Llo Lhi].
  pose proof (Z.log2_nonneg N) as Hl.
  split; [split|].
  - apply rne_div_nonneg; lia.
  - apply rne_div_below; [exact Hp|].
    rewrite <- Z.pow_add_r by lia.
    assert (2 ^ Z.succ (Z.log2 N) <= 2 ^ (prec + gexp N))
      by (apply Z.pow_le_mono_r; unfold gexp; lia).
    lia.
  - intros Hgt. apply rne_div_above; [exact Hp|].
    rewrite <- Z.pow_add_r by lia.
    replace (prec - 1 + gexp N) with (Z.log2 N) by (unfold gexp in *; lia).
    exact Llo.
Qed.

(** A rounded value is zero or a number of the format. *)
Lemma rnd_canon N :
  0 < N -> rnd N = 0 \/ exists M g, canon M g /\ rnd N = M * 2 ^ g /\ gexp N <= g.
Proof.
  intros HN. destruct (rnd_mantissa N HN) as [[H0 H1] Hn].
  pose proof (gexp_nonneg N) as Hg. unfold rnd.
  set (M := rne_div N (2 ^ gexp N)) in *.
  destruct (Z.eq_dec M 0) as [E0|E0]; [left; rewrite E0; lia|].
  right. destruct (Z.eq_dec M (2 ^ prec)) as [E|E].
  - exists (2 ^ (prec - 1)), (gexp N + 1). split; [|split; [|lia]].
    + pose proof (pow2_pos (prec - 1) ltac:(lia)).
      unfold canon. rewrite (pow2_half prec) by lia.
      split; [lia|]. split; [unfold gexp; lia | lia].
    + rewrite E, (pow2_half prec), Z.pow_add_r by lia. change (2 ^ 1) with 2. lia.
  - exists M, (gexp N). split; [|split; [reflexivity | lia]].
    unfold canon. split; [lia|]. split; [unfold gexp; lia | exact Hn].
Qed.

Lemma rnd_nonneg N : 0 < N -> 0 <= rnd N.
Proof.
  intros HN. destruct (rnd_mantissa N HN) as [[H0 _] _].
  pose proof (pow2_pos (gexp N) (gexp_nonneg N)). unfold rnd. nia.
Qed.

(** Rounding is monotone. *)
Lemma rnd_mono N1 N2 : 0 < N1 -> N1 <= N2 -> rnd N1 <= rnd N2.
Proof.
  intros H1 H12. assert (H2 : 0 < N2) by lia.
  pose proof (gexp_mono N1 N2 H12) as Hg.
  pose proof (gexp_nonneg N1) as Hg1.
  pose proof (pow2_pos (gexp N1) Hg1) as Hp1.
  pose proof (pow2_pos (gexp N2) (gexp_nonneg N2)) as Hp2.
  unfold rnd. destruct (Z.eq_dec (gexp N1) (gexp N2)) as [E|E].
  - rewrite <- E. apply Z.mul_le_mono_nonneg_r; [lia|].
    now apply rne_div_mono.
  - destruct (rnd_mantissa N1 H1) as [[_ U1] _].
    destruct (rnd_mantissa N2 H2) as [_ L2].
    specialize (L2 ltac:(unfold gexp in *; lia)).
    assert (Hpow : 2 ^ prec * 2 ^ gexp N1 <= 2 ^ (prec - 1) * 2 ^ gexp N2).
    { rewrite <- !Z.pow_add_r by lia. apply Z.pow_le_mono_r; lia. }
    pose proof (pow2_pos (prec - 1) ltac:(lia)).
    nia.
Qed.

(** ** From rounded values to floating-point numbers *)

Definition pack (s : bool) (R : Z) : spec_float :=
  match R / 2 ^ gexp R with
  | Z.pos m =>
      if gexp R - K <=? emax - prec then S754_finite s m (gexp R - K) else S754_infinity s
  | _ => S754_zero s
  end.

Lemma pack_0 s : pack s 0 = S754_zero s.
Proof. reflexivity. Qed.

Lemma pack_canon s M g :
  canon M g ->
  pack s (M * 2 ^ g)
  = if g - K <=? emax - prec then S754_finite s (Z.to_pos M) (g - K) else S754_infinity s.
Proof.
  intros H. unfold pack. rewrite (canon_gexp M g H).
  destruct H as ([H0 _] & Hg & _).
  rewrite Z.div_mul by (pose proof (pow2_pos g ltac:(lia)); lia).
  destruct M as [|p|p]; [lia | reflexivity | lia].
Qed.

Lemma finish s Mz e :
  0 < Mz ->
  match Mz with
  | 0 => S754_zero s
  | Z.pos m => if e <=? emax - prec then S754_finite s m e else S754_infinity s
  | Z.neg _ => S754_nan
  end
  = if e <=? emax - prec then S754_finite s (Z.to_pos Mz) e else S754_infinity s.
Proof. destruct Mz; [lia | reflexivity | lia]. Qed.

(** Rounding a mantissa that is not above its grid. *)
Lemma binary_round_aux_pack s m e :
  0 <= e + K -> e + K <= gexp (Z.pos m * 2 ^ (e + K)) ->
  binary_round_aux prec emax s (Z.pos m) e loc_Exact = pack s (rnd (Z.pos m * 2 ^ (e + K))).
Proof.
  intros He Hle. set (N := Z.pos m * 2 ^ (e + K)) in *. set (g := gexp N) in *.
  pose proof (pow2_pos (e + K) He) as Hc.
  assert (HN : 0 < N) by (unfold N; lia).
  assert (Hf : fexp (Z.pos (digits2_pos m) + e) = g - K).
  { pose proof (fexp_gexp m e He). fold N g in H. lia. }
  unfold binary_round_aux, shr_fexp. cbn [Zdigits2]. rewrite Hf.
  destruct (g - K - e) as [|n|n] eqn:En; [| |lia].
  - (* the mantissa is on the grid *)
    cbn [shr shr_record_of_loc shr_m loc_of_shr_record round_nearest_even Zdigits2].
    rewrite Hf, En. cbn [shr shr_record_of_loc shr_m].
    assert (Eg : g = e + K) by lia.
    assert (Hcan : rnd N = N).
    { unfold rnd. fold g. unfold N. rewrite Eg. now rewrite rne_div_exact. }
    rewrite Hcan. unfold pack. fold g. unfold N at 1. rewrite Eg, Z.div_mul by lia.
    replace (e + K - K) with e by lia. reflexivity.
  - (* [n] digits are shifted out *)
    cbn [shr shr_record_of_loc].
    pose proof (shr_round (Z.pos m) n ltac:(lia)) as Hr. cbv zeta in Hr.
    destruct (SpecFloat.iter_pos shr_1 n _) as [q r t] eqn:Eit.
    rewrite Hr. clear Hr Eit q r t.
    assert (Eg : g = Z.pos n + (e + K)) by lia.
    assert (EM : rne_div N (2 ^ g) = rne_div (Z.pos m) (2 ^ Z.pos n)).
    { unfold N. rewrite Eg, (Z.pow_add_r 2 (Z.pos n) (e + K)) by lia.
      apply rne_div_scale; lia. }
    destruct (rnd_mantissa N HN) as [[M0 M1] Mn]. fold g in M0, M1, Mn.
    assert (ER : rnd N = rne_div N (2 ^ g) * 2 ^ g) by reflexivity.
    rewrite EM in M0, M1, Mn, ER.
    set (M := rne_div (Z.pos m) (2 ^ Z.pos n)) in *.
    replace (e + Z.pos n) with (g - K) by lia.
    assert (Hgk : emin + K <= g) by (unfold g, gexp; lia).
    destruct (Z.eq_dec M 0) as [E0|E0].
    { rewrite ER, E0. cbn [Zdigits2 Z.add Z.mul]. rewrite pack_0.
      unfold shr, SpecFloat.fexp. rewrite Z.add_0_l.
      destruct (Z.max (g - K - prec) emin - (g - K)) eqn:Ed; try reflexivity; lia. }
    destruct (Z.eq_dec M (2 ^ prec)) as [E|E].
    + (* the mantissa was rounded up to [2^prec] *)
      assert (Hcan : canon (2 ^ (prec - 1)) (g + 1)).
      { pose proof (pow2_pos (prec - 1) ltac:(lia)).
        unfold canon. rewrite (pow2_half prec) by lia. repeat split; lia. }
      assert (ER' : rnd N = 2 ^ (prec - 1) * 2 ^ (g + 1)).
      { rewrite ER, E, (pow2_half prec), Z.pow_add_r by lia. change (2 ^ 1) with 2. lia. }
      rewrite ER', (pack_canon s _ _ Hcan).
      destruct M as [|p|p] eqn:EMp; [lia | | lia]. cbn [Zdigits2].
      assert (Hf2 : fexp (Z.pos (digits2_pos p) + (g - K)) = g + 1 - K).
      { pose proof (fexp_gexp p (g - K) ltac:(lia)) as F.
        replace (g - K + K) with g in F by lia.
        rewrite E, (pow2_half prec), <- Z.mul_assoc in F by lia.
        replace (2 * 2 ^ g) with (2 ^ (g + 1)) in F
          by (rewrite Z.pow_add_r by lia; change (2 ^ 1) with 2; lia).
        rewrite (canon_gexp _ _ Hcan) in F. lia. }
      rewrite Hf2. replace (g + 1 - K - (g - K)) with (Z.pos 1) by lia.
      cbn [shr shr_record_of_loc SpecFloat.iter_pos].
      rewrite shr_1_spec by lia. cbn [shr_m]. rewrite E.
      replace (2 ^ prec / 2) with (2 ^ (prec - 1))
        by (rewrite (pow2_half prec), Z.div_mul by lia; reflexivity).
      rewrite finish by (apply pow2_pos; lia).
      replace (g - K + 1) with (g + 1 - K) by lia. reflexivity.
    + (* the mantissa has at most [prec] digits *)
      assert (Hcan : canon M g) by (unfold canon; repeat split; (assumption || lia)).
      rewrite ER, (pack_canon s _ _ Hcan).
      destruct M as [|p|p] eqn:EMp; [lia | | lia]. cbn [Zdigits2].
      assert (Hf2 : fexp (Z.pos (digits2_pos p) + (g - K)) = g - K).
      { pose proof (fexp_gexp p (g - K) ltac:(lia)) as F.
        replace (g - K + K) with g in F by lia.
        rewrite (canon_gexp _ _ Hcan) in F. lia. }
      rewrite Hf2, Z.sub_diag. cbn [shr shr_record_of_loc shr_m]. reflexivity.
Qed.

Lemma fexp_ge_emin x : emin <= fexp x.
Proof. unfold SpecFloat.fexp. lia. Qed.

(** Rounding any mantissa: it is first brought down to its grid. *)
Lemma binary_round_pack s m e :
  0 <= e + K -> binary_round prec emax s m e = pack s (rnd (Z.pos m * 2 ^ (e + K))).
Proof.
  intros He. pose proof (fexp_gexp m e He) as Hf.
  pose proof (fexp_ge_emin (Z.pos (digits2_pos m) + e)) as Hm.
  unfold binary_round, shl_align.
  destruct (fexp (Z.pos (digits2_pos m) + e) - e) as [|d|d] eqn:Ed.
  - apply binary_round_aux_pack; lia.
  - apply binary_round_aux_pack; lia.
  - set (e1 := fexp (Z.pos (digits2_pos m) + e)) in *.
    assert (Ev : Z.pos (Pos.iter xO m d) * 2 ^ (e1 + K) = Z.pos m * 2 ^ (e + K)).
    { rewrite pos_iter_xO, <- Z.mul_assoc, <- Z.pow_add_r by lia. do 2 f_equal. lia. }
    rewrite <- Ev. apply binary_round_aux_pack; [lia|]. rewrite Ev. lia.
Qed.

(** ** The order of floating-point numbers *)

Definition top : Z := 2 ^ (emax + K).

(** The place of a number in the order: its value in units of [2^-K], with
    the infinities just outside the finite numbers. *)
Definition rank (x : spec_float) : Z :=
  match x with
  | S754_zero _ | S754_nan => 0
  | S754_infinity s => cond_Zopp s top
  | S754_finite s m e => cond_Zopp s (Z.pos m * 2 ^ (e + K))
  end.

Definition is_nan (x : spec_float) : bool :=
  match x with
  | S754_nan => true
  | _ => false
  end.

Lemma emin_nonpos : emin <= 0.
Proof. unfold SpecFloat.emin. lia. Qed.

Lemma top_pos : 0 < top.
Proof. apply pow2_pos. pose proof emin_nonpos. unfold SpecFloat.emin in *. lia. Qed.

Lemma valid_canon s m e :
  valid_binary prec emax (S754_finite s m e) = true ->
  canon (Z.pos m) (e + K) /\ e <= emax - prec.
Proof.
  cbn [valid_binary]. unfold bounded, canonical_mantissa. intros H.
  apply andb_prop in H as [Hc He]. apply Z.eqb_eq in Hc. apply Z.leb_le in He.
  split; [|exact He]. pose proof (digits2_pos_range m) as [Dlo Dhi].
  unfold SpecFloat.fexp in Hc. set (d := Z.pos (digits2_pos m)) in *.
  assert (Hd : 0 < d) by (unfold d; lia).
  unfold canon. split; [split; [lia|]|split; [lia|]].
  - assert (2 ^ d <= 2 ^ prec) by (apply Z.pow_le_mono_r; lia). lia.
  - intros Hgt. replace prec with d by lia. exact Dlo.
Qed.

Lemma canon_valid s M g :
  canon M g -> g - K <= emax - prec ->
  valid_binary prec emax (S754_finite s (Z.to_pos M) (g - K)) = true.
Proof.
  intros Hc He. cbn [valid_binary]. unfold bounded, canonical_mantissa.
  apply andb_true_intro. split; [|now apply Z.leb_le].
  apply Z.eqb_eq. pose proof (canon_gexp M g Hc) as Hg.
  destruct Hc as ([H0 _] & Hk & _).
  pose proof (fexp_gexp (Z.to_pos M) (g - K) ltac:(lia)) as F.
  rewrite Z2Pos.id in F by lia. replace (g - K + K) with g in F by lia. lia.
Qed.

Lemma canon_below_top M g : canon M g -> g - K <= emax - prec -> M * 2 ^ g < top.
Proof.
  intros ([H0 H1] & Hg & _) He. unfold top.
  assert (0 <= g) by lia. pose proof (pow2_pos g ltac:(lia)).
  assert (2 ^ prec * 2 ^ g <= 2 ^ (emax + K)).
  { rewrite <- Z.pow_add_r by lia. apply Z.pow_le_mono_r; lia. }
  nia.
Qed.

Lemma canon_above_top M g : canon M g -> emax - prec < g - K -> top <= M * 2 ^ g.
Proof.
  intros ([H0 H1] & Hg & Hn) He. unfold top.
  pose proof emin_nonpos as Hm. unfold SpecFloat.emin in *.
  assert (0 <= g) by lia. pose proof (pow2_pos g ltac:(lia)).
  specialize (Hn ltac:(lia)).
  assert (2 ^ (emax + K) <= 2 ^ (prec - 1) * 2 ^ g).
  { rewrite <- Z.pow_add_r by lia. apply Z.pow_le_mono_r; lia. }
  nia.
Qed.

(** A number with the smaller exponent is the smaller number. *)
Lemma canon_lt M1 g1 M2 g2 : canon M1 g1 -> canon M2 g2 -> g1 < g2 -> M1 * 2 ^ g1 < M2 * 2 ^ g2.
Proof.
  intros ([A0 A1] & Ag & _) ([B0 B1] & Bg & Bn) Hlt.
  specialize (Bn ltac:(lia)).
  assert (0 <= g1) by lia. pose proof (pow2_pos g1 ltac:(lia)).
  pose proof (pow2_pos g2 ltac:(lia)).
  assert (2 ^ prec * 2 ^ g1 <= 2 ^ (prec - 1) * 2 ^ g2).
  { rewrite <- !Z.pow_add_r by lia. apply Z.pow_le_mono_r; lia. }
  nia.
Qed.

Lemma cond_Zopp_0 s : cond_Zopp s 0 = 0.
Proof. now destruct s. Qed.

(** What [pack] makes of a rounded value. *)
Lemma pack_rounded s R :
  R = 0 \/ (exists M g, canon M g /\ R = M * 2 ^ g) ->
  valid_binary prec emax (pack s R) = true /\
  is_nan (pack s R) = false /\
  rank (pack s R) = cond_Zopp s (Z.min R top).
Proof.
  pose proof top_pos as Ht.
  intros [->|(M & g & Hc & ->)].
  - rewrite pack_0. cbn. rewrite Z.min_l by lia. now rewrite cond_Zopp_0.
  - rewrite (pack_canon s M g Hc).
    destruct (Z.leb_spec (g - K) (emax - prec)) as [He|He].
    + split; [now apply canon_valid|]. split; [reflexivity|].
      pose proof (canon_below_top M g Hc He).
      cbn [rank]. destruct Hc as ([H0 _] & _).
      rewrite Z2Pos.id by lia. replace (g - K + K) with g by lia.
      now rewrite Z.min_l by lia.
    + split; [reflexivity|]. split; [reflexivity|].
      pose proof (canon_above_top M g Hc He). cbn [rank].
      now rewrite Z.min_r by lia.
Qed.

Lemma pack_rnd s N :
  0 < N ->
  valid_binary prec emax (pack s (rnd N)) = true /\
  is_nan (pack s (rnd N)) = false /\
  rank (pack s (rnd N)) = cond_Zopp s (Z.min (rnd N) top).
Proof.
  intros HN. apply pack_rounded.
  destruct (rnd_canon N HN) as [E|(M & g & Hc & E & _)]; [now left | right; eauto].
Qed.

(** The rank of a finite number of the format. *)
Lemma rank_finite s m e :
  valid_binary prec emax (S754_finite s m e) = true ->
  0 < Z.pos m * 2 ^ (e + K) < top.
Proof.
  intros Hv. destruct (valid_canon s m e Hv) as [Hc He].
  pose proof (canon_below_top _ _ Hc ltac:(lia)).
  destruct Hc as (_ & Hg & _). pose proof (pow2_pos (e + K) ltac:(lia)). lia.
Qed.

Lemma mul_compare a b c : 0 < c -> (a * c ?= b * c) = (a ?= b).
Proof.
  intros Hc. destruct (Z.compare_spec a b), (Z.compare_spec (a * c) (b * c));
    try reflexivity; nia.
Qed.

(** [SFcompare] compares ranks. *)
Lemma SFcompare_rank x y :
  valid_binary prec emax x = true -> valid_binary prec emax y = true ->
  is_nan x = false -> is_nan y = false ->
  SFcompare x y = Some (rank x ?= rank y).
Proof.
  pose proof top_pos as Ht.
  intros Vx Vy Nx Ny.
  destruct x as [sx|sx| |sx mx ex]; [| |discriminate|];
    destruct y as [sy|sy| |sy my ey]; try discriminate;
    try (pose proof (rank_finite _ _ _ Vx) as Rx);
    try (pose proof (rank_finite _ _ _ Vy) as Ry);
    try (destruct (valid_canon _ _ _ Vx) as [Cx _]);
    try (destruct (valid_canon _ _ _ Vy) as [Cy _]);
    cbn [SFcompare rank]; try destruct sx; try destruct sy; cbn [cond_Zopp];
    try (f_equal; symmetry;
         first [ apply Z.compare_eq_iff; lia
               | apply Z.compare_lt_iff; lia
               | apply Z.compare_gt_iff; lia ]).
  - (* both negative *)
    destruct (Z.compare_spec ex ey) as [E|E|E]; f_equal; symmetry.
    + subst ey. rewrite Z.compare_opp, mul_compare by lia.
      change (Pos.compare_cont Eq mx my) with (Z.pos mx ?= Z.pos my).
      apply Z.compare_antisym.
    + pose proof (canon_lt _ _ _ _ Cx Cy ltac:(lia)). apply Z.compare_gt_iff. lia.
    + pose proof (canon_lt _ _ _ _ Cy Cx ltac:(lia)). apply Z.compare_lt_iff. lia.
  - (* both positive *)
    destruct (Z.compare_spec ex ey) as [E|E|E]; f_equal; symmetry.
    + subst ey. now rewrite mul_compare by lia.
    + pose proof (canon_lt _ _ _ _ Cx Cy ltac:(lia)). apply Z.compare_lt_iff. lia.
    + pose proof (canon_lt _ _ _ _ Cy Cx ltac:(lia)). apply Z.compare_gt_iff. lia.
Qed.

Lemma SFleb_rank x y :
  valid_binary prec emax x = true -> valid_binary prec emax y = true ->
  is_nan x = false -> is_nan y = false ->
  SFleb x y = (rank x <=? rank y).
Proof.
  intros Vx Vy Nx Ny. unfold SFleb. rewrite (SFcompare_rank x y Vx Vy Nx Ny).
  unfold Z.leb. now destruct (rank x ?= rank y).
Qed.

(** ** Rounding signed values *)

Definition rndz (a : Z) : Z :=
  match a with
  | 0 => 0
  | Z.pos _ => rnd a
  | Z.neg _ => - rnd (- a)
  end.

(** Overflow: what lies beyond the largest number becomes an infinity. *)
Definition clamp (R : Z) : Z := Z.max (- top) (Z.min R top).

Lemma rndz_pos a : 0 < a -> rndz a = rnd a.
Proof. destruct a; (reflexivity || lia). Qed.

Lemma rndz_neg a : a < 0 -> rndz a = - rnd (- a).
Proof. destruct a; (reflexivity || lia). Qed.

Lemma rndz_sign a : (0 <= a -> 0 <= rndz a) /\ (a <= 0 -> rndz a <= 0).
Proof.
  destruct a as [|p|p]; cbn [rndz]; split; intros H; try lia.
  - apply rnd_nonneg. lia.
  - pose proof (rnd_nonneg (- Z.neg p) ltac:(lia)). lia.
Qed.

Lemma rndz_mono a b : a <= b -> rndz a <= rndz b.
Proof.
  intros H. destruct (rndz_sign a) as [A0 A1], (rndz_sign b) as [B0 B1].
  destruct (Z.lt_trichotomy a 0) as [Ha|[Ha|Ha]], (Z.lt_trichotomy b 0) as [Hb|[Hb|Hb]];
    try lia.
  - rewrite (rndz_neg a Ha), (rndz_neg b Hb).
    pose proof (rnd_mono (- b) (- a) ltac:(lia) ltac:(lia)). lia.
  - rewrite (rndz_pos a Ha), (rndz_pos b Hb). apply rnd_mono; lia.
Qed.

Lemma clamp_mono a b : a <= b -> clamp a <= clamp b.
Proof. unfold clamp. lia. Qed.

(** A finite number of the format is its own rounding. *)
Lemma rndz_rank x :
  valid_binary prec emax x = true -> finite_float x = true -> clamp (rndz (rank x)) = rank x.
Proof.
  pose proof top_pos as Ht. intros Vx Fx.
  destruct x as [s|s| |s m e]; try discriminate; [cbn [rank rndz]; unfold clamp; lia|].
  pose proof (rank_finite s m e Vx) as Hr. destruct (valid_canon s m e Vx) as [Hc _].
  pose proof (canon_rnd _ _ Hc) as Er. cbn [rank]. unfold clamp.
  destruct s; cbn [cond_Zopp].
  - rewrite rndz_neg, Z.opp_involutive, Er by lia. lia.
  - rewrite rndz_pos, Er by lia. lia.
Qed.

Lemma zero_rank s a :
  a = 0 ->
  valid_binary prec emax (S754_zero s) = true /\ is_nan (S754_zero s) = false /\
  rank (S754_zero s) = clamp (rndz a).
Proof.
  pose proof top_pos as Ht. intros ->. split; [reflexivity|]. split; [reflexivity|].
  cbn [rank rndz]. unfold clamp. lia.
Qed.

Lemma binary_normalize_rank M e :
  0 <= e + K ->
  let z := binary_normalize prec emax M e false in
  valid_binary prec emax z = true /\ is_nan z = false /\
  rank z = clamp (rndz (M * 2 ^ (e + K))).
Proof.
  pose proof top_pos as Ht. intros He z. subst z.
  pose proof (pow2_pos (e + K) He) as Hc.
  destruct M as [|p|p]; cbn [binary_normalize].
  - apply zero_rank. lia.
  - rewrite (binary_round_pack false p e He).
    destruct (pack_rnd false (Z.pos p * 2 ^ (e + K)) ltac:(lia)) as (V & N & R).
    split; [exact V|]. split; [exact N|]. rewrite R, rndz_pos by lia.
    pose proof (rnd_nonneg (Z.pos p * 2 ^ (e + K)) ltac:(lia)).
    unfold clamp. cbn [cond_Zopp]. lia.
  - rewrite (binary_round_pack true p e He).
    destruct (pack_rnd true (Z.pos p * 2 ^ (e + K)) ltac:(lia)) as (V & N & R).
    split; [exact V|]. split; [exact N|]. rewrite R.
    replace (Z.neg p * 2 ^ (e + K)) with (- (Z.pos p * 2 ^ (e + K))) by lia.
    rewrite rndz_neg, Z.opp_involutive by lia.
    pose proof (rnd_nonneg (Z.pos p * 2 ^ (e + K)) ltac:(lia)).
    unfold clamp. cbn [cond_Zopp]. lia.
Qed.

Lemma aligned m e ez :
  ez <= e -> 0 <= ez + K ->
  Z.pos (fst (shl_align m e ez)) * 2 ^ (ez + K) = Z.pos m * 2 ^ (e + K).
Proof.
  intros Hle Hz. unfold shl_align.
  destruct (ez - e) as [|d|d] eqn:Ed; cbn [fst].
  - do 2 f_equal. lia.
  - lia.
  - rewrite pos_iter_xO, <- Z.mul_assoc, <- Z.pow_add_r by lia. do 2 f_equal. lia.
Qed.

Lemma cond_Zopp_mul s a c : cond_Zopp s a * c = cond_Zopp s (a * c).
Proof. destruct s; cbn; lia. Qed.

Lemma valid_exponent s m e :
  valid_binary prec emax (S754_finite s m e) = true -> 0 <= e + K.
Proof. intros Hv. destruct (valid_canon s m e Hv) as [(_ & Hg & _) _]. lia. Qed.

Lemma valid_opp x : valid_binary prec emax (SFopp x) = valid_binary prec emax x.
Proof. now destruct x. Qed.

Lemma rank_opp x : rank (SFopp x) = - rank x.
Proof. destruct x as [s|s| |s m e]; cbn; try reflexivity; destruct s; cbn; lia. Qed.

(** Addition and subtraction: the exact result, rounded. *)
Lemma SFadd_rank x y :
  valid_binary prec emax x = true -> valid_binary prec emax y = true ->
  finite_float x = true -> finite_float y = true ->
  valid_binary prec emax (SFadd prec emax x y) = true /\
  is_nan (SFadd prec emax x y) = false /\
  rank (SFadd prec emax x y) = clamp (rndz (rank x + rank y)).
Proof.
  pose proof top_pos as Ht. intros Vx Vy Fx Fy.
  destruct x as [sx|sx| |sx mx ex]; try discriminate;
    destruct y as [sy|sy| |sy my ey]; try discriminate.
  - destruct sx, sy; cbn [SFadd]; apply zero_rank; reflexivity.
  - cbn [SFadd]. split; [exact Vy|]. split; [reflexivity|].
    change (rank (S754_zero sx)) with 0. rewrite Z.add_0_l.
    symmetry. now apply rndz_rank.
  - cbn [SFadd]. split; [exact Vx|]. split; [reflexivity|].
    change (rank (S754_zero sy)) with 0. rewrite Z.add_0_r.
    symmetry. now apply rndz_rank.
  - pose proof (valid_exponent _ _ _ Vx). pose proof (valid_exponent _ _ _ Vy).
    cbn [SFadd].
    destruct (binary_normalize_rank
                (cond_Zopp sx (Z.pos (fst (shl_align mx ex (Z.min ex ey)))) +
                 cond_Zopp sy (Z.pos (fst (shl_align my ey (Z.min ex ey)))))
                (Z.min ex ey) ltac:(lia)) as (V & N & R).
    split; [exact V|]. split; [exact N|]. rewrite R. do 2 f_equal.
    rewrite Z.mul_add_distr_r, !cond_Zopp_mul, !aligned by lia. reflexivity.
Qed.

Lemma SFsub_rank x y :
  valid_binary prec emax x = true -> valid_binary prec emax y = true ->
  finite_float x = true -> finite_float y = true ->
  valid_binary prec emax (SFsub prec emax x y) = true /\
  is_nan (SFsub prec emax x y) = false /\
  rank (SFsub prec emax x y) = clamp (rndz (rank x - rank y)).
Proof.
  pose proof top_pos as Ht. intros Vx Vy Fx Fy.
  destruct x as [sx|sx| |sx mx ex]; try discriminate;
    destruct y as [sy|sy| |sy my ey]; try discriminate.
  - destruct sx, sy; cbn [SFsub]; apply zero_rank; reflexivity.
  - cbn [SFsub]. change (S754_finite (negb sy) my ey) with (SFopp (S754_finite sy my ey)).
    split; [now rewrite valid_opp|]. split; [reflexivity|].
    change (rank (S754_zero sx)) with 0. rewrite Z.sub_0_l, <- rank_opp.
    symmetry. apply rndz_rank; [now rewrite valid_opp | reflexivity].
  - cbn [SFsub]. split; [exact Vx|]. split; [reflexivity|].
    change (rank (S754_zero sy)) with 0. rewrite Z.sub_0_r.
    symmetry. now apply rndz_rank.
  - pose proof (valid_exponent _ _ _ Vx). pose proof (valid_exponent _ _ _ Vy).
    cbn [SFsub].
    destruct (binary_normalize_rank
                (cond_Zopp sx (Z.pos (fst (shl_align mx ex (Z.min ex ey)))) -
                 cond_Zopp sy (Z.pos (fst (shl_align my ey (Z.min ex ey)))))
                (Z.min ex ey) ltac:(lia)) as (V & N & R).
    split; [exact V|]. split; [exact N|]. rewrite R. do 2 f_equal.
    rewrite Z.mul_sub_distr_r, !cond_Zopp_mul, !aligned by lia. reflexivity.
Qed.

(** Multiplication of two finite numbers: the exact product, rounded. *)
Lemma SFmul_pack sx mx ex sy my ey :
  valid_binary prec emax (S754_finite sx mx ex) = true ->
  valid_binary prec emax (S754_finite sy my ey) = true ->
  0 <= ex + ey + K ->
  SFmul prec emax (S754_finite sx mx ex) (S754_finite sy my ey)
  = pack (xorb sx sy) (rnd (Z.pos mx * Z.pos my * 2 ^ (ex + ey + K))).
Proof.
  intros Vx Vy He. cbn [SFmul].
  destruct (valid_canon _ _ _ Vx) as [([X0 X1] & Xg & Xn) _].
  destruct (valid_canon _ _ _ Vy) as [([Y0 Y1] & Yg & Yn) _].
  rewrite <- Pos2Z.inj_mul. apply binary_round_aux_pack; [exact He|].
  unfold gexp. rewrite log2_scaled, Pos2Z.inj_mul by lia.
  pose proof (Z.log2_mul_below (Z.pos mx) (Z.pos my) ltac:(lia) ltac:(lia)) as Hl.
  pose proof (Z.log2_nonneg (Z.pos mx)). pose proof (Z.log2_nonneg (Z.pos my)).
  pose proof emin_nonpos.
  destruct (Z.eq_dec (ex + K) (emin + K)) as [E1|E1];
    destruct (Z.eq_dec (ey + K) (emin + K)) as [E2|E2].
  - lia.
  - pose proof (log2_above _ (prec - 1) ltac:(lia) (Yn ltac:(lia))). lia.
  - pose proof (log2_above _ (prec - 1) ltac:(lia) (Xn ltac:(lia))). lia.
  - pose proof (log2_above _ (prec - 1) ltac:(lia) (Xn ltac:(lia))). lia.
Qed.

Lemma round_rank s m e :
  0 <= e + K ->
  let z := binary_round prec emax s m e in
  valid_binary prec emax z = true /\ is_nan z = false /\
  rank z = cond_Zopp s (Z.min (rnd (Z.pos m * 2 ^ (e + K))) top).
Proof.
  intros He z. subst z. rewrite (binary_round_pack s m e He).
  apply pack_rnd. pose proof (pow2_pos (e + K) He). lia.
Qed.

Lemma rank_lt_top x :
  valid_binary prec emax x = true -> finite_float x = true -> Z.abs (rank x) < top.
Proof.
  pose proof top_pos. intros Vx Fx. destruct x as [s|s| |s m e]; try discriminate.
  - cbn. lia.
  - pose proof (rank_finite s m e Vx). cbn [rank]. destruct s; cbn [cond_Zopp]; lia.
Qed.

Lemma rank_is_finite x : is_nan x = false -> Z.abs (rank x) < top -> finite_float x = true.
Proof.
  intros Nx Hr. destruct x as [s|s| |s m e]; try reflexivity; try discriminate.
  cbn [rank] in Hr. destruct s; cbn [cond_Zopp] in Hr; lia.
Qed.

Lemma valid_abs x : valid_binary prec emax (SFabs x) = valid_binary prec emax x.
Proof. now destruct x. Qed.

Lemma rank_abs x :
  valid_binary prec emax x = true -> rank (SFabs x) = Z.abs (rank x).
Proof.
  pose proof top_pos. intros Vx. destruct x as [s|s| |s m e]; try reflexivity.
  - cbn [SFabs rank]. destruct s; cbn [cond_Zopp]; lia.
  - pose proof (rank_finite s m e Vx). cbn [SFabs rank].
    destruct s; cbn [cond_Zopp]; lia.
Qed.

Lemma is_nan_abs x : is_nan (SFabs x) = is_nan x.
Proof. now destruct x. Qed.

(** Multiplication: the exact product [N], rounded. *)
Lemma SFmul_rank x y :
  - K <= 2 * emin ->
  valid_binary prec emax x = true -> valid_binary prec emax y = true ->
  finite_float x = true -> finite_float y = true ->
  valid_binary prec emax (SFmul prec emax x y) = true /\
  is_nan (SFmul prec emax x y) = false /\
  exists N, rank x * rank y = N * 2 ^ K /\ rank (SFmul prec emax x y) = clamp (rndz N).
Proof.
  pose proof top_pos as Ht. pose proof emin_nonpos as Hm.
  intros K2 Vx Vy Fx Fy.
  destruct x as [sx|sx| |sx mx ex]; try discriminate;
    destruct y as [sy|sy| |sy my ey]; try discriminate; cbn [SFmul].
  - destruct (zero_rank (xorb sx sy) 0 eq_refl) as (V & N & R).
    split; [exact V|]. split; [exact N|]. exists 0. split; [reflexivity | exact R].
  - destruct (zero_rank (xorb sx sy) 0 eq_refl) as (V & N & R).
    split; [exact V|]. split; [exact N|]. exists 0. split; [reflexivity | exact R].
  - destruct (zero_rank (xorb sx sy) 0 eq_refl) as (V & N & R).
    split; [exact V|]. split; [exact N|]. exists 0.
    split; [cbn [rank]; lia | exact R].
  - pose proof (valid_exponent _ _ _ Vx) as Hx. pose proof (valid_exponent _ _ _ Vy) as Hy.
    destruct (valid_canon _ _ _ Vx) as [(_ & Xg & _) _].
    destruct (valid_canon _ _ _ Vy) as [(_ & Yg & _) _].
    assert (He : 0 <= ex + ey + K) by lia.
    change (binary_round_aux prec emax (xorb sx sy) (Z.pos (mx * my)) (ex + ey) loc_Exact)
      with (SFmul prec emax (S754_finite sx mx ex) (S754_finite sy my ey)).
    rewrite (SFmul_pack sx mx ex sy my ey Vx Vy He).
    set (P := Z.pos mx * Z.pos my * 2 ^ (ex + ey + K)).
    pose proof (pow2_pos (ex + ey + K) He) as Hp.
    assert (HP : 0 < P) by (unfold P; lia).
    destruct (pack_rnd (xorb sx sy) P HP) as (V & N & R).
    split; [exact V|]. split; [exact N|].
    exists (cond_Zopp (xorb sx sy) P). split.
    + assert (E : Z.pos mx * 2 ^ (ex + K) * (Z.pos my * 2 ^ (ey + K)) = P * 2 ^ K).
      { unfold P. rewrite <- !Z.mul_assoc. f_equal.
        rewrite (Z.mul_comm (2 ^ (ex + K))), <- !Z.mul_assoc. f_equal.
        rewrite <- !Z.pow_add_r by lia. f_equal. lia. }
      cbn [rank]. destruct sx, sy; cbn [cond_Zopp xorb]; lia.
    + rewrite R. pose proof (rnd_nonneg P HP). unfold clamp.
      destruct (xorb sx sy); cbn [cond_Zopp].
      * rewrite rndz_neg, Z.opp_involutive by lia. lia.
      * rewrite rndz_pos by lia. lia.
Qed.

(** A factor of magnitude at most one does not enlarge the other. *)
Lemma SFmul_small x y :
  - K <= 2 * emin ->
  valid_binary prec emax x = true -> valid_binary prec emax y = true ->
  finite_float x = true -> finite_float y = true ->
  Z.abs (rank x) <= 2 ^ K ->
  valid_binary prec emax (SFmul prec emax x y) = true /\
  finite_float (SFmul prec emax x y) = true /\
  Z.abs (rank (SFmul prec emax x y)) <= Z.abs (rank y) /\
  (0 <= rank x -> 0 <= rank y -> 0 <= rank (SFmul prec emax x y)).
Proof.
  pose proof top_pos as Ht. pose proof emin_nonpos as Hm.
  intros K2 Vx Vy Fx Fy Hx.
  destruct (SFmul_rank x y K2 Vx Vy Fx Fy) as (V & Nn & N & EN & R).
  pose proof (pow2_pos K ltac:(lia)) as HK.
  assert (HN : Z.abs N <= Z.abs (rank y)).
  { assert (Z.abs N * 2 ^ K = Z.abs (rank x) * Z.abs (rank y)).
    { rewrite <- Z.abs_mul, EN, Z.abs_mul. f_equal. lia. }
    nia. }
  pose proof (rank_lt_top y Vy Fy) as Hy.
  assert (Hup : clamp (rndz (Z.abs (rank y))) = Z.abs (rank y)).
  { destruct (Z.abs_spec (rank y)) as [[_ ->]|[_ ->]].
    - now apply rndz_rank.
    - rewrite <- rank_opp. apply rndz_rank; [now rewrite valid_opp | now destruct y]. }
  assert (Hlo : clamp (rndz (- Z.abs (rank y))) = - Z.abs (rank y)).
  { destruct (Z.abs_spec (rank y)) as [[_ ->]|[_ ->]].
    - rewrite <- rank_opp. apply rndz_rank; [now rewrite valid_opp | now destruct y].
    - rewrite Z.opp_involutive. now apply rndz_rank. }
  pose proof (clamp_mono _ _ (rndz_mono N (Z.abs (rank y)) ltac:(lia))) as U.
  pose proof (clamp_mono _ _ (rndz_mono (- Z.abs (rank y)) N ltac:(lia))) as L.
  rewrite Hup in U. rewrite Hlo in L. rewrite <- R in U, L.
  split; [exact V|]. split; [apply rank_is_finite; [exact Nn | lia]|].
  split; [lia|].
  intros X0 Y0. rewrite R.
  assert (0 <= N) by nia.
  destruct (rndz_sign N) as [S0 _]. specialize (S0 ltac:(lia)). unfold clamp. lia.
Qed.

(** Adding more gives no less. *)
Lemma SFadd_mono x x' y :
  valid_binary prec emax x = true -> valid_binary prec emax x' = true ->
  valid_binary prec emax y = true ->
  finite_float x = true -> finite_float x' = true -> finite_float y = true ->
  rank x <= rank x' ->
  SFleb (SFadd prec emax x y) (SFadd prec emax x' y) = true.
Proof.
  intros Vx Vx' Vy Fx Fx' Fy H.
  destruct (SFadd_rank x y Vx Vy Fx Fy) as (V1 & N1 & R1).
  destruct (SFadd_rank x' y Vx' Vy Fx' Fy) as (V2 & N2 & R2).
  rewrite (SFleb_rank _ _ V1 V2 N1 N2), R1, R2. apply Z.leb_le.
  apply clamp_mono, rndz_mono. lia.
Qed.

Lemma SFadd_above x y :
  valid_binary prec emax x = true -> valid_binary prec emax y = true ->
  finite_float x = true -> finite_float y = true ->
  0 <= rank x ->
  SFleb y (SFadd prec emax x y) = true.
Proof.
  intros Vx Vy Fx Fy H.
  destruct (SFadd_rank x y Vx Vy Fx Fy) as (V1 & N1 & R1).
  assert (Ny : is_nan y = false) by now destruct y.
  rewrite (SFleb_rank _ _ Vy V1 Ny N1), R1. apply Z.leb_le.
  rewrite <- (rndz_rank y Vy Fy) at 1. apply clamp_mono, rndz_mono. lia.
Qed.

End Format.
End Rounding.

(** *** Binary32 and binary64 *)

Module IEEEOrder.
Import IEEE IEEEFacts Digits Rounding.

(** Values are counted in units of [2^-1074], the smallest positive
    binary64 number. *)
Definition fine : Z := 1074.

Lemma b32_fine : - fine <= SpecFloat.emin 24 128.
Proof. unfold fine, SpecFloat.emin. lia. Qed.

Lemma b64_fine : - fine <= SpecFloat.emin 53 1024.
Proof. unfold fine, SpecFloat.emin. lia. Qed.

Lemma b32_products : - fine <= 2 * SpecFloat.emin 24 128.
Proof. unfold fine, SpecFloat.emin. lia. Qed.

(** The rank of a number among the binary32 and among the binary64
    numbers; they differ for the infinities only. *)
Definition rank32 : spec_float -> Z := rank 128 fine.
Definition rank64 : spec_float -> Z := rank 1024 fine.

Lemma rank32_64 x : finite_float x = true -> rank32 x = rank64 x.
Proof. now destruct x. Qed.

Lemma finite_not_nan x : finite_float x = true -> is_nan x = false.
Proof. destruct x; (reflexivity || discriminate). Qed.

(** Conversion to float32 keeps a number that is not negative so. *)
Lemma cast_nonneg x :
  valid_binary 53 1024 x = true -> is_nan x = false -> 0 <= rank64 x ->
  valid_binary 24 128 (to_b32 x) = true /\ is_nan (to_b32 x) = false /\
  0 <= rank32 (to_b32 x).
Proof.
  intros Vx Nx Hx. destruct x as [s|s| |s m e]; try discriminate.
  - repeat split. cbn. lia.
  - repeat split. unfold rank64 in Hx. unfold rank32. cbn [to_b32 rank] in *.
    pose proof (top_pos 53 1024 ltac:(lia) ltac:(lia) fine b64_fine).
    pose proof (top_pos 24 128 ltac:(lia) ltac:(lia) fine b32_fine).
    destruct s; cbn [cond_Zopp] in *; lia.
  - pose proof (valid_exponent 53 1024 ltac:(lia) fine b64_fine s m e Vx) as He.
    destruct (round_rank 24 128 ltac:(lia) ltac:(lia) fine b32_fine s m e He)
      as (V & N & Rk).
    cbn [to_b32]. split; [exact V|]. split; [exact N|]. unfold rank32. rewrite Rk.
    pose proof (rank_finite 53 1024 ltac:(lia) fine b64_fine s m e Vx) as Hr.
    pose proof (rnd_nonneg 24 128 ltac:(lia) fine b32_fine (Z.pos m * 2 ^ (e + fine))
                  ltac:(lia)).
    pose proof (top_pos 24 128 ltac:(lia) ltac:(lia) fine b32_fine).
    unfold rank64 in Hx. cbn [rank] in Hx.
    destruct s; cbn [cond_Zopp] in *; lia.
Qed.

Lemma cast_valid x :
  valid_binary 53 1024 x = true -> is_nan x = false ->
  valid_binary 24 128 (to_b32 x) = true /\ is_nan (to_b32 x) = false.
Proof.
  intros Vx Nx. destruct x as [s|s| |s m e]; try discriminate; try (split; reflexivity).
  pose proof (valid_exponent 53 1024 ltac:(lia) fine b64_fine s m e Vx) as He.
  destruct (round_rank 24 128 ltac:(lia) ltac:(lia) fine b32_fine s m e He)
    as (V & N & _).
  cbn [to_b32]. split; assumption.
Qed.

(** The width of a range whose ends are in order is not negative. *)
Lemma width_nonneg a b :
  valid_binary 53 1024 a = true -> valid_binary 53 1024 b = true ->
  finite_float a = true -> finite_float b = true ->
  SFleb a b = true ->
  valid_binary 53 1024 (SFsub 53 1024 b a) = true /\
  is_nan (SFsub 53 1024 b a) = false /\
  0 <= rank64 (SFsub 53 1024 b a).
Proof.
  intros Va Vb Fa Fb Hle.
  destruct (SFsub_rank 53 1024 ltac:(lia) ltac:(lia) fine b64_fine b a Vb Va Fb Fa)
    as (V & N & Rk).
  split; [exact V|]. split; [exact N|]. unfold rank64. rewrite Rk.
  pose proof (finite_not_nan a Fa) as Na. pose proof (finite_not_nan b Fb) as Nb.
  rewrite (SFleb_rank 53 1024 ltac:(lia) ltac:(lia) fine b64_fine a b Va Vb Na Nb) in Hle.
  apply Z.leb_le in Hle.
  destruct (rndz_sign 53 1024 ltac:(lia) fine b64_fine (rank 1024 fine b - rank 1024 fine a))
    as [S0 _].
  specialize (S0 ltac:(lia)).
  pose proof (top_pos 53 1024 ltac:(lia) ltac:(lia) fine b64_fine).
  unfold clamp. lia.
Qed.

(** One, in units of [2^-1074], is a binary32 number. *)
Lemma one_rounded : rndz 24 128 fine (2 ^ fine) = 2 ^ fine.
Proof.
  assert (Hc : canon 24 128 fine (2 ^ 23) (fine - 23)).
  { unfold canon, fine, SpecFloat.emin. repeat split; lia. }
  pose proof (canon_rnd 24 128 ltac:(lia) fine b32_fine _ _ Hc) as E.
  assert (E2 : 2 ^ 23 * 2 ^ (fine - 23) = 2 ^ fine).
  { rewrite <- Z.pow_add_r by (unfold fine; lia). f_equal; lia. }
  rewrite E2 in E.
  rewrite rndz_pos; [exact E | apply Z.pow_pos_nonneg; unfold fine; lia].
Qed.

(** A uniform draw is a binary32 number in [[0, 1]]. *)
Lemma uniform_rank v :
  valid_binary 24 128 (uniform v) = true /\ finite_float (uniform v) = true /\
  0 <= rank32 (uniform v) <= 2 ^ fine.
Proof.
  assert (Hk : 0 <= Z.land v (2 ^ 24 - 1) < 2 ^ 24).
  { change (2 ^ 24 - 1) with (Z.ones 24). rewrite Z.land_ones by lia.
    apply Z.mod_pos_bound. lia. }
  unfold uniform.
  destruct (binary_normalize_rank 24 128 ltac:(lia) ltac:(lia) fine b32_fine
              (Z.land v (2 ^ 24 - 1)) (-24) ltac:(unfold fine; lia)) as (V & N & Rk).
  set (k := Z.land v (2 ^ 24 - 1)) in *.
  assert (Hp : 0 < 2 ^ (-24 + fine)) by (apply Z.pow_pos_nonneg; unfold fine; lia).
  assert (E : 2 ^ 24 * 2 ^ (-24 + fine) = 2 ^ fine).
  { rewrite <- Z.pow_add_r by (unfold fine; lia). f_equal; lia. }
  assert (Hv : 0 <= k * 2 ^ (-24 + fine) <= 2 ^ fine) by nia.
  pose proof (rndz_mono 24 128 ltac:(lia) fine b32_fine _ _ (proj1 Hv)) as L.
  pose proof (rndz_mono 24 128 ltac:(lia) fine b32_fine _ _ (proj2 Hv)) as U.
  rewrite one_rounded in U. cbn [rndz] in L.
  assert (Ht : 2 ^ fine < top 128 fine).
  { unfold top. apply Z.pow_lt_mono_r; unfold fine; lia. }
  assert (Hr : 0 <= rank32 (binary_normalize 24 128 k (-24) false) <= 2 ^ fine).
  { unfold rank32. rewrite Rk. unfold clamp. lia. }
  split; [exact V|]. split; [|exact Hr].
  apply rank_is_finite with (emax := 128) (K := fine); [exact N|].
  unfold rank32 in Hr. lia.
Qed.

(** The largest binary32 number below one. *)
Lemma below_one_rounded :
  rndz 24 128 fine ((2 ^ 24 - 1) * 2 ^ (fine - 24)) = (2 ^ 24 - 1) * 2 ^ (fine - 24).
Proof.
  assert (Hc : canon 24 128 fine (2 ^ 24 - 1) (fine - 24)).
  { unfold canon, fine, SpecFloat.emin. repeat split; lia. }
  pose proof (canon_rnd 24 128 ltac:(lia) fine b32_fine _ _ Hc) as E.
  rewrite rndz_pos; [exact E|].
  assert (0 < 2 ^ (fine - 24)) by (apply Z.pow_pos_nonneg; unfold fine; lia). lia.
Qed.

(** A uniform draw lies in [[0, 1)]. *)
Lemma uniform_unit v :
  SFleb (S754_zero false) (uniform v) = true /\ SFltb (uniform v) b32_one = true.
Proof.
  assert (Hk : 0 <= Z.land v (2 ^ 24 - 1) < 2 ^ 24).
  { change (2 ^ 24 - 1) with (Z.ones 24). rewrite Z.land_ones by lia.
    apply Z.mod_pos_bound. lia. }
  destruct (uniform_rank v) as (V & F & R0 & _).
  pose proof (finite_not_nan _ F) as N.
  assert (R1 : rank32 (uniform v) < rank32 b32_one).
  { unfold uniform.
    destruct (binary_normalize_rank 24 128 ltac:(lia) ltac:(lia) fine b32_fine
                (Z.land v (2 ^ 24 - 1)) (-24) ltac:(unfold fine; lia)) as (_ & _ & Rk).
    unfold rank32 at 1. rewrite Rk.
    set (k := Z.land v (2 ^ 24 - 1)) in *.
    assert (Hp : 0 < 2 ^ (fine - 24)) by (apply Z.pow_pos_nonneg; unfold fine; lia).
    replace (-24 + fine) with (fine - 24) by lia.
    assert (Hv : k * 2 ^ (fine - 24) <= (2 ^ 24 - 1) * 2 ^ (fine - 24)) by nia.
    pose proof (rndz_mono 24 128 ltac:(lia) fine b32_fine _ _ Hv) as U.
    rewrite below_one_rounded in U.
    assert (E1 : rank32 b32_one = 2 ^ 24 * 2 ^ (fine - 24)) by (vm_compute; reflexivity).
    rewrite E1.
    assert (Ht : 2 ^ 24 * 2 ^ (fine - 24) < top 128 fine) by (vm_compute; reflexivity).
    unfold clamp. lia. }
  split.
  - rewrite (SFleb_rank 24 128 ltac:(lia) ltac:(lia) fine b32_fine (S754_zero false)
               (uniform v) eq_refl V eq_refl N).
    apply Z.leb_le. exact R0.
  - unfold SFltb.
    rewrite (SFcompare_rank 24 128 ltac:(lia) ltac:(lia) fine b32_fine (uniform v) b32_one
               V eq_refl N eq_refl).
    fold rank32. now rewrite (proj2 (Z.compare_lt_iff _ _) R1).
Qed.
(** The value a range gives for a draw lies between the lower end and
    the lower end plus the width, all as float32. *)
Lemma start_in_range a b v :
  valid_binary 53 1024 a = true -> valid_binary 53 1024 b = true ->
  SFleb a b = true ->
  finite_float (to_b32 (SFsub 53 1024 b a)) = true ->
  let w := to_b32 (SFsub 53 1024 b a) in
  let x := SFadd 24 128 (SFmul 24 128 (uniform v) w) (to_b32 a) in
  SFleb (to_b32 a) x = true /\ SFleb x (SFadd 24 128 w (to_b32 a)) = true.
Proof.
  intros Va Vb Hle Hfin w x.
  assert (Fa : finite_float a = true).
  { destruct a as [[]|[]| |[] ? ?], b as [[]|[]| |[] ? ?]; try reflexivity;
      cbn in Hfin, Hle; discriminate. }
  assert (Fb : finite_float b = true).
  { destruct a as [[]|[]| |[] ? ?], b as [[]|[]| |[] ? ?]; try reflexivity;
      cbn in Hfin, Hle; discriminate. }
  destruct (width_nonneg a b Va Vb Fa Fb Hle) as (VW & NW & RW).
  destruct (cast_nonneg _ VW NW RW) as (Vw & Nw & Rw). fold w in Vw, Nw, Rw, Hfin.
  destruct (cast_valid a Va (finite_not_nan a Fa)) as (Va32 & Na32).
  destruct (uniform_rank v) as (Vd & Fd & Rd).
  destruct (SFmul_small 24 128 ltac:(lia) ltac:(lia) fine b32_fine (uniform v) w
              b32_products Vd Vw Fd Hfin ltac:(unfold rank32 in Rd; lia))
    as (Vp & Fp & Rp & Sp).
  specialize (Sp (proj1 Rd) Rw).
  set (p := SFmul 24 128 (uniform v) w) in *.
  destruct (finite_float (to_b32 a)) eqn:Fa32.
  - split.
    + apply (SFadd_above 24 128 ltac:(lia) ltac:(lia) fine b32_fine); assumption.
    + apply (SFadd_mono 24 128 ltac:(lia) ltac:(lia) fine b32_fine); try assumption.
      unfold rank32 in *. lia.
  - unfold x. destruct (to_b32 a) as [s|s| |s m e]; try discriminate.
    destruct p as [sp|sp| |sp mp ep]; try discriminate;
      destruct w as [sw|sw| |sw mw ew]; try discriminate;
      destruct s; split; reflexivity.
Qed.

(** A half, likewise. *)
Lemma half_rounded : rndz 24 128 fine (2 ^ (fine - 1)) = 2 ^ (fine - 1).
Proof.
  assert (Hc : canon 24 128 fine (2 ^ 23) (fine - 24)).
  { unfold canon, fine, SpecFloat.emin. repeat split; lia. }
  pose proof (canon_rnd 24 128 ltac:(lia) fine b32_fine _ _ Hc) as E.
  assert (E2 : 2 ^ 23 * 2 ^ (fine - 24) = 2 ^ (fine - 1)).
  { rewrite <- Z.pow_add_r by (unfold fine; lia). f_equal; lia. }
  rewrite E2 in E.
  rewrite rndz_pos; [exact E | apply Z.pow_pos_nonneg; unfold fine; lia].
Qed.

Lemma rndz_opp a : rndz 24 128 fine (- a) = - rndz 24 128 fine a.
Proof.
  destruct a as [|p|p]; [reflexivity | reflexivity |].
  change (rnd 24 128 fine (Z.pos p) = - - rnd 24 128 fine (Z.pos p)). lia.
Qed.

(** Rounding keeps a value within bounds that are numbers of the
    format. *)
Lemma rndz_within a B :
  rndz 24 128 fine B = B -> - B <= a <= B -> - B <= rndz 24 128 fine a <= B.
Proof.
  intros HB [L U].
  pose proof (rndz_mono 24 128 ltac:(lia) fine b32_fine _ _ L) as L'.
  pose proof (rndz_mono 24 128 ltac:(lia) fine b32_fine _ _ U) as U'.
  rewrite rndz_opp in L'. rewrite HB in L', U'. lia.
Qed.

(** [(d - 0.5) * 2 * c] for a uniform draw [d] is at most [c] in
    magnitude. *)
Lemma torque_bounded c v :
  valid_binary 24 128 c = true -> finite_float c = true ->
  let tau :=
    SFmul 24 128
      (SFmul 24 128 (SFsub 24 128 (uniform v) (S754_finite false 8388608 (-24)))
         (S754_finite false 8388608 (-22))) c in
  SFleb (SFabs tau) (SFabs c) = true.
Proof.
  intros Vc Fc tau.
  pose proof (top_pos 24 128 ltac:(lia) ltac:(lia) fine b32_fine) as Ht.
  assert (Hone : 2 ^ fine < top 128 fine).
  { unfold top. apply Z.pow_lt_mono_r; unfold fine; lia. }
  assert (Hhalf : 2 * 2 ^ (fine - 1) = 2 ^ fine).
  { rewrite <- Z.pow_succ_r by (unfold fine; lia). f_equal; unfold fine; lia. }
  assert (Hp : 0 < 2 ^ (fine - 1)) by (apply Z.pow_pos_nonneg; unfold fine; lia).
  destruct (uniform_rank v) as (Vd & Fd & Rd). unfold rank32 in Rd.
  set (h := S754_finite false 8388608 (-24)).
  set (two := S754_finite false 8388608 (-22)).
  assert (Vh : valid_binary 24 128 h = true) by reflexivity.
  assert (Vt : valid_binary 24 128 two = true) by reflexivity.
  assert (Rh : rank 128 fine h = 2 ^ (fine - 1)).
  { unfold h. cbn [rank cond_Zopp]. change 8388608 with (2 ^ 23).
    rewrite <- Z.pow_add_r by (unfold fine; lia). f_equal; unfold fine; lia. }
  assert (Rt : rank 128 fine two = 2 * 2 ^ fine).
  { unfold two. cbn [rank cond_Zopp]. change 8388608 with (2 ^ 23).
    rewrite <- Z.pow_add_r, <- Z.pow_succ_r by (unfold fine; lia).
    f_equal; unfold fine; lia. }
  (* the draw minus a half *)
  destruct (SFsub_rank 24 128 ltac:(lia) ltac:(lia) fine b32_fine (uniform v) h
              Vd Vh Fd eq_refl) as (V1 & N1 & R1).
  set (s1 := SFsub 24 128 (uniform v) h) in *.
  assert (B1 : - 2 ^ (fine - 1) <= rank 128 fine s1 <= 2 ^ (fine - 1)).
  { rewrite R1, Rh.
    pose proof (rndz_within (rank 128 fine (uniform v) - 2 ^ (fine - 1)) _ half_rounded
                  ltac:(lia)).
    unfold clamp. lia. }
  assert (F1 : finite_float s1 = true).
  { apply rank_is_finite with (emax := 128) (K := fine); [exact N1 | lia]. }
  (* doubled *)
  destruct (SFmul_rank 24 128 ltac:(lia) ltac:(lia) fine b32_fine s1 two b32_products
              V1 Vt F1 eq_refl) as (V2 & N2 & N & EN & R2).
  set (s2 := SFmul 24 128 s1 two) in *.
  assert (B2 : Z.abs (rank 128 fine s2) <= 2 ^ fine).
  { rewrite R2. rewrite Rt in EN.
    assert (HN : N = 2 * rank 128 fine s1).
    { pose proof (Z.pow_pos_nonneg 2 fine ltac:(lia) ltac:(unfold fine; lia)). nia. }
    pose proof (rndz_within N _ one_rounded ltac:(lia)).
    unfold clamp. lia. }
  assert (F2 : finite_float s2 = true).
  { apply rank_is_finite with (emax := 128) (K := fine); [exact N2 | lia]. }
  (* times [c] *)
  destruct (SFmul_small 24 128 ltac:(lia) ltac:(lia) fine b32_fine s2 c b32_products
              V2 Vc F2 Fc B2) as (V3 & F3 & B3 & _).
  fold tau in V3, F3, B3.
  rewrite (SFleb_rank 24 128 ltac:(lia) ltac:(lia) fine b32_fine (SFabs tau) (SFabs c)).
  - rewrite !(rank_abs 24 128 ltac:(lia) ltac:(lia) fine b32_fine) by assumption.
    now apply Z.leb_le.
  - now rewrite valid_abs.
  - now rewrite valid_abs.
  - rewrite is_nan_abs. now apply finite_not_nan.
  - rewrite is_nan_abs. now apply finite_not_nan.
Qed.

End IEEEOrder.

(** ** When a call returns, and what *)

Section Returns.
Context {A : Arith} {G : Generator}.

Lemma generate_data_returns x1range x2range numICs mu lam T dt seed w xuk :
  fst (generate_data x1range x2range numICs mu lam T dt seed w) = Ok xuk ->
  accepted numICs T seed = true /\
  xuk = osc_final forced x1range x2range mu lam dt seed (Z.to_nat numICs) (Z.to_nat T).
Proof.
  intros H. destruct (accepted numICs T seed) eqn:Ha.
  - split; [reflexivity|]. destruct (accepted_nat _ _ _ Ha) as (Hs & Hn & HT).
    rewrite Hn, HT, generate_data_run in H by exact Hs. simpl in H. congruence.
  - rewrite generate_data_refused in H by exact Ha. discriminate.
Qed.

Lemma generate_data_unforced_returns x1range x2range numICs mu lam T dt seed w xuk :
  fst (generate_data_unforced x1range x2range numICs mu lam T dt seed w) = Ok xuk ->
  accepted numICs T seed = true /\
  xuk = osc_final unforced x1range x2range mu lam dt seed (Z.to_nat numICs) (Z.to_nat T).
Proof.
  intros H. destruct (accepted numICs T seed) eqn:Ha.
  - split; [reflexivity|]. destruct (accepted_nat _ _ _ Ha) as (Hs & Hn & HT).
    rewrite Hn, HT, generate_data_unforced_run in H by exact Hs. simpl in H. congruence.
  - rewrite generate_data_unforced_refused in H by exact Ha. discriminate.
Qed.

(** Every element of the control signal is [ctl] of a uniform draw. *)
Lemma get2_control ctl seed n T i t a :
  get2 (control ctl seed n T) i t = Some a -> exists v, a = ctl (uniform_real v).
Proof.
  unfold control. rewrite get2_map2. unfold get2, row_at. cbn [data2].
  intros H. destruct (fst (draw_u seed n T) !! i) as [row|] eqn:Erow; [|discriminate].
  destruct (row !! t) as [r|] eqn:Er; [|discriminate].
  injection H as <-.
  assert (Hall : Forall (Forall (fun a => exists v, a = uniform_real v))
                   (fst (draw_u seed n T))).
  { unfold draw_u. apply Forall_fill_rows. intros g'. apply Forall_uniform_fill. }
  pose proof (proj1 (Forall_lookup _ _) Hall i row Erow) as Hrow. cbv beta in Hrow.
  destruct (proj1 (Forall_lookup _ _) Hrow t r Er) as [v ->]. eauto.
Qed.

Lemma wf3_get3_inv x i t c :
  wf3 x -> is_Some (get3 x i t c) ->
  (i < fst (fst (shape3 x)) /\ t < snd (fst (shape3 x)) /\ c < snd (shape3 x))%nat.
Proof.
  intros [Hlen Hall] [a Ha]. unfold get3, row_at in Ha.
  destruct (data3 x !! i) as [traj|] eqn:Etraj; [|discriminate].
  destruct (proj1 (Forall_lookup _ _) Hall i traj Etraj) as [Hl Hrows].
  destruct (traj !! t) as [row|] eqn:Erow; [|discriminate].
  pose proof (proj1 (Forall_lookup _ _) Hrows t row Erow) as Hrl. cbv beta in Hrl.
  apply lookup_lt_Some in Etraj, Erow, Ha. lia.
Qed.
End Returns.

(** ** The control column of the unforced simulator *)

Section ZeroControl.
Context {G : Generator}.
Import IEEE.

(** C4 (zero control).  With IEEE arithmetic, whatever the ranges, the
    trajectory count, [mu], [lam], the horizon, [dt] and the seed, every
    entry of the third column (index 2) of the buffer returned by
    [generate_data_unforced] is [+0.0]: the control signal is a uniform
    draw, which is finite, times [0]. *)
Theorem C4_unforced_control_is_zero x1range x2range numICs mu lam T_step dt seed w xuk
    (i t : nat) :
  fst (generate_data_unforced x1range x2range numICs mu lam T_step dt seed w) = Ok xuk ->
  Z.of_nat i < numICs -> Z.of_nat t < T_step ->
  get3 xuk i t 2 = Some (S754_zero false).
Proof.
  intros H Hi Ht. apply generate_data_unforced_returns in H as [_ ->].
  destruct (get3_osc_final unforced x1range x2range mu lam dt seed
              (Z.to_nat numICs) (Z.to_nat T_step) i t) as (_ & _ & H2); [lia | lia |].
  rewrite H2.
  destruct (wf2_get2 (control unforced seed (Z.to_nat numICs) (Z.to_nat T_step)) i t)
    as [a Ea]; [apply control_wf | simpl; lia | simpl; lia |].
  rewrite Ea. destruct (get2_control _ _ _ _ _ _ _ Ea) as [v ->].
  now rewrite IEEEFacts.unforced_uniform.
Qed.
End ZeroControl.

(** ** Concrete calls, with IEEE arithmetic and the Mersenne Twister *)

Module Scenario.
Import IEEE MT19937.

Definition zero : py := py_lit 0 0.
Definition tenth : py := py_lit 1 1.

(** A world to call from: the generator as the default seed leaves it,
    nothing written yet. *)
Definition w0 : world := World (seed_gen 5489) [].

(** The first raw draws of the engine seeded with [0]. *)
Definition raw0 : list Z :=
  [2357136044; 2546248239; 3071714933; 3626093760; 2588848963; 3684848379; 2340255427].

Example raw0_drawn : fst (fill_rows random 7 (seed_gen 0)) = raw0.
Proof. vm_compute. reflexivity. Qed.

(** To four decimals they are the values [torch.rand] shows after
    [torch.manual_seed(0)]. *)
Example raw0_uniform :
  map (fun v => fmt4 (uniform_real v)) raw0
  = ["0.4963"; "0.7682"; "0.0885"; "0.1320"; "0.3074"; "0.6341"; "0.4901"]%string.
Proof. vm_compute. reflexivity. Qed.

(** The control value of step [t] for seed [0]: draws number 3 to 7, after
    the two that initialise [x1] and [x2], minus [0.5]. *)
Definition u0 (t : nat) : elt := forced (uniform_real (nth (2 + t) raw0 0)).

(** [x1] at step [t] of the scenario: it starts at [0] and moves by
    [dt * mu * x1 + dt * u[t - 1]] after every step. *)
Fixpoint x1_0 (t : nat) : elt :=
  match t with
  | O => elt_zero
  | S t' =>
      elt_add (x1_0 t')
        (elt_add (elt_mul (x1_0 t') (cast (py_mul tenth zero)))
           (elt_mul (u0 (prev 5 t')) (cast tenth)))
  end.

(** C1, amended (the concrete scenario).
    [generate_data((0,0), (0,0), 1, 0, 0, 5, 0.1, seed=0)] returns a buffer
    of shape [1,5,3] whose x2 column is [0] at each of the five steps,
    whose control column is the uniform draws 3 to 7 of the generator
    seeded with [0], minus [0.5], and whose x1 column starts at [0] and
    then follows the control: the entry of step [t + 1] is the entry of
    step [t] plus [dt * mu * x1 + dt * u[t - 1]], where [u[-1]] is the last
    control value.  At step 1 it is [-8509696 * 2^-33], about [-0.00099]. *)
Theorem C1_scenario_buffer w :
  fst (generate_data (zero, zero) (zero, zero) 1 zero zero 5 tenth 0 w)
  = Ok (Tensor3 (1, 5, 3)%nat
          [[ [x1_0 0; elt_zero; u0 0];
             [x1_0 1; elt_zero; u0 1];
             [x1_0 2; elt_zero; u0 2];
             [x1_0 3; elt_zero; u0 3];
             [x1_0 4; elt_zero; u0 4] ]]) /\
  x1_0 1 = S754_finite true 8509696 (-33).
Proof.
  split.
  - apply observe_ok. vm_compute. reflexivity.
  - vm_compute. reflexivity.
Qed.

(** C1 fails as stated: in the scenario the x1 column is not zero at
    step 1. *)
Lemma C1_x1_column_moves :
  entry (fst (generate_data (zero, zero) (zero, zero) 1 zero zero 5 tenth 0 w0)) 0 1 0
  = Some (S754_finite true 8509696 (-33)) /\
  SFeqb (S754_finite true 8509696 (-33)) elt_zero = false.
Proof. split; vm_compute; reflexivity. Qed.

(** C4 at a concrete call. *)
Lemma C4_unforced_control_is_zero_at_a_call :
  get3 (osc_final unforced (zero, tenth) (zero, tenth) tenth tenth tenth 7 2 3) 1 2 2
  = Some (S754_zero false).
Proof.
  apply (C4_unforced_control_is_zero (zero, tenth) (zero, tenth) 2 tenth tenth 3
           tenth 7 w0).
  - change 2 with (Z.of_nat 2). change 3 with (Z.of_nat 3).
    rewrite generate_data_unforced_run; reflexivity.
  - reflexivity.
  - reflexivity.
Defined.

(** C3 fails as stated: a call of [generate_two_link_data] with the
    default masses and lengths writes a line to standard output, whatever
    cosine and sine are. *)
Lemma C3_two_link_prints :
  stdout w0 = [] /\
  forall R : Trig arith,
    stdout (snd (generate_two_link_data (zero, zero) (zero, zero) (zero, zero)
                   (zero, zero) 1 5 tenth 0 default_unit default_unit default_unit
                   default_unit default_unit default_g w0))
    = ["Computed Inertia: I1 = 0.2500, I2 = 0.2500"%string].
Proof.
  split; [reflexivity|]. intros R.
  rewrite (generate_two_link_data_stdout (zero, zero) (zero, zero) (zero, zero)
             (zero, zero) tenth 0 default_unit default_unit default_unit default_unit
             default_unit default_g).
  vm_compute. reflexivity.
Qed.

Definition lo38 : py := py_neg (py_lit (3 * 10 ^ 38) 0).
Definition hi38 : py := py_lit (3 * 10 ^ 38) 0.

(** C8 fails as stated: for the range [(-3e38, 3e38)] the width [6e38]
    exceeds the largest float32, the product with the draw is [+inf], and
    so is the initial [x1], which is above the upper bound. *)
Lemma C8_wide_range_overflows :
  py_leb lo38 hi38 = true /\
  entry (fst (generate_data (lo38, hi38) (zero, zero) 1 zero zero 1 tenth 0 w0)) 0 0 0
  = Some (S754_infinity false) /\
  elt_leb (S754_infinity false) (cast hi38) = false.
Proof. repeat split; vm_compute; reflexivity. Qed.

(** A float32 as the binary64 number of the same value. *)
Definition widen (x : elt) : py :=
  match x with
  | S754_finite s m e => binary_normalize 53 1024 (cond_Zopp s (Z.pos m)) e s
  | _ => x
  end.

Definition seven_tenths : py := py_lit 7 1.

(** An ordinary range leaves the interval too: for the range
    [(0.7, 0.7)] the value recorded is [float32(0.7)], which is below the
    binary64 number [0.7]. *)
Example start_below_the_minimum :
  py_leb seven_tenths seven_tenths = true /\
  entry (fst (generate_data (seven_tenths, seven_tenths) (zero, zero) 1 zero zero 1 tenth
                0 w0)) 0 0 0
  = Some (cast seven_tenths) /\
  SFltb (widen (cast seven_tenths)) seven_tenths = true.
Proof. repeat split; vm_compute; reflexivity. Qed.

(** C9 fails as stated: with [numICs = 0] and the horizon [-1] the call
    raises. *)
Lemma C9_negative_horizon_raises :
  fst (generate_data (zero, zero) (zero, zero) 0 zero zero (-1) tenth 0 w0)
  = Raise RuntimeError.
Proof. apply observe_raise. vm_compute. reflexivity. Qed.

(** So does a seed outside the range [manual_seed] accepts. *)
Example seed_out_of_range_raises :
  fst (generate_data (zero, zero) (zero, zero) 0 zero zero 5 tenth (2 ^ 64) w0)
  = Raise ValueError.
Proof. apply observe_raise. vm_compute. reflexivity. Qed.
End Scenario.

(** ** The increments of the oscillator loop *)

Section Increments.
Context {A : Arith} {G : Generator}.

Lemma lookup_prev_col u n T t i up :
  shape2 u = (n, T) -> get2 u i (prev T t) = Some up -> prev_col u T t !! i = Some up.
Proof. intros Hs H. unfold prev_col. now apply lookup_column. Qed.

(** C2 (the increments).  Take a call of [generate_data] with [n]
    trajectories, horizon [T] and an accepted seed, let [u] be its control
    signal (the third column of the returned buffer) and [traj k] the pair
    [(x1, x2)] the loop holds after [k] iterations.  Then iteration [t],
    for every [t] from [0] to [T - 1] and every trajectory [i], records
    [x1] and [x2] in row [t] and afterwards adds to them
    [dx1 = dt * mu * x1 + dt * u[t - 1]] and [dx2 = dt * lam * (x2 - x1^2)],
    where the column [t - 1] of [u] is the previous one and, for [t = 0],
    the last one, [T - 1]. *)
Theorem C2_euler_increments x1range x2range (n : nat) mu lam (T : nat) dt seed w :
  seed_ok seed = true ->
  let u := control forced seed n T in
  let traj := osc_traj forced x1range x2range mu lam dt seed n T in
  let xuk := osc_final forced x1range x2range mu lam dt seed n T in
  fst (generate_data x1range x2range (Z.of_nat n) mu lam (Z.of_nat T) dt seed w) = Ok xuk /\
  (forall i t, (i < n)%nat -> (t < T)%nat -> get3 xuk i t 2 = get2 u i t) /\
  (forall k w', (k <= T)%nat ->
     exists buf,
       for_each (range (Z.of_nat k)) (euler_step mu dt (py_mul dt lam) u)
         (start_x1 x1range seed n, start_x2 x2range seed n, start_buf forced seed n T) w'
       = (Ok (fst (traj k), snd (traj k), buf), w')) /\
  ((0 < T)%nat -> prev T 0 = (T - 1)%nat) /\
  (forall t, (S t < T)%nat -> prev T (S t) = t) /\
  (forall i t, (i < n)%nat -> (t < T)%nat ->
     exists x1 x2 up,
       fst (traj t) !! i = Some x1 /\
       snd (traj t) !! i = Some x2 /\
       get2 u i (prev T t) = Some up /\
       get3 xuk i t 0 = Some x1 /\
       get3 xuk i t 1 = Some x2 /\
       fst (traj (S t)) !! i
       = Some (elt_add x1
                 (elt_add (elt_mul x1 (cast (py_mul dt mu))) (elt_mul up (cast dt)))) /\
       snd (traj (S t)) !! i
       = Some (elt_add x2 (elt_mul (elt_sub x2 (elt_sq x1)) (cast (py_mul dt lam))))).
Proof.
  intros Hs u traj xuk.
  split; [|split; [|split; [|split; [|split]]]].
  - unfold xuk. now rewrite generate_data_run.
  - intros i t Hi Ht. now apply get3_osc_final.
  - intros k w' Hk. eexists.
    apply (oscillator_prefix mu dt (py_mul dt lam) u n T);
      first [ exact Hk | apply control_wf | apply start_x1_length
            | apply start_x2_length | reflexivity ].
  - apply prev_0.
  - apply prev_S.
  - intros i t Hi Ht.
    destruct (length_osc_at mu dt (py_mul dt lam) u n T (start_x1 x1range seed n)
                (start_x2 x2range seed n) (control_shape forced seed n T)
                (control_wf forced seed n T) (start_x1_length x1range seed n)
                (start_x2_length x2range seed n) t) as [H1 H2].
    change (length (fst (traj t)) = n) in H1.
    change (length (snd (traj t)) = n) in H2.
    destruct (lookup_lt_is_Some_2 (fst (traj t)) i) as [x1 E1]; [lia|].
    destruct (lookup_lt_is_Some_2 (snd (traj t)) i) as [x2 E2]; [lia|].
    destruct (wf2_get2 u i (prev T t)) as [up Eu];
      [apply control_wf | simpl; lia | simpl; apply prev_lt; lia |].
    destruct (get3_osc_final forced x1range x2range mu lam dt seed n T i t Hi Ht)
      as (G0 & G1 & _).
    exists x1, x2, up. fold xuk traj in G0, G1.
    pose proof (lookup_prev_col u n T t i up (control_shape forced seed n T) Eu) as Ep.
    repeat split; try congruence.
    + change (fst (traj (S t)))
        with (vadd (fst (traj t))
                (vadd (vmul_s (fst (traj t)) (py_mul dt mu)) (vmul_s (prev_col u T t) dt))).
      auto with vec.
    + change (snd (traj (S t)))
        with (vadd (snd (traj t))
                (vmul_s (vsub (snd (traj t)) (vsq (fst (traj t)))) (py_mul dt lam))).
      auto with vec.
Qed.
End Increments.

(** ** The arm: accelerations and the order of the updates *)

Section ArmSpec.
Context {A : Arith} {R : Trig A}.

(** The dynamics of one arm, on elements, for given values of the
    squares.  A 2x2 matrix is the tuple of its entries
    [(a11, a12, a21, a22)]. *)
Definition mat2 : Type := elt * elt * elt * elt.

(** The joint-space inertia matrix [M(q)]; it depends on [cos q2]. *)
Definition mass_matrix (p : arm) (sq : squares) (q2 : elt) : mat2 :=
  let c2 := elt_cos q2 in
  let M11 :=
    elt_add
      (elt_mul
         (elt_add (elt_mul c2 (cast (py_mul (py_mul (py_lit 2 0) (arm_l1 p)) (arm_lc2 p))))
            (cast (py_add (sq_l1 sq) (sq_lc2 sq))))
         (cast (arm_m2 p)))
      (cast (py_add (py_add (arm_I1 p) (arm_I2 p)) (py_mul (arm_m1 p) (sq_lc1 sq)))) in
  let M12 :=
    elt_add
      (elt_mul
         (elt_add (elt_mul c2 (cast (py_mul (arm_l1 p) (arm_lc2 p))))
            (cast (sq_lc2 sq)))
         (cast (arm_m2 p)))
      (cast (arm_I2 p)) in
  (M11, M12, M12, cast (M22_with p sq)).

(** [detM = M11 * M22 - M12 * M21] *)
Definition det2 (M : mat2) : elt :=
  let '(M11, M12, M21, M22) := M in elt_sub (elt_mul M11 M22) (elt_mul M12 M21).

(** The closed-form inverse [[M22, -M12], [-M21, M11]] / detM]; the
    first entry divides a scalar by a tensor, which is evaluated as the
    reciprocal times the scalar. *)
Definition inverse2 (M : mat2) : mat2 :=
  let '(M11, M12, M21, M22) := M in
  let d := det2 M in
  (elt_mul (elt_recip d) M22, elt_div (elt_neg M12) d, elt_div (elt_neg M21) d,
   elt_div M11 d).

(** Coriolis and centrifugal terms [(C1, C2)]. *)
Definition coriolis (p : arm) (q2 dq1 dq2 : elt) : elt * elt :=
  let h := elt_mul (elt_sin q2)
             (cast (py_mul (py_mul (py_neg (arm_m2 p)) (arm_l1 p)) (arm_lc2 p))) in
  (elt_mul (elt_mul h dq2) (elt_add (elt_mul dq1 (cast (py_lit 2 0))) dq2),
   elt_mul h (elt_sq dq1)).

(** Gravity terms [(G1, G2)]. *)
Definition gravity (p : arm) (q1 q2 : elt) : elt * elt :=
  let c12 := elt_cos (elt_add q1 q2) in
  let k2 := cast (py_mul (py_mul (arm_m2 p) (arm_lc2 p)) (arm_g p)) in
  (elt_add
     (elt_mul (elt_cos q1)
        (cast (py_mul (py_add (py_mul (arm_m1 p) (arm_lc1 p)) (py_mul (arm_m2 p) (arm_l1 p)))
                 (arm_g p))))
     (elt_mul c12 k2),
   elt_mul c12 k2).

(** [ddq = M(q)^-1 (tau - C - G)] *)
Definition ddq (p : arm) (sq : squares) (q1 q2 dq1 dq2 tau1 tau2 : elt) : elt * elt :=
  let '(i11, i12, i21, i22) := inverse2 (mass_matrix p sq q2) in
  let '(C1, C2) := coriolis p q2 dq1 dq2 in
  let '(G1, G2) := gravity p q1 q2 in
  let rhs1 := elt_sub (elt_sub tau1 C1) G1 in
  let rhs2 := elt_sub (elt_sub tau2 C2) G2 in
  (elt_add (elt_mul i11 rhs1) (elt_mul i12 rhs2),
   elt_add (elt_mul i21 rhs1) (elt_mul i22 rhs2)).

(** One semi-implicit Euler step on elements: the velocities first, then
    the positions from the new velocities. *)
Definition euler_arm (p : arm) (sq : squares) (s : elt * elt * elt * elt) (tau1 tau2 : elt)
  : elt * elt * elt * elt :=
  let '(q1, q2, dq1, dq2) := s in
  let '(ddq1, ddq2) := ddq p sq q1 q2 dq1 dq2 tau1 tau2 in
  let dq1_new := elt_add dq1 (elt_mul ddq1 (cast (arm_dt p))) in
  let dq2_new := elt_add dq2 (elt_mul ddq2 (cast (arm_dt p))) in
  (elt_add q1 (elt_mul dq1_new (cast (arm_dt p))),
   elt_add q2 (elt_mul dq2_new (cast (arm_dt p))),
   dq1_new, dq2_new).

(** Trajectory [i] of a vector state. *)
Definition at_traj (s : arm_vec) (i : nat) : option (elt * elt * elt * elt) :=
  let '(q1, q2, dq1, dq2) := s in
  match q1 !! i, q2 !! i, dq1 !! i, dq2 !! i with
  | Some a, Some b, Some c, Some d => Some (a, b, c, d)
  | _, _, _, _ => None
  end.

(** The vectorised accelerations of the source are [ddq] on every
    trajectory. *)
Lemma lookup_accelerations p sq q1 q2 dq1 dq2 tau1 tau2 i a1 a2 b1 b2 t1 t2 :
  q1 !! i = Some a1 -> q2 !! i = Some a2 -> dq1 !! i = Some b1 -> dq2 !! i = Some b2 ->
  tau1 !! i = Some t1 -> tau2 !! i = Some t2 ->
  fst (accelerations_with p sq q1 q2 dq1 dq2 tau1 tau2) !! i
  = Some (fst (ddq p sq a1 a2 b1 b2 t1 t2)) /\
  snd (accelerations_with p sq q1 q2 dq1 dq2 tau1 tau2) !! i
  = Some (snd (ddq p sq a1 a2 b1 b2 t1 t2)).
Proof.
  intros. unfold accelerations_with, solve, ddq, inverse2, det2, mass_matrix, coriolis,
    gravity, M11_with, M12_with.
  cbn [fst snd]. split; auto 30 with vec.
Qed.

Lemma arm_next_at_traj p sq tau t s i x t1 t2 :
  at_traj s i = Some x ->
  step_col tau t 0 !! i = Some t1 -> step_col tau t 1 !! i = Some t2 ->
  at_traj (arm_next p sq tau t s) i = Some (euler_arm p sq x t1 t2).
Proof.
  intros Hx H1 H2. destruct s as [[[q1 q2] dq1] dq2]. unfold at_traj in Hx.
  destruct (q1 !! i) as [a1|] eqn:E1; [|discriminate].
  destruct (q2 !! i) as [a2|] eqn:E2; [|discriminate].
  destruct (dq1 !! i) as [b1|] eqn:E3; [|discriminate].
  destruct (dq2 !! i) as [b2|] eqn:E4; [|discriminate].
  injection Hx as <-.
  destruct (lookup_accelerations p sq q1 q2 dq1 dq2 (step_col tau t 0) (step_col tau t 1)
              i a1 a2 b1 b2 t1 t2 E1 E2 E3 E4 H1 H2) as [Ha Hb].
  unfold arm_next, euler_arm.
  destruct (accelerations_with p sq q1 q2 dq1 dq2 (step_col tau t 0) (step_col tau t 1))
    as [ddq1 ddq2].
  destruct (ddq p sq a1 a2 b1 b2 t1 t2) as [d1 d2]. cbn [fst snd] in Ha, Hb.
  unfold at_traj.
  rewrite (lookup_vadd q1 _ i a1 _ E1
             (lookup_vmul_s _ (arm_dt p) i _
                (lookup_vadd dq1 _ i b1 _ E3 (lookup_vmul_s ddq1 (arm_dt p) i d1 Ha)))).
  rewrite (lookup_vadd q2 _ i a2 _ E2
             (lookup_vmul_s _ (arm_dt p) i _
                (lookup_vadd dq2 _ i b2 _ E4 (lookup_vmul_s ddq2 (arm_dt p) i d2 Hb)))).
  rewrite (lookup_vadd dq1 _ i b1 _ E3 (lookup_vmul_s ddq1 (arm_dt p) i d1 Ha)).
  rewrite (lookup_vadd dq2 _ i b2 _ E4 (lookup_vmul_s ddq2 (arm_dt p) i d2 Hb)).
  reflexivity.
Qed.
End ArmSpec.

Section ArmClaim.
Context {A : Arith} {G : Generator} {R : Trig A}.

Lemma at_traj_intro (q1 q2 dq1 dq2 : list elt) i a b c d :
  q1 !! i = Some a -> q2 !! i = Some b -> dq1 !! i = Some c -> dq2 !! i = Some d ->
  at_traj (q1, q2, dq1, dq2) i = Some (a, b, c, d).
Proof. intros H1 H2 H3 H4. unfold at_traj. now rewrite H1, H2, H3, H4. Qed.

Lemma at_traj_is_Some n s i :
  arm_lengths n s -> (i < n)%nat -> is_Some (at_traj s i).
Proof.
  destruct s as [[[q1 q2] dq1] dq2]. intros (H1 & H2 & H3 & H4) Hi. unfold at_traj.
  destruct (lookup_lt_is_Some_2 q1 i) as [a ->]; [lia|].
  destruct (lookup_lt_is_Some_2 q2 i) as [b ->]; [lia|].
  destruct (lookup_lt_is_Some_2 dq1 i) as [c ->]; [lia|].
  destruct (lookup_lt_is_Some_2 dq2 i) as [d ->]; [lia|].
  eauto.
Qed.

Lemma get3_arm_final_row q1r q2r dq1r dq2r dt seed tau_max m1 m2 l1 l2 g sq n T i t x :
  (i < n)%nat -> (t < T)%nat ->
  at_traj (arm_traj q1r q2r dq1r dq2r dt seed tau_max m1 m2 l1 l2 g sq n T t) i = Some x ->
  let data := arm_final q1r q2r dq1r dq2r dt seed tau_max m1 m2 l1 l2 g sq n T in
  let '(q1, q2, dq1, dq2) := x in
  get3 data i t 0 = Some q1 /\ get3 data i t 1 = Some q2 /\
  get3 data i t 2 = Some dq1 /\ get3 data i t 3 = Some dq2 /\
  get3 data i t 4 = get3 (torque seed tau_max n T) i t 0 /\
  get3 data i t 5 = get3 (torque seed tau_max n T) i t 1.
Proof.
  intros Hi Ht Hx data. unfold data.
  rewrite !get3_arm_final by (assumption || lia).
  destruct (arm_traj _ _ _ _ _ _ _ _ _ _ _ _ _ _ _ t) as [[[v1 v2] v3] v4].
  unfold at_traj in Hx.
  destruct (v1 !! i) as [a1|]; [|discriminate].
  destruct (v2 !! i) as [a2|]; [|discriminate].
  destruct (v3 !! i) as [a3|]; [|discriminate].
  destruct (v4 !! i) as [a4|]; [|discriminate].
  injection Hx as <-.
  repeat (destruct (decide _) as [?|?]; try lia).
  repeat split.
Qed.

(** C7 (semi-implicit Euler).  Take a call of [generate_two_link_data]
    with [n] trajectories, horizon [T] and an accepted seed, in which none
    of the Python powers [(l1 / 2) ** 2], [l1 ** 2] and [(l2 / 2) ** 2]
    overflows (a power that overflows raises [OverflowError] and the call
    records no step), and let [traj k] be the vectors [(q1, q2, dq1, dq2)]
    the loop holds after [k] iterations.  Iteration [t], for every [t < T]
    and every trajectory, records [q1, q2, dq1, dq2] in columns 0 to 3 of
    row [t], next to the torques of the step in columns 4 and 5, and then
    replaces them by [euler_arm]: the accelerations are
    [ddq = M(q)^-1 (tau - C - G)] with the closed-form inverse over
    [detM = M11 * M22 - M12 * M21], the velocity is updated first,
    [dq_new = dq + ddq * dt], and the position from the new velocity,
    [q_new = q + dq_new * dt]. *)
Theorem C7_semi_implicit_euler q1r q2r dq1r dq2r (n T : nat) dt seed
    tau_max m1 m2 l1 l2 g sq w :
  seed_ok seed = true ->
  py_sq (py_div l1 (py_lit 2 0)) = Ok (sq_lc1 sq) ->
  py_sq l1 = Ok (sq_l1 sq) ->
  py_sq (py_div l2 (py_lit 2 0)) = Ok (sq_lc2 sq) ->
  let p := arm_of dt m1 m2 l1 l2 g sq in
  let tau := torque seed tau_max n T in
  let traj := arm_traj q1r q2r dq1r dq2r dt seed tau_max m1 m2 l1 l2 g sq n T in
  let data := arm_final q1r q2r dq1r dq2r dt seed tau_max m1 m2 l1 l2 g sq n T in
  fst (generate_two_link_data q1r q2r dq1r dq2r (Z.of_nat n) (Z.of_nat T) dt seed
         tau_max m1 m2 l1 l2 g w) = Ok data /\
  (forall k w', (k <= T)%nat ->
     exists buf,
       (let '(q1, q2, dq1, dq2) := arm_start q1r q2r dq1r dq2r seed n in
        for_each (range (Z.of_nat k)) (arm_step p tau)
          (q1, q2, dq1, dq2, arm_start_buf seed tau_max n T) w')
       = (let '(q1, q2, dq1, dq2) := traj k in (Ok (q1, q2, dq1, dq2, buf), w'))) /\
  (forall i t, (i < n)%nat -> (t < T)%nat ->
     exists q1 q2 dq1 dq2 tau1 tau2,
       at_traj (traj t) i = Some (q1, q2, dq1, dq2) /\
       get3 data i t 0 = Some q1 /\
       get3 data i t 1 = Some q2 /\
       get3 data i t 2 = Some dq1 /\
       get3 data i t 3 = Some dq2 /\
       get3 data i t 4 = Some tau1 /\
       get3 data i t 5 = Some tau2 /\
       at_traj (traj (S t)) i = Some (euler_arm p sq (q1, q2, dq1, dq2) tau1 tau2)).
Proof.
  intros Hs Hlc1 Hl1 Hlc2 p tau traj data.
  assert (Hlen : forall k, arm_lengths n (traj k)).
  { intros k. unfold traj, arm_traj, arm_start.
    apply (arm_lengths_at _ _ _ n T);
      first [ reflexivity | apply torque_wf | apply length_initial, length_uniform_fill ]. }
  split; [|split].
  - unfold data.
    now rewrite (generate_two_link_data_run q1r q2r dq1r dq2r dt seed tau_max m1 m2 l1 l2 g
                   sq n T w) by (assumption || (intros; assumption)).
  - intros k w' Hk. eexists. unfold arm_start, traj, arm_traj, arm_start.
    apply (arm_prefix p sq tau n T);
      first [ exact Hk | reflexivity | apply torque_wf
            | apply length_initial, length_uniform_fill
            | repeat split; assumption ].
  - intros i t Hi Ht.
    destruct (at_traj_is_Some n (traj t) i (Hlen t) Hi) as [[[[q1 q2] dq1] dq2] Ex].
    destruct (wf3_get3 tau i t 0) as [tau1 E1];
      [apply torque_wf | simpl; lia | simpl; lia | simpl; lia |].
    destruct (wf3_get3 tau i t 1) as [tau2 E2];
      [apply torque_wf | simpl; lia | simpl; lia | simpl; lia |].
    exists q1, q2, dq1, dq2, tau1, tau2.
    destruct (get3_arm_final_row q1r q2r dq1r dq2r dt seed tau_max m1 m2 l1 l2 g sq n T
                i t (q1, q2, dq1, dq2) Hi Ht Ex) as (G0 & G1 & G2 & G3 & G4 & G5).
    assert (Hstep : traj (S t) = arm_next p sq tau t (traj t)) by reflexivity.
    rewrite Hstep.
    rewrite (arm_next_at_traj p sq tau t (traj t) i (q1, q2, dq1, dq2) tau1 tau2 Ex
               (lookup_step_col tau t 0 i tau1 E1) (lookup_step_col tau t 1 i tau2 E2)).
    fold data tau in G0, G1, G2, G3, G4, G5.
    repeat split; congruence.
Qed.
End ArmClaim.

(** ** Initial conditions of the forced and the unforced simulator *)

Section InitialConditions.
Context {A : Arith} {G : Generator}.

Lemma get3_none x i t c :
  wf3 x ->
  ~ (i < fst (fst (shape3 x)) /\ t < snd (fst (shape3 x)) /\ c < snd (shape3 x))%nat ->
  get3 x i t c = None.
Proof.
  intros Hwf Hn. destruct (get3 x i t c) eqn:E; [|reflexivity].
  exfalso. apply Hn. eapply wf3_get3_inv; eauto.
Qed.

(** Row 0 of the returned buffer holds the initial conditions, whatever
    the control signal is. *)
Lemma get3_osc_final_0 ctl x1range x2range mu lam dt seed n T i :
  get3 (osc_final ctl x1range x2range mu lam dt seed n T) i 0 0
  = (if decide (i < n /\ 0 < T)%nat then start_x1 x1range seed n !! i else None) /\
  get3 (osc_final ctl x1range x2range mu lam dt seed n T) i 0 1
  = (if decide (i < n /\ 0 < T)%nat then start_x2 x2range seed n !! i else None).
Proof.
  destruct (decide (i < n /\ 0 < T)%nat) as [[Hi HT]|Hn].
  - destruct (get3_osc_final ctl x1range x2range mu lam dt seed n T i 0 Hi HT)
      as (H0 & H1 & _).
    split; assumption.
  - split; apply get3_none;
      try apply osc_final_wf; rewrite osc_final_shape; simpl; lia.
Qed.

(** C10 (same initial conditions).  Called with the same ranges,
    trajectory count, [mu], [lam], horizon, [dt] and seed, [generate_data]
    and [generate_data_unforced] either both raise the same exception or
    both return, and then the entries of columns 0 and 1 at time step 0
    are the same in the two buffers for every trajectory (and present
    whenever the horizon is positive): both seed the generator alike and
    draw the initial x1 and x2 before the control. *)
Theorem C10_same_initial_conditions x1range x2range numICs mu lam T dt seed w w' :
  match fst (generate_data x1range x2range numICs mu lam T dt seed w),
        fst (generate_data_unforced x1range x2range numICs mu lam T dt seed w') with
  | Ok a, Ok b =>
      forall i : nat,
        get3 a i 0 0 = get3 b i 0 0 /\ get3 a i 0 1 = get3 b i 0 1 /\
        (Z.of_nat i < numICs -> 0 < T ->
         is_Some (get3 a i 0 0) /\ is_Some (get3 a i 0 1))
  | Raise e1, Raise e2 => e1 = e2
  | _, _ => False
  end.
Proof.
  destruct (accepted numICs T seed) eqn:Ha.
  - destruct (accepted_nat _ _ _ Ha) as (Hs & Hn & HT). rewrite Hn, HT.
    rewrite generate_data_run, generate_data_unforced_run by exact Hs. cbn [fst].
    intros i.
    destruct (get3_osc_final_0 forced x1range x2range mu lam dt seed
                (Z.to_nat numICs) (Z.to_nat T) i) as [F0 F1].
    destruct (get3_osc_final_0 unforced x1range x2range mu lam dt seed
                (Z.to_nat numICs) (Z.to_nat T) i) as [U0 U1].
    rewrite F0, F1, U0, U1. split; [reflexivity|]. split; [reflexivity|].
    intros Hi Hpos. destruct (decide _) as [_|Hd]; [|lia].
    split; apply lookup_lt_is_Some.
    + rewrite start_x1_length. lia.
    + rewrite start_x2_length. lia.
  - rewrite generate_data_refused, generate_data_unforced_refused by exact Ha.
    reflexivity.
Qed.
End InitialConditions.

(** ** Degenerate extents *)

Section Degenerate.
Context {A : Arith} {G : Generator}.

Lemma concat_all_nil {B} (ls : list (list B)) : Forall (fun l => l = []) ls -> concat ls = [].
Proof. induction 1 as [|l ls -> _ IH]; simpl; [reflexivity | exact IH]. Qed.

Lemma wf3_no_elements x :
  wf3 x -> fst (fst (shape3 x)) = 0%nat \/ snd (fst (shape3 x)) = 0%nat ->
  concat (concat (data3 x)) = [].
Proof.
  intros [Hlen Hall] [H0|H0].
  - rewrite H0 in Hlen. apply length_zero_iff_nil in Hlen. now rewrite Hlen.
  - rewrite (concat_all_nil (data3 x)); [reflexivity|].
    eapply Forall_impl; [|exact Hall]. intros traj [Hl _]. simpl in *.
    rewrite H0 in Hl. now apply length_zero_iff_nil in Hl.
Qed.

(** C9, amended (degenerate extents).  A call of [generate_data] with
    [numICs = 0] or [T = 0] returns normally, with a buffer of shape
    [numICs, T, 3] that holds no element, provided the other of the two
    extents is not negative and the seed is one [manual_seed] accepts;
    ranges (reversed or not), [mu], [lam] and [dt] are arbitrary. *)
Theorem C9_empty_buffer x1range x2range numICs mu lam T dt seed w :
  seed_ok seed = true ->
  (numICs = 0 /\ 0 <= T) \/ (T = 0 /\ 0 <= numICs) ->
  exists xuk,
    fst (generate_data x1range x2range numICs mu lam T dt seed w) = Ok xuk /\
    shape3 xuk = (Z.to_nat numICs, Z.to_nat T, 3%nat) /\
    wf3 xuk /\
    concat (concat (data3 xuk)) = [].
Proof.
  intros Hs Hd.
  assert (Hn : numICs = Z.of_nat (Z.to_nat numICs)) by lia.
  assert (HT : T = Z.of_nat (Z.to_nat T)) by lia.
  exists (osc_final forced x1range x2range mu lam dt seed (Z.to_nat numICs) (Z.to_nat T)).
  split; [|split; [|split]].
  - rewrite Hn, HT at 1. now rewrite generate_data_run.
  - apply osc_final_shape.
  - apply osc_final_wf.
  - apply wf3_no_elements; [apply osc_final_wf|].
    rewrite osc_final_shape. simpl. lia.
Qed.
End Degenerate.

(** ** The splitter *)

Section SplitterRun.
Context {A : Arith} {G : Generator}.

(** When the three shares are trajectory counts, [DataGenerator] is the
    three calls one after the other. *)
Lemma DataGenerator_run x1range x2range numICs mu lam (T : nat) dt (n1 n2 n3 : nat) w :
  share_of 1 1 numICs = Ok (Z.of_nat n1) ->
  share_of 2 1 numICs = Ok (Z.of_nat n2) ->
  share_of 7 1 numICs = Ok (Z.of_nat n3) ->
  DataGenerator x1range x2range numICs mu lam (Z.of_nat T) dt w
  = (Ok (osc_final forced x1range x2range mu lam dt 3 n3 T,
         osc_final forced x1range x2range mu lam dt 1 n1 T,
         osc_final forced x1range x2range mu lam dt 2 n2 T),
     World (snd (draw_u 3 n3 T)) (stdout w)).
Proof.
  intros H1 H2 H3. unfold DataGenerator, share.
  unfold bind at 1, lift at 1. rewrite H1.
  unfold bind at 1. rewrite generate_data_run by reflexivity.
  unfold bind at 1, lift at 1. rewrite H2.
  unfold bind at 1. rewrite generate_data_run by reflexivity.
  unfold bind at 1, lift at 1. rewrite H3.
  unfold bind at 1. rewrite generate_data_run by reflexivity.
  reflexivity.
Qed.
End SplitterRun.

Section Splitter.
Context {G : Generator}.
Import IEEE.

(** C6 (the splitter).  [DataGenerator] calls [generate_data] three
    times, in this order: with seed 1 and [round(0.1 * numICs)]
    trajectories for the test batch, with seed 2 and
    [round(0.2 * numICs)] for the validation batch, with seed 3 and
    [round(0.7 * numICs)] for the train batch; each call starts in the
    world the previous one left, and the triple returned is
    [(train, test, val)] with the world the third call left.  For
    [numICs = 100] the three shares are 10, 20 and 70, so the batches
    returned have 70, 10 and 20 trajectories, in the order of the
    triple. *)
Theorem C6_three_calls x1range x2range mu lam (T : nat) dt w :
  (forall numICs n_test n_val n_train test val train w1 w2 w3,
      share_of 1 1 numICs = Ok n_test ->
      generate_data x1range x2range n_test mu lam (Z.of_nat T) dt 1 w = (Ok test, w1) ->
      share_of 2 1 numICs = Ok n_val ->
      generate_data x1range x2range n_val mu lam (Z.of_nat T) dt 2 w1 = (Ok val, w2) ->
      share_of 7 1 numICs = Ok n_train ->
      generate_data x1range x2range n_train mu lam (Z.of_nat T) dt 3 w2 = (Ok train, w3) ->
      DataGenerator x1range x2range numICs mu lam (Z.of_nat T) dt w
      = (Ok (train, test, val), w3)) /\
  (share_of 1 1 100 = Ok 10 /\ share_of 2 1 100 = Ok 20 /\ share_of 7 1 100 = Ok 70) /\
  (exists train test val w3,
      DataGenerator x1range x2range 100 mu lam (Z.of_nat T) dt w
      = (Ok (train, test, val), w3) /\
      (forall w', fst (generate_data x1range x2range 70 mu lam (Z.of_nat T) dt 3 w')
                  = Ok train) /\
      (forall w', fst (generate_data x1range x2range 10 mu lam (Z.of_nat T) dt 1 w')
                  = Ok test) /\
      (forall w', fst (generate_data x1range x2range 20 mu lam (Z.of_nat T) dt 2 w')
                  = Ok val) /\
      rng w3 = rng (snd (generate_data x1range x2range 70 mu lam (Z.of_nat T) dt 3 w)) /\
      shape3 train = (70, T, 3)%nat /\
      shape3 test = (10, T, 3)%nat /\
      shape3 val = (20, T, 3)%nat).
Proof.
  assert (S1 : share_of 1 1 100 = Ok 10) by (vm_compute; reflexivity).
  assert (S2 : share_of 2 1 100 = Ok 20) by (vm_compute; reflexivity).
  assert (S7 : share_of 7 1 100 = Ok 70) by (vm_compute; reflexivity).
  split; [|split; [auto|]].
  - intros numICs n_test n_val n_train test val train w1 w2 w3 H1 C1 H2 C2 H3 C3.
    unfold DataGenerator, share.
    unfold bind at 1, lift at 1. rewrite H1. unfold bind at 1. rewrite C1.
    unfold bind at 1, lift at 1. rewrite H2. unfold bind at 1. rewrite C2.
    unfold bind at 1, lift at 1. rewrite H3. unfold bind at 1. rewrite C3.
    reflexivity.
  - do 4 eexists. split; [|split; [|split; [|split; [|split; [|split; [|split]]]]]].
    + apply (DataGenerator_run x1range x2range 100 mu lam T dt 10 20 70 w); assumption.
    + intros w'. change 70 with (Z.of_nat 70). now rewrite generate_data_run.
    + intros w'. change 10 with (Z.of_nat 10). now rewrite generate_data_run.
    + intros w'. change 20 with (Z.of_nat 20). now rewrite generate_data_run.
    + change 70 with (Z.of_nat 70). now rewrite generate_data_run.
    + apply osc_final_shape.
    + apply osc_final_shape.
    + apply osc_final_shape.
Qed.
End Splitter.

(** ** When the arm simulator returns *)

Section ArmReturns.
Context {A : Arith} {G : Generator} {R : Trig A}.

(** The squares a call with the lengths [l1] and [l2] and the horizon [T]
    takes: those of [l1 / 2] and [l2 / 2] before the loop, that of [l1]
    in the loop. *)
Definition squares_of (l1 l2 : py) (T : nat) (sq : squares) : Prop :=
  py_sq (py_div l1 (py_lit 2 0)) = Ok (sq_lc1 sq) /\
  py_sq (py_div l2 (py_lit 2 0)) = Ok (sq_lc2 sq) /\
  ((0 < T)%nat -> py_sq l1 = Ok (sq_l1 sq)).

(** The squares of the default lengths: [0.5 ** 2 = 0.25] and
    [1.0 ** 2 = 1.0]. *)
Definition default_squares : squares := Squares (py_lit 25 2) default_unit (py_lit 25 2).

(** A seed [manual_seed] refuses: nothing has happened. *)
Lemma arm_seed_refused q1r q2r dq1r dq2r numICs T dt seed tau_max m1 m2 l1 l2 g w :
  seed_ok seed = false ->
  generate_two_link_data q1r q2r dq1r dq2r numICs T dt seed tau_max m1 m2 l1 l2 g w
  = (Raise ValueError, w).
Proof. intros Hs. unfold generate_two_link_data. now rewrite manual_seed_bind, Hs. Qed.

(** One of the two squares of lines 63 and 64 raises: the generator has
    been reseeded, nothing is printed. *)
Lemma arm_inertia_raises q1r q2r dq1r dq2r numICs T dt seed tau_max m1 m2 l1 l2 g e w :
  seed_ok seed = true ->
  py_sq (py_div l1 (py_lit 2 0)) = Raise e \/
  ((exists a, py_sq (py_div l1 (py_lit 2 0)) = Ok a) /\
   py_sq (py_div l2 (py_lit 2 0)) = Raise e) ->
  generate_two_link_data q1r q2r dq1r dq2r numICs T dt seed tau_max m1 m2 l1 l2 g w
  = (Raise e, World (seed_gen (seed mod 2 ^ 64)) (stdout w)).
Proof.
  intros Hs H. unfold generate_two_link_data. rewrite manual_seed_bind, Hs.
  unfold bind at 1, lift at 1. destruct H as [H|[[a H1] H2]].
  - now rewrite H.
  - rewrite H1. unfold bind at 1, lift at 1. now rewrite H2.
Qed.

(** A negative trajectory count: the first [torch.rand] raises, after
    the line. *)
Lemma arm_count_refused q1r q2r dq1r dq2r numICs T dt seed tau_max m1 m2 l1 l2 g a b w :
  seed_ok seed = true ->
  py_sq (py_div l1 (py_lit 2 0)) = Ok a -> py_sq (py_div l2 (py_lit 2 0)) = Ok b ->
  numICs < 0 ->
  generate_two_link_data q1r q2r dq1r dq2r numICs T dt seed tau_max m1 m2 l1 l2 g w
  = (Raise RuntimeError,
     World (seed_gen (seed mod 2 ^ 64))
       (stdout w ++ [inertia_line (py_mul m1 a) (py_mul m2 b)])).
Proof.
  intros Hs H1 H2 Hn. unfold generate_two_link_data. rewrite manual_seed_bind, Hs.
  unfold bind at 1, lift at 1. rewrite H1.
  unfold bind at 1, lift at 1. rewrite H2.
  unfold bind at 1, print. cbn [rng stdout].
  unfold bind at 1, rand1. now rewrite check_size_neg.
Qed.

(** A negative horizon: the fifth [torch.rand] raises, after the line
    and the four vectors of initial conditions. *)
Lemma arm_horizon_refused q1r q2r dq1r dq2r (n : nat) T dt seed tau_max m1 m2 l1 l2 g a b w :
  seed_ok seed = true ->
  py_sq (py_div l1 (py_lit 2 0)) = Ok a -> py_sq (py_div l2 (py_lit 2 0)) = Ok b ->
  T < 0 ->
  generate_two_link_data q1r q2r dq1r dq2r (Z.of_nat n) T dt seed tau_max m1 m2 l1 l2 g w
  = (Raise RuntimeError,
     World (snd (draw_dq2 seed n))
       (stdout w ++ [inertia_line (py_mul m1 a) (py_mul m2 b)])).
Proof.
  intros Hs H1 H2 HT. unfold generate_two_link_data. rewrite manual_seed_bind, Hs.
  unfold bind at 1, lift at 1. rewrite H1.
  unfold bind at 1, lift at 1. rewrite H2.
  unfold bind at 1, print. cbn [rng stdout].
  unfold bind at 1. rewrite rand1_nat. cbn [rng stdout].
  unfold bind at 1. rewrite rand1_nat. cbn [rng stdout].
  unfold bind at 1. rewrite rand1_nat. cbn [rng stdout].
  unfold bind at 1. rewrite rand1_nat. cbn [rng stdout].
  unfold bind at 1, rand3. rewrite check_size_nat.
  now rewrite (check_size_neg T HT).
Qed.

(** A call that returns had an accepted seed and extents, its squares
    did not raise, and what it returns is the recurrence. *)
Lemma generate_two_link_data_returns q1r q2r dq1r dq2r numICs T dt seed
    tau_max m1 m2 l1 l2 g w data :
  fst (generate_two_link_data q1r q2r dq1r dq2r numICs T dt seed tau_max m1 m2 l1 l2 g w)
  = Ok data ->
  accepted numICs T seed = true /\
  exists sq,
    squares_of l1 l2 (Z.to_nat T) sq /\
    data = arm_final q1r q2r dq1r dq2r dt seed tau_max m1 m2 l1 l2 g sq
             (Z.to_nat numICs) (Z.to_nat T).
Proof.
  intros H.
  destruct (seed_ok seed) eqn:Hs;
    [|rewrite arm_seed_refused in H by exact Hs; discriminate].
  destruct (py_sq (py_div l1 (py_lit 2 0))) as [a|e] eqn:H1;
    [|rewrite (arm_inertia_raises _ _ _ _ _ _ _ _ _ _ _ _ _ _ e) in H
        by (assumption || (left; assumption)); discriminate].
  destruct (py_sq (py_div l2 (py_lit 2 0))) as [b|e] eqn:H2;
    [|rewrite (arm_inertia_raises _ _ _ _ _ _ _ _ _ _ _ _ _ _ e) in H
        by (assumption || (right; split; [exists a|]; assumption));
      discriminate].
  destruct (Z.ltb_spec numICs 0) as [Hn|Hn];
    [rewrite (arm_count_refused _ _ _ _ _ _ _ _ _ _ _ _ _ _ a b) in H by assumption;
     discriminate|].
  apply Z_of_nat_complete in Hn as [n ->].
  destruct (Z.ltb_spec T 0) as [HT|HT];
    [rewrite (arm_horizon_refused _ _ _ _ _ _ _ _ _ _ _ _ _ _ a b) in H by assumption;
     discriminate|].
  apply Z_of_nat_complete in HT as [T' ->].
  assert (Ha : accepted (Z.of_nat n) (Z.of_nat T') seed = true).
  { unfold accepted. rewrite Hs. simpl.
    apply andb_true_intro. split; apply Z.leb_le; lia. }
  split; [exact Ha|]. rewrite !Nat2Z.id.
  destruct (py_sq l1) as [c|e] eqn:H3.
  - exists (Squares a c b). split; [repeat split; try assumption; intros _; exact H3|].
    rewrite (generate_two_link_data_run _ _ _ _ _ _ _ _ _ _ _ _ (Squares a c b)) in H
      by (assumption || (intros; assumption)).
    simpl in H. congruence.
  - destruct T' as [|T'].
    + exists (Squares a a b). split; [repeat split; try assumption; intros HT; lia|].
      rewrite (generate_two_link_data_run _ _ _ _ _ _ _ _ _ _ _ _ (Squares a a b)) in H
        by (assumption || (intros; lia)).
      simpl in H. congruence.
    + rewrite (generate_two_link_data_overflow _ _ _ _ _ _ _ _ _ _ _ _ (Squares a a b)
                 _ _ e) in H by (assumption || lia).
      discriminate.
Qed.
End ArmReturns.

(** ** The range of the initial state, in float32 *)

Section InitialRange.
Context {G : Generator} {R : Trig IEEE.arith}.
Import IEEE IEEEOrder.

(** A range [(min, max)] of binary64 numbers with [min <= max] whose
    width [max - min] is finite as float32. *)
Definition ordered (r : py * py) : bool :=
  valid_binary 53 1024 (fst r) && valid_binary 53 1024 (snd r) &&
  py_leb (fst r) (snd r) && finite_float (cast (py_sub (snd r) (fst r))).

(** The float32 numbers the source computes with: the lower end
    [float32(min)] and the upper end [float32(max - min) + float32(min)]. *)
Definition lower_end (r : py * py) : elt := cast (fst r).
Definition upper_end (r : py * py) : elt :=
  elt_add (cast (py_sub (snd r) (fst r))) (cast (fst r)).

(** [x] is [(max - min) * d + min] for a uniform draw [d] in [[0, 1)],
    and lies between the two ends. *)
Definition in_range (r : py * py) (x : elt) : Prop :=
  (exists d : elt,
      elt_leb elt_zero d = true /\ SFltb d b32_one = true /\
      x = elt_add (elt_mul d (cast (py_sub (snd r) (fst r)))) (cast (fst r))) /\
  elt_leb (lower_end r) x = true /\ elt_leb x (upper_end r) = true.

Lemma ordered_inv r :
  ordered r = true ->
  valid_binary 53 1024 (fst r) = true /\ valid_binary 53 1024 (snd r) = true /\
  SFleb (fst r) (snd r) = true /\
  finite_float (to_b32 (SFsub 53 1024 (snd r) (fst r))) = true.
Proof.
  unfold ordered. intros H.
  apply andb_prop in H as [H H4]. apply andb_prop in H as [H H3].
  apply andb_prop in H as [H1 H2]. repeat split; assumption.
Qed.

Lemma initial_in_range r n g i :
  ordered r = true -> (i < n)%nat ->
  exists x, initial r (fst (uniform_fill n g)) !! i = Some x /\ in_range r x.
Proof.
  intros Hr Hi. destruct (ordered_inv r Hr) as (Va & Vb & Hle & Hfin).
  destruct (lookup_lt_is_Some_2 (fst (uniform_fill n g)) i) as [a Ea].
  { rewrite length_uniform_fill. exact Hi. }
  destruct (proj1 (Forall_lookup _ _) (Forall_uniform_fill n g) i a Ea) as [v ->].
  eexists. split; [exact (lookup_initial r _ i _ Ea)|].
  destruct (uniform_unit v) as [U0 U1].
  split; [exists (uniform v); repeat split; assumption|].
  exact (start_in_range (fst r) (snd r) v Va Vb Hle Hfin).
Qed.

(** C8, amended (range of the initial state).  With IEEE arithmetic,
    for ranges given as pairs [(min, max)] of binary64 numbers with
    [min <= max] whose width [max - min] is finite as float32, the values
    that [generate_data] and [generate_two_link_data] record at time step
    0 are [(max - min) * d + min], computed in float32, for a uniform draw
    [d] in [[0, 1)], and lie between [float32(min)] and
    [float32(max - min) + float32(min)], for every trajectory.  These two
    are the ends of the range as float32 computes them: the first can be
    below [min] and the second above [max] by a rounding error, and a
    width that is not finite as float32 puts the value outside (infinite
    or not a number). *)
Theorem C8_initial_state_in_range (r1 r2 r3 r4 : py * py) :
  ordered r1 = true -> ordered r2 = true -> ordered r3 = true -> ordered r4 = true ->
  (forall numICs mu lam T dt seed w xuk (i : nat),
      fst (generate_data r1 r2 numICs mu lam T dt seed w) = Ok xuk ->
      Z.of_nat i < numICs -> 0 < T ->
      exists x1 x2,
        get3 xuk i 0 0 = Some x1 /\ get3 xuk i 0 1 = Some x2 /\
        in_range r1 x1 /\ in_range r2 x2) /\
  (forall numICs T dt seed tau_max m1 m2 l1 l2 g w data (i : nat),
      fst (generate_two_link_data r1 r2 r3 r4 numICs T dt seed tau_max m1 m2 l1 l2 g w)
      = Ok data ->
      Z.of_nat i < numICs -> 0 < T ->
      exists q1 q2 dq1 dq2,
        get3 data i 0 0 = Some q1 /\ get3 data i 0 1 = Some q2 /\
        get3 data i 0 2 = Some dq1 /\ get3 data i 0 3 = Some dq2 /\
        in_range r1 q1 /\ in_range r2 q2 /\ in_range r3 dq1 /\ in_range r4 dq2).
Proof.
  intros H1 H2 H3 H4. split.
  - intros numICs mu lam T dt seed w xuk i Hret Hi HT.
    apply generate_data_returns in Hret as [_ ->].
    destruct (get3_osc_final_0 (A := arith) forced r1 r2 mu lam dt seed
                (Z.to_nat numICs) (Z.to_nat T) i) as [E0 E1].
    destruct (decide _) as [_|Hd]; [|lia].
    destruct (initial_in_range r1 (Z.to_nat numICs) (seeded seed) i H1) as (x1 & Ex1 & Hx1);
      [lia|].
    destruct (initial_in_range r2 (Z.to_nat numICs)
                (snd (draw_x1 seed (Z.to_nat numICs))) i H2) as (x2 & Ex2 & Hx2); [lia|].
    exists x1, x2. rewrite E0, E1.
    split; [exact Ex1|]. split; [exact Ex2|]. split; assumption.
  - intros numICs T dt seed tau_max m1 m2 l1 l2 g w data i Hret Hi HT.
    apply generate_two_link_data_returns in Hret as (_ & sq & _ & ->).
    set (n := Z.to_nat numICs).
    destruct (initial_in_range r1 n (seeded seed) i H1) as (q1 & E1 & Hq1); [lia|].
    destruct (initial_in_range r2 n (snd (draw_q1 seed n)) i H2) as (q2 & E2 & Hq2); [lia|].
    destruct (initial_in_range r3 n (snd (draw_q2 seed n)) i H3) as (dq1 & E3 & Hq3); [lia|].
    destruct (initial_in_range r4 n (snd (draw_dq1 seed n)) i H4) as (dq2 & E4 & Hq4); [lia|].
    exists q1, q2, dq1, dq2.
    destruct (get3_arm_final_row (A := arith) r1 r2 r3 r4 dt seed tau_max m1 m2 l1 l2 g sq
                n (Z.to_nat T) i 0 (q1, q2, dq1, dq2))
      as (G0 & G1 & G2 & G3 & _); [lia | lia | |].
    { exact (at_traj_intro (A := arith) _ _ _ _ i q1 q2 dq1 dq2 E1 E2 E3 E4). }
    split; [exact G0|]. split; [exact G1|]. split; [exact G2|]. split; [exact G3|].
    split; [exact Hq1|]. split; [exact Hq2|]. split; [exact Hq3 | exact Hq4].
Qed.
End InitialRange.

(** ** The theorems at concrete calls *)

Module ScenarioChecks.
Import IEEE MT19937 Scenario.

(** C2 at the scenario of C1, first iteration of the only trajectory:
    the index [t - 1 = -1] reads the last control value. *)
Lemma C2_euler_increments_at_the_scenario :
  seed_ok 0 = true /\
  prev 5 0 = 4%nat /\
  exists x1 x2 up,
    fst (osc_traj forced (zero, zero) (zero, zero) zero zero tenth 0 1 5 0) !! 0%nat
    = Some x1 /\
    snd (osc_traj forced (zero, zero) (zero, zero) zero zero tenth 0 1 5 0) !! 0%nat
    = Some x2 /\
    get2 (control forced 0 1 5) 0 (prev 5 0) = Some up /\
    get3 (osc_final forced (zero, zero) (zero, zero) zero zero tenth 0 1 5) 0 0 0 = Some x1 /\
    get3 (osc_final forced (zero, zero) (zero, zero) zero zero tenth 0 1 5) 0 0 1 = Some x2 /\
    fst (osc_traj forced (zero, zero) (zero, zero) zero zero tenth 0 1 5 1) !! 0%nat
    = Some (elt_add x1
              (elt_add (elt_mul x1 (cast (py_mul tenth zero))) (elt_mul up (cast tenth)))) /\
    snd (osc_traj forced (zero, zero) (zero, zero) zero zero tenth 0 1 5 1) !! 0%nat
    = Some (elt_add x2 (elt_mul (elt_sub x2 (elt_sq x1)) (cast (py_mul tenth zero)))).
Proof.
  split; [reflexivity|]. split; [reflexivity|].
  exact (proj2 (proj2 (proj2 (proj2 (proj2
           (C2_euler_increments (zero, zero) (zero, zero) 1 zero zero 5 tenth 0 w0
              eq_refl))))) 0%nat 0%nat (Nat.lt_0_succ 0) (Nat.lt_0_succ 4)).
Defined.

(** C9 with no trajectory and five steps. *)
Lemma C9_empty_buffer_without_trajectories :
  exists xuk,
    fst (generate_data (zero, zero) (zero, zero) 0 zero zero 5 tenth 0 w0) = Ok xuk /\
    shape3 xuk = (0, 5, 3)%nat /\
    wf3 xuk /\
    concat (concat (data3 xuk)) = [].
Proof.
  refine (C9_empty_buffer (zero, zero) (zero, zero) 0 zero zero 5 tenth 0 w0 eq_refl
            (or_introl (conj eq_refl _))).
  discriminate.
Defined.
End ScenarioChecks.

Module ArmChecks.
Import IEEE MT19937 Scenario.

Definition unit_range : py * py := (zero, default_unit).

(** C7 for one trajectory and two steps with the default masses and
    lengths: the first iteration, whatever cosine and sine are. *)
Lemma C7_semi_implicit_euler_at_a_call :
  seed_ok 3 = true /\
  py_sq (py_div default_unit (py_lit 2 0)) = Ok (sq_lc1 default_squares) /\
  py_sq default_unit = Ok (sq_l1 default_squares) /\
  py_sq (py_div default_unit (py_lit 2 0)) = Ok (sq_lc2 default_squares) /\
  forall R : Trig arith,
    let p :=
      arm_of tenth default_unit default_unit default_unit default_unit default_g
        default_squares in
    let traj :=
      arm_traj unit_range unit_range unit_range unit_range tenth 3 default_unit default_unit
        default_unit default_unit default_unit default_g default_squares 1 2 in
    let data :=
      arm_final unit_range unit_range unit_range unit_range tenth 3 default_unit
        default_unit default_unit default_unit default_unit default_g default_squares 1 2 in
    fst (generate_two_link_data unit_range unit_range unit_range unit_range
           (Z.of_nat 1) (Z.of_nat 2) tenth 3 default_unit default_unit default_unit
           default_unit default_unit default_g w0) = Ok data /\
    exists q1 q2 dq1 dq2 tau1 tau2,
      at_traj (traj 0%nat) 0 = Some (q1, q2, dq1, dq2) /\
      get3 data 0 0 0 = Some q1 /\
      get3 data 0 0 1 = Some q2 /\
      get3 data 0 0 2 = Some dq1 /\
      get3 data 0 0 3 = Some dq2 /\
      get3 data 0 0 4 = Some tau1 /\
      get3 data 0 0 5 = Some tau2 /\
      at_traj (traj 1%nat) 0 = Some (euler_arm p default_squares (q1, q2, dq1, dq2) tau1 tau2).
Proof.
  assert (H1 : py_sq (py_div default_unit (py_lit 2 0)) = Ok (sq_lc1 default_squares))
    by (vm_compute; reflexivity).
  assert (H2 : py_sq default_unit = Ok (sq_l1 default_squares)) by (vm_compute; reflexivity).
  split; [reflexivity|]. split; [exact H1|]. split; [exact H2|]. split; [exact H1|].
  intros R p traj data.
  pose (H := C7_semi_implicit_euler (A := arith) (R := R) unit_range unit_range unit_range
               unit_range 1 2 tenth 3 default_unit default_unit default_unit default_unit
               default_unit default_g default_squares w0 eq_refl H1 H2 H1).
  split; [exact (proj1 H)|].
  exact (proj2 (proj2 H) 0%nat 0%nat (Nat.lt_0_succ 0) (Nat.lt_0_succ 1)).
Defined.

(** C8 for the second of two trajectories of [generate_data], ranges
    [(0, 1)]. *)
Lemma C8_initial_state_in_range_at_a_call :
  ordered unit_range = true /\
  forall R : Trig arith,
  exists x1 x2,
    get3 (osc_final forced unit_range unit_range default_unit default_unit tenth 0 2 3) 1 0 0
    = Some x1 /\
    get3 (osc_final forced unit_range unit_range default_unit default_unit tenth 0 2 3) 1 0 1
    = Some x2 /\
    in_range unit_range x1 /\ in_range unit_range x2.
Proof.
  assert (Hr : ordered unit_range = true) by (vm_compute; reflexivity).
  split; [exact Hr|]. intros R.
  refine (proj1 (C8_initial_state_in_range (R := R) unit_range unit_range unit_range
                   unit_range Hr Hr Hr Hr)
            (Z.of_nat 2) default_unit default_unit (Z.of_nat 3) tenth 0 w0 _ 1%nat _ _ _).
  - now rewrite (generate_data_run (A := arith)).
  - reflexivity.
  - reflexivity.
Defined.
End ArmChecks.

(** * Further properties *)

(** ** The stream of draws *)

Section Stream.
Context {A : Arith} {G : Generator}.

(** The generator after [k] draws, and the raw draw number [k], counted
    from 0. *)
Fixpoint skip (k : nat) (g : gen) : gen :=
  match k with
  | O => g
  | S k' => skip k' (snd (random g))
  end.

Definition nth_draw (g : gen) (k : nat) : Z := fst (random (skip k g)).

Lemma skip_add a b g : skip (a + b) g = skip b (skip a g).
Proof. revert g. induction a as [|a IH]; intros g; simpl; [reflexivity | apply IH]. Qed.

Lemma nth_draw_skip a b g : nth_draw (skip a g) b = nth_draw g (a + b).
Proof. unfold nth_draw. now rewrite skip_add. Qed.

Lemma uniform_fill_skip n g : snd (uniform_fill n g) = skip n g.
Proof.
  revert g. induction n as [|n IH]; intros g; simpl; [reflexivity|].
  rewrite <- IH. destruct (random g) as [v g1]. simpl.
  now destruct (uniform_fill n g1).
Qed.

Lemma lookup_uniform_fill n g i :
  (i < n)%nat -> fst (uniform_fill n g) !! i = Some (uniform_real (nth_draw g i)).
Proof.
  revert g i. induction n as [|n IH]; intros g i Hi; [lia|].
  simpl. unfold nth_draw. destruct i as [|i]; simpl.
  - destruct (random g) as [v g1]. now destruct (uniform_fill n g1).
  - specialize (IH (snd (random g)) i ltac:(lia)).
    destruct (random g) as [v g1]. simpl in *.
    now destruct (uniform_fill n g1).
Qed.

(** Rows filled one after the other by a [fill] that takes [m] draws. *)
Lemma fill_rows_skip {R} (fill : gen -> R * gen) m n g :
  (forall g', snd (fill g') = skip m g') -> snd (fill_rows fill n g) = skip (n * m) g.
Proof.
  intros Hm. revert g. induction n as [|n IH]; intros g; simpl; [reflexivity|].
  rewrite skip_add, <- Hm, <- IH.
  destruct (fill g) as [r g1]. simpl. now destruct (fill_rows fill n g1).
Qed.

Lemma lookup_fill_rows {R} (fill : gen -> R * gen) m n g i :
  (forall g', snd (fill g') = skip m g') -> (i < n)%nat ->
  fst (fill_rows fill n g) !! i = Some (fst (fill (skip (i * m) g))).
Proof.
  intros Hm. revert g i. induction n as [|n IH]; intros g i Hi; [lia|].
  simpl. destruct i as [|i]; simpl.
  - destruct (fill g) as [r g1]. now destruct (fill_rows fill n g1).
  - rewrite skip_add, <- Hm. specialize (IH (snd (fill g)) i ltac:(lia)).
    destruct (fill g) as [r g1]. simpl in *. now destruct (fill_rows fill n g1).
Qed.

(** [torch.rand(n, m)] takes its draws row by row. *)
Lemma lookup_rand2 n m g i t :
  (i < n)%nat -> (t < m)%nat ->
  row_at (fst (fill_rows (uniform_fill m) n g)) i t
  = Some (uniform_real (nth_draw g (i * m + t))).
Proof.
  intros Hi Ht. unfold row_at.
  rewrite (lookup_fill_rows _ m) by (auto using uniform_fill_skip).
  rewrite lookup_uniform_fill by exact Ht. now rewrite nth_draw_skip.
Qed.

Lemma rand2_skip n m g : snd (fill_rows (uniform_fill m) n g) = skip (n * m) g.
Proof. apply fill_rows_skip, uniform_fill_skip. Qed.

(** [torch.rand(n, m, k)] likewise, the last index running fastest. *)
Lemma rand3_skip n m k g :
  snd (fill_rows (fill_rows (uniform_fill k) m) n g) = skip (n * (m * k)) g.
Proof. apply fill_rows_skip. intros g'. apply rand2_skip. Qed.

Lemma lookup_rand3 n m k g i t c :
  (i < n)%nat -> (t < m)%nat -> (c < k)%nat ->
  get3 (Tensor3 (n, m, k) (fst (fill_rows (fill_rows (uniform_fill k) m) n g))) i t c
  = Some (uniform_real (nth_draw g (i * (m * k) + t * k + c))).
Proof.
  intros Hi Ht Hc. unfold get3. cbn [data3].
  rewrite (lookup_fill_rows _ (m * k)) by (auto using rand2_skip).
  rewrite lookup_rand2 by assumption. rewrite nth_draw_skip.
  do 3 f_equal. lia.
Qed.
End Stream.

(** Two draws with the same number, written differently. *)
Ltac same_draw :=
  try reflexivity;
  match goal with
  | |- context [nth_draw ?g ?a] =>
      match goal with
      | |- context [nth_draw g ?b] =>
          lazymatch a with
          | b => fail
          | _ => replace a with b by lia
          end
      end
  end;
  reflexivity.

(** ** The shape of what is returned *)

Section Shape.
Context {A : Arith} {G : Generator}.

(** [x] has the extents [(d0, d1, d2)]: its shape says so, its data fits,
    and it has an element exactly at the indices within the extents. *)
Definition has_extents (x : tensor3) (d0 d1 d2 : nat) : Prop :=
  shape3 x = (d0, d1, d2) /\ wf3 x /\
  forall i t c, is_Some (get3 x i t c) <-> (i < d0 /\ t < d1 /\ c < d2)%nat.

Lemma wf3_has_extents x d0 d1 d2 : shape3 x = (d0, d1, d2) -> wf3 x -> has_extents x d0 d1 d2.
Proof.
  intros Hs Hwf. split; [exact Hs|]. split; [exact Hwf|]. intros i t c. split.
  - intros H. pose proof (wf3_get3_inv x i t c Hwf H) as Hb. now rewrite Hs in Hb.
  - intros (Hi & Ht & Hc). apply wf3_get3; [exact Hwf | rewrite Hs; simpl; assumption ..].
Qed.

Context {R : Trig A}.

(** X1 (shape invariant).  Whenever a simulator returns, the extents asked
    for were not negative and the buffer is [numICs] trajectories of [T]
    rows of 3 entries (6 for the arm): every index within these extents
    holds an element and no other does.  This includes the buffers
    without elements returned for [numICs = 0] or [T = 0]. *)
Theorem returned_extents :
  (forall x1range x2range numICs mu lam T dt seed w xuk,
      fst (generate_data x1range x2range numICs mu lam T dt seed w) = Ok xuk ->
      0 <= numICs /\ 0 <= T /\ has_extents xuk (Z.to_nat numICs) (Z.to_nat T) 3) /\
  (forall x1range x2range numICs mu lam T_step dt seed w xuk,
      fst (generate_data_unforced x1range x2range numICs mu lam T_step dt seed w) = Ok xuk ->
      0 <= numICs /\ 0 <= T_step /\ has_extents xuk (Z.to_nat numICs) (Z.to_nat T_step) 3) /\
  (forall q1r q2r dq1r dq2r numICs T dt seed tau_max m1 m2 l1 l2 g0 w data,
      fst (generate_two_link_data q1r q2r dq1r dq2r numICs T dt seed
             tau_max m1 m2 l1 l2 g0 w) = Ok data ->
      0 <= numICs /\ 0 <= T /\ has_extents data (Z.to_nat numICs) (Z.to_nat T) 6).
Proof.
  split; [|split].
  - intros x1range x2range numICs mu lam T dt seed w xuk H.
    apply generate_data_returns in H as [Ha ->].
    destruct (accepted_nat _ _ _ Ha) as (_ & Hn & HT).
    split; [lia|]. split; [lia|].
    apply wf3_has_extents; [apply osc_final_shape | apply osc_final_wf].
  - intros x1range x2range numICs mu lam T dt seed w xuk H.
    apply generate_data_unforced_returns in H as [Ha ->].
    destruct (accepted_nat _ _ _ Ha) as (_ & Hn & HT).
    split; [lia|]. split; [lia|].
    apply wf3_has_extents; [apply osc_final_shape | apply osc_final_wf].
  - intros q1r q2r dq1r dq2r numICs T dt seed tau_max m1 m2 l1 l2 g0 w data H.
    apply generate_two_link_data_returns in H as (Ha & sq & _ & ->).
    destruct (accepted_nat _ _ _ Ha) as (_ & Hn & HT).
    split; [lia|]. split; [lia|].
    apply wf3_has_extents; [apply arm_final_shape | apply arm_final_wf].
Qed.
End Shape.

(** ** The order of the draws *)

Section DrawOrder.
Context {A : Arith} {G : Generator}.

Lemma draw_u_skip seed n T : snd (draw_u seed n T) = skip (2 * n + n * T) (seeded seed).
Proof.
  unfold draw_u, draw_x2, draw_x1.
  rewrite rand2_skip, !uniform_fill_skip, <- !skip_add. f_equal. lia.
Qed.

Lemma control_draw ctl seed n T i t :
  (i < n)%nat -> (t < T)%nat ->
  get2 (control ctl seed n T) i t
  = Some (ctl (uniform_real (nth_draw (seeded seed) (2 * n + i * T + t)))).
Proof.
  intros Hi Ht. unfold control. rewrite get2_map2. unfold get2. cbn [data2].
  unfold draw_u, draw_x2, draw_x1.
  rewrite lookup_rand2 by assumption.
  rewrite !uniform_fill_skip, <- skip_add, nth_draw_skip. simpl.
  same_draw.
Qed.

(** The value [(r[1] - r[0]) * d + r[0]] for the uniform draw [d] made from
    the raw draw number [k]. *)
Definition start_of (g : gen) (r : py * py) (k : nat) : elt :=
  elt_add (elt_mul (uniform_real (nth_draw g k)) (cast (py_sub (snd r) (fst r))))
    (cast (fst r)).

Lemma start_x1_draw r seed n i :
  (i < n)%nat -> start_x1 r seed n !! i = Some (start_of (seeded seed) r i).
Proof.
  intros Hi. unfold start_x1, draw_x1. apply lookup_initial.
  now apply lookup_uniform_fill.
Qed.

Lemma start_x2_draw r seed n i :
  (i < n)%nat -> start_x2 r seed n !! i = Some (start_of (seeded seed) r (n + i)).
Proof.
  intros Hi. unfold start_x2, draw_x2, draw_x1. apply lookup_initial.
  rewrite lookup_uniform_fill by exact Hi.
  now rewrite uniform_fill_skip, nth_draw_skip.
Qed.

Lemma osc_final_draws ctl x1range x2range mu lam dt seed n T i t :
  (i < n)%nat -> (t < T)%nat ->
  let xuk := osc_final ctl x1range x2range mu lam dt seed n T in
  get3 xuk i 0 0 = Some (start_of (seeded seed) x1range i) /\
  get3 xuk i 0 1 = Some (start_of (seeded seed) x2range (n + i)) /\
  get3 xuk i t 2
  = Some (ctl (uniform_real (nth_draw (seeded seed) (2 * n + i * T + t)))).
Proof.
  intros Hi Ht xuk.
  destruct (get3_osc_final ctl x1range x2range mu lam dt seed n T i 0 Hi ltac:(lia))
    as (H0 & H1 & _).
  destruct (get3_osc_final ctl x1range x2range mu lam dt seed n T i t Hi Ht)
    as (_ & _ & H2).
  unfold xuk. rewrite H0, H1, H2.
  split; [now apply start_x1_draw|]. split; [now apply start_x2_draw|].
  now apply control_draw.
Qed.

(** X4 (order of the draws, oscillator).  After the seeding,
    [generate_data] and [generate_data_unforced] take [2 * n + n * T] draws
    from the generator, in this order: the [n] initial values of x1, the
    [n] initial values of x2, then the control signal row by row, so
    that trajectory [i] gets the draws number [i], [n + i] and, for step
    [t], [2 * n + i * T + t].  The unforced variant takes the same draws
    for its control signal and multiplies them by [0]; both leave the
    generator in the same state. *)
Theorem oscillator_draw_order x1range x2range (n : nat) mu lam (T : nat) dt seed w :
  seed_ok seed = true ->
  let g := seed_gen (seed mod 2 ^ 64) in
  exists xuk xuk0,
    generate_data x1range x2range (Z.of_nat n) mu lam (Z.of_nat T) dt seed w
    = (Ok xuk, World (skip (2 * n + n * T) g) (stdout w)) /\
    generate_data_unforced x1range x2range (Z.of_nat n) mu lam (Z.of_nat T) dt seed w
    = (Ok xuk0, World (skip (2 * n + n * T) g) (stdout w)) /\
    forall i t, (i < n)%nat -> (t < T)%nat ->
      get3 xuk i 0 0 = Some (start_of g x1range i) /\
      get3 xuk i 0 1 = Some (start_of g x2range (n + i)) /\
      get3 xuk i t 2
      = Some (elt_sub (uniform_real (nth_draw g (2 * n + i * T + t))) (cast (py_lit 5 1))) /\
      get3 xuk0 i 0 0 = Some (start_of g x1range i) /\
      get3 xuk0 i 0 1 = Some (start_of g x2range (n + i)) /\
      get3 xuk0 i t 2
      = Some (elt_mul (uniform_real (nth_draw g (2 * n + i * T + t))) (cast (py_lit 0 0))).
Proof.
  intros Hs g.
  exists (osc_final forced x1range x2range mu lam dt seed n T),
         (osc_final unforced x1range x2range mu lam dt seed n T).
  rewrite generate_data_run, generate_data_unforced_run by exact Hs.
  rewrite draw_u_skip. split; [reflexivity|]. split; [reflexivity|].
  intros i t Hi Ht.
  destruct (osc_final_draws forced x1range x2range mu lam dt seed n T i t Hi Ht)
    as (F0 & F1 & F2).
  destruct (osc_final_draws unforced x1range x2range mu lam dt seed n T i t Hi Ht)
    as (U0 & U1 & U2).
  repeat split; assumption.
Qed.
End DrawOrder.

Section ArmDrawOrder.
Context {A : Arith} {G : Generator} {R : Trig A}.
Variables (q1r q2r dq1r dq2r : py * py).
Variables (dt : py) (seed : Z) (tau_max m1 m2 l1 l2 g0 : py) (sq : squares) (n T : nat).

Lemma draw_tau_skip :
  snd (draw_tau seed n T) = skip (4 * n + n * (T * 2)) (seeded seed).
Proof.
  unfold draw_tau, draw_dq2, draw_dq1, draw_q2, draw_q1.
  rewrite rand3_skip, !uniform_fill_skip, <- !skip_add. f_equal. lia.
Qed.

Lemma torque_draw i t c :
  (i < n)%nat -> (t < T)%nat -> (c < 2)%nat ->
  get3 (torque seed tau_max n T) i t c
  = Some (scale_torque tau_max
            (uniform_real (nth_draw (seeded seed) (4 * n + i * (T * 2) + t * 2 + c)))).
Proof.
  intros Hi Ht Hc. unfold torque. rewrite get3_map3.
  unfold draw_tau, draw_dq2, draw_dq1, draw_q2, draw_q1.
  rewrite lookup_rand3 by assumption.
  rewrite !uniform_fill_skip, <- !skip_add, nth_draw_skip. simpl.
  same_draw.
Qed.

Lemma arm_start_draw i :
  (i < n)%nat ->
  at_traj (arm_traj q1r q2r dq1r dq2r dt seed tau_max m1 m2 l1 l2 g0 sq n T 0) i
  = Some (start_of (seeded seed) q1r i, start_of (seeded seed) q2r (n + i),
          start_of (seeded seed) dq1r (2 * n + i), start_of (seeded seed) dq2r (3 * n + i)).
Proof.
  intros Hi. unfold arm_traj, arm_start. cbn [arm_at].
  apply at_traj_intro; unfold draw_dq2, draw_dq1, draw_q2, draw_q1;
    apply lookup_initial; rewrite lookup_uniform_fill by exact Hi;
    rewrite ?uniform_fill_skip, <- ?skip_add, ?nth_draw_skip;
    same_draw.
Qed.
End ArmDrawOrder.

(** ** Calls that raise *)

Section Refusals.
Context {A : Arith} {G : Generator}.

Lemma rand1_neg n w : n < 0 -> rand1 n w = (Raise RuntimeError, w).
Proof. intros H. unfold rand1. now rewrite check_size_neg. Qed.

Lemma rand2_neg (n : nat) T w : T < 0 -> rand2 (Z.of_nat n) T w = (Raise RuntimeError, w).
Proof. intros H. unfold rand2. now rewrite check_size_nat, check_size_neg. Qed.

(** X2 (refused calls of the oscillator simulators).  Which calls raise,
    and what every call leaves behind.  A seed outside [-2^63, 2^64) is
    refused by [manual_seed] with [ValueError] before anything happens:
    the world is as before the call.  With an accepted seed a negative
    [numICs] is refused by the first [torch.rand] and a negative horizon
    by the third: the call raises [RuntimeError] but the global generator
    has been reseeded and, in the second case, has given the
    [2 * numICs] draws of the initial conditions.  Every other call
    returns a buffer, with the generator [2 * numICs + numICs * T] draws
    after the seeding.  Standard output is the same after the call as
    before, in every case. *)
Theorem oscillator_refusals x1range x2range numICs mu lam T dt seed w :
  let g := seed_gen (seed mod 2 ^ 64) in
  let n := Z.to_nat numICs in
  let forced_call := generate_data x1range x2range numICs mu lam T dt seed w in
  let unforced_call := generate_data_unforced x1range x2range numICs mu lam T dt seed w in
  (seed_ok seed = false ->
   forced_call = (Raise ValueError, w) /\ unforced_call = (Raise ValueError, w)) /\
  (seed_ok seed = true -> numICs < 0 ->
   forced_call = (Raise RuntimeError, World g (stdout w)) /\
   unforced_call = (Raise RuntimeError, World g (stdout w))) /\
  (seed_ok seed = true -> 0 <= numICs -> T < 0 ->
   forced_call = (Raise RuntimeError, World (skip (2 * n) g) (stdout w)) /\
   unforced_call = (Raise RuntimeError, World (skip (2 * n) g) (stdout w))) /\
  (seed_ok seed = true -> 0 <= numICs -> 0 <= T ->
   exists xuk xuk0,
     forced_call = (Ok xuk, World (skip (2 * n + n * Z.to_nat T) g) (stdout w)) /\
     unforced_call = (Ok xuk0, World (skip (2 * n + n * Z.to_nat T) g) (stdout w))).
Proof.
  intros g n forced_call unforced_call. subst g n forced_call unforced_call.
  set (g := seed_gen (seed mod 2 ^ 64)).
  split; [|split; [|split]].
  - intros Hs. unfold generate_data, generate_data_unforced.
    rewrite !manual_seed_bind, Hs. split; reflexivity.
  - intros Hs Hn. unfold generate_data, generate_data_unforced.
    rewrite !manual_seed_bind, Hs. fold g.
    split; unfold bind at 1; now rewrite rand1_neg by exact Hn.
  - intros Hs Hn HT. apply Z_of_nat_complete in Hn as [n ->]. rewrite Nat2Z.id.
    assert (Hg : snd (uniform_fill n (snd (uniform_fill n g))) = skip (2 * n) g).
    { rewrite !uniform_fill_skip, <- skip_add. f_equal. lia. }
    unfold generate_data, generate_data_unforced.
    rewrite !manual_seed_bind, Hs. fold g.
    split.
    + unfold bind at 1. rewrite rand1_nat. cbn [rng stdout].
      unfold bind at 1. rewrite rand1_nat. cbn [rng stdout].
      unfold bind at 1. rewrite rand2_neg by exact HT. now rewrite Hg.
    + unfold bind at 1. rewrite rand1_nat. cbn [rng stdout].
      unfold bind at 1. rewrite rand1_nat. cbn [rng stdout].
      unfold bind at 1. rewrite rand2_neg by exact HT. now rewrite Hg.
  - intros Hs Hn HT.
    apply Z_of_nat_complete in Hn as [n ->]. apply Z_of_nat_complete in HT as [T' ->].
    rewrite generate_data_run, generate_data_unforced_run by exact Hs.
    rewrite !Nat2Z.id, draw_u_skip. eauto.
Qed.

Context {R : Trig A}.

(** X3 (calls of the arm simulator that raise).  A seed outside
    [-2^63, 2^64) is refused with [ValueError], the world untouched.  With
    an accepted seed the generator is reseeded, and then: a square
    [(l1 / 2) ** 2] or [(l2 / 2) ** 2] that overflows raises before
    anything is printed or drawn.  Otherwise the line is printed, and it
    is on standard output however the call ends: a negative [numICs] is
    refused by the first [torch.rand] (no draw taken), a negative horizon
    by the fifth (after the [4 * numICs] draws of the initial
    conditions), both with [RuntimeError]; with a positive horizon a
    square [l1 ** 2] that overflows raises in the first iteration of the
    loop, after all the draws; every other call returns a buffer. *)
Theorem arm_refusals q1r q2r dq1r dq2r numICs T dt seed tau_max m1 m2 l1 l2 g0 w :
  let g := seed_gen (seed mod 2 ^ 64) in
  let n := Z.to_nat numICs in
  let lc1_sq := py_sq (py_div l1 (py_lit 2 0)) in
  let lc2_sq := py_sq (py_div l2 (py_lit 2 0)) in
  let call :=
    generate_two_link_data q1r q2r dq1r dq2r numICs T dt seed tau_max m1 m2 l1 l2 g0 w in
  (seed_ok seed = false -> call = (Raise ValueError, w)) /\
  (seed_ok seed = true ->
   forall e, lc1_sq = Raise e \/ ((exists a, lc1_sq = Ok a) /\ lc2_sq = Raise e) ->
   call = (Raise e, World g (stdout w))) /\
  (seed_ok seed = true ->
   forall a b, lc1_sq = Ok a -> lc2_sq = Ok b ->
   let out := stdout w ++ [inertia_line (py_mul m1 a) (py_mul m2 b)] in
   (numICs < 0 -> call = (Raise RuntimeError, World g out)) /\
   (0 <= numICs -> T < 0 -> call = (Raise RuntimeError, World (skip (4 * n) g) out)) /\
   (0 <= numICs -> 0 < T ->
    forall e, py_sq l1 = Raise e ->
    call = (Raise e, World (skip (4 * n + n * (Z.to_nat T * 2)) g) out)) /\
   (0 <= numICs -> 0 <= T -> (0 < T -> exists c, py_sq l1 = Ok c) ->
    exists data,
      call = (Ok data, World (skip (4 * n + n * (Z.to_nat T * 2)) g) out))).
Proof.
  intros g n lc1_sq lc2_sq call. subst g n lc1_sq lc2_sq call.
  set (g := seed_gen (seed mod 2 ^ 64)).
  split; [|split].
  - intros Hs. now apply arm_seed_refused.
  - intros Hs e He. now apply arm_inertia_raises.
  - intros Hs a b H1 H2 out. split; [|split; [|split]].
    + intros Hn. now apply arm_count_refused.
    + intros Hn HT. apply Z_of_nat_complete in Hn as [n ->]. rewrite Nat2Z.id.
      rewrite (arm_horizon_refused _ _ _ _ _ _ _ _ _ _ _ _ _ _ a b) by assumption.
      unfold draw_dq2, draw_dq1, draw_q2, draw_q1.
      rewrite !uniform_fill_skip, <- !skip_add.
      do 3 f_equal. lia.
    + intros Hn HT e He.
      apply Z_of_nat_complete in Hn as [n ->].
      destruct (Z_of_nat_complete T ltac:(lia)) as [T' ->]. rewrite !Nat2Z.id.
      rewrite (generate_two_link_data_overflow _ _ _ _ _ _ _ _ _ _ _ _ (Squares a a b)
                 _ _ e) by (assumption || lia).
      now rewrite draw_tau_skip.
    + intros Hn HT Hc.
      apply Z_of_nat_complete in Hn as [n ->]. apply Z_of_nat_complete in HT as [T' ->].
      rewrite !Nat2Z.id.
      destruct (Nat.eq_dec T' 0%nat) as [E|E].
      * eexists.
        rewrite (generate_two_link_data_run _ _ _ _ _ _ _ _ _ _ _ _ (Squares a a b))
          by (assumption || (intros; lia)).
        now rewrite draw_tau_skip.
      * destruct Hc as [c Hc]; [lia|]. eexists.
        rewrite (generate_two_link_data_run _ _ _ _ _ _ _ _ _ _ _ _ (Squares a c b))
          by (assumption || (intros; assumption)).
        now rewrite draw_tau_skip.
Qed.
End Refusals.

Section ArmDraws.
Context {A : Arith} {G : Generator} {R : Trig A}.

(** X5 (order of the draws, arm).  In a call with an accepted seed in
    which no square overflows, [generate_two_link_data] takes, after the
    seeding, [4 * n + n * T * 2] draws: the [n] initial values of q1, of
    q2, of dq1 and of dq2, in this order, then the torques trajectory by
    trajectory and step by step, the two joints of a step next to each
    other.  Trajectory [i] starts from the draws number [i], [n + i],
    [2 * n + i] and [3 * n + i]; its torques at step [t] come from the
    draws number [4 * n + i * T * 2 + t * 2] and the next one, as
    [(d - 0.5) * 2 * tau_max]. *)
Theorem arm_draw_order q1r q2r dq1r dq2r (n T : nat) dt seed tau_max m1 m2 l1 l2 g0 sq w :
  seed_ok seed = true ->
  squares_of l1 l2 T sq ->
  let g := seed_gen (seed mod 2 ^ 64) in
  let tau k :=
    elt_mul (elt_mul (elt_sub (uniform_real (nth_draw g k)) (cast (py_lit 5 1)))
               (cast (py_lit 2 0)))
      (cast tau_max) in
  let call :=
    generate_two_link_data q1r q2r dq1r dq2r (Z.of_nat n) (Z.of_nat T) dt seed
      tau_max m1 m2 l1 l2 g0 w in
  exists data,
    fst call = Ok data /\
    rng (snd call) = skip (4 * n + n * (T * 2)) g /\
    forall i t, (i < n)%nat -> (t < T)%nat ->
      get3 data i 0 0 = Some (start_of g q1r i) /\
      get3 data i 0 1 = Some (start_of g q2r (n + i)) /\
      get3 data i 0 2 = Some (start_of g dq1r (2 * n + i)) /\
      get3 data i 0 3 = Some (start_of g dq2r (3 * n + i)) /\
      get3 data i t 4 = Some (tau (4 * n + i * (T * 2) + t * 2)%nat) /\
      get3 data i t 5 = Some (tau (4 * n + i * (T * 2) + t * 2 + 1)%nat).
Proof.
  intros Hs (H1 & H2 & H3) g tau call. unfold call.
  exists (arm_final q1r q2r dq1r dq2r dt seed tau_max m1 m2 l1 l2 g0 sq n T).
  rewrite (generate_two_link_data_run _ _ _ _ _ _ _ _ _ _ _ _ sq) by assumption.
  cbn [fst snd rng].
  split; [reflexivity|]. split; [apply draw_tau_skip|].
  intros i t Hi Ht.
  pose proof (arm_start_draw q1r q2r dq1r dq2r dt seed tau_max m1 m2 l1 l2 g0 sq n T i Hi)
    as E0.
  destruct (get3_arm_final_row q1r q2r dq1r dq2r dt seed tau_max m1 m2 l1 l2 g0 sq n T
              i 0 _ Hi ltac:(lia) E0) as (G0 & G1 & G2 & G3 & _).
  destruct (at_traj_is_Some n
              (arm_traj q1r q2r dq1r dq2r dt seed tau_max m1 m2 l1 l2 g0 sq n T t) i)
    as [[[[a b] c] d] Et]; [|exact Hi|].
  { unfold arm_traj, arm_start.
    apply (arm_lengths_at _ _ _ n T);
      first [ reflexivity | apply torque_wf | apply length_initial, length_uniform_fill ]. }
  destruct (get3_arm_final_row q1r q2r dq1r dq2r dt seed tau_max m1 m2 l1 l2 g0 sq n T
              i t _ Hi Ht Et) as (_ & _ & _ & _ & G4 & G5).
  rewrite G4, G5, !torque_draw by (assumption || lia).
  split; [exact G0|]. split; [exact G1|]. split; [exact G2|]. split; [exact G3|].
  split; [|reflexivity].
  unfold scale_torque, tau, g, seeded. same_draw.
Qed.
End ArmDraws.

(** ** The recurrence the returned rows satisfy *)

Section TrajectoryStep.
Context {A : Arith} {G : Generator}.

(** One iteration of the oscillator loop, seen from trajectory [i]. *)
Lemma osc_traj_step ctl x1range x2range mu lam dt seed n T t i x1 x2 up :
  fst (osc_traj ctl x1range x2range mu lam dt seed n T t) !! i = Some x1 ->
  snd (osc_traj ctl x1range x2range mu lam dt seed n T t) !! i = Some x2 ->
  get2 (control ctl seed n T) i (prev T t) = Some up ->
  fst (osc_traj ctl x1range x2range mu lam dt seed n T (S t)) !! i
  = Some (elt_add x1 (elt_add (elt_mul x1 (cast (py_mul dt mu))) (elt_mul up (cast dt)))) /\
  snd (osc_traj ctl x1range x2range mu lam dt seed n T (S t)) !! i
  = Some (elt_add x2 (elt_mul (elt_sub x2 (elt_sq x1)) (cast (py_mul dt lam)))).
Proof.
  intros E1 E2 Eu.
  pose proof (lookup_prev_col (control ctl seed n T) n T t i up
                (control_shape ctl seed n T) Eu) as Ep.
  set (traj := osc_traj ctl x1range x2range mu lam dt seed n T) in *.
  split.
  - change (fst (traj (S t)))
      with (vadd (fst (traj t))
              (vadd (vmul_s (fst (traj t)) (py_mul dt mu))
                 (vmul_s (prev_col (control ctl seed n T) T t) dt))).
    auto with vec.
  - change (snd (traj (S t)))
      with (vadd (snd (traj t))
              (vmul_s (vsub (snd (traj t)) (vsq (fst (traj t)))) (py_mul dt lam))).
    auto with vec.
Qed.
End TrajectoryStep.

Section BufferRecurrence.
Context {A : Arith} {G : Generator}.

(** The row whose control the update after row [t] reads: [t - 1], and the
    last row for [t = 0]. *)
Definition control_row (T t : nat) : nat :=
  match t with
  | O => (T - 1)%nat
  | S t' => t'
  end.

Lemma control_row_prev T t : (t < T)%nat -> control_row T t = prev T t.
Proof.
  intros H. destruct t as [|t]; simpl.
  - now rewrite prev_0 by lia.
  - now rewrite prev_S by lia.
Qed.

Lemma osc_final_recurrence ctl x1range x2range mu lam dt seed n T i t x1 x2 up :
  let xuk := osc_final ctl x1range x2range mu lam dt seed n T in
  (S t < T)%nat ->
  get3 xuk i t 0 = Some x1 -> get3 xuk i t 1 = Some x2 ->
  get3 xuk i (control_row T t) 2 = Some up ->
  get3 xuk i (S t) 0
  = Some (elt_add x1 (elt_add (elt_mul x1 (cast (py_mul dt mu))) (elt_mul up (cast dt)))) /\
  get3 xuk i (S t) 1
  = Some (elt_add x2 (elt_mul (elt_sub x2 (elt_sq x1)) (cast (py_mul dt lam)))).
Proof.
  intros xuk Ht E1 E2 Eu.
  assert (Hi : (i < n)%nat).
  { destruct (wf3_get3_inv xuk i t 0 (osc_final_wf _ _ _ _ _ _ _ _ _) (mk_is_Some _ _ E1))
      as [Hi _].
    unfold xuk in Hi. now rewrite osc_final_shape in Hi. }
  rewrite control_row_prev in Eu by lia.
  destruct (get3_osc_final ctl x1range x2range mu lam dt seed n T i t Hi ltac:(lia))
    as (G0 & G1 & _).
  destruct (get3_osc_final ctl x1range x2range mu lam dt seed n T i (prev T t) Hi
              ltac:(apply prev_lt; lia)) as (_ & _ & G2).
  destruct (get3_osc_final ctl x1range x2range mu lam dt seed n T i (S t) Hi Ht)
    as (N0 & N1 & _).
  fold xuk in G0, G1, G2, N0, N1.
  rewrite G0 in E1. rewrite G1 in E2. rewrite G2 in Eu.
  rewrite N0, N1.
  exact (osc_traj_step ctl x1range x2range mu lam dt seed n T t i x1 x2 up E1 E2 Eu).
Qed.

(** X6 (the rows follow the update).  The rows of a returned buffer are
    linked by the update of the loop, in the forced and in the unforced
    simulator alike: for every trajectory, row [t + 1] holds
    [x1 + (x1 * (dt * mu) + u' * dt)] and [x2 + (x2 - x1^2) * (dt * lam)],
    where [x1] and [x2] are the entries of row [t] and [u'] is the control
    entry (column 2) of row [t - 1], or of the last row when [t = 0].  So
    the control recorded in a row is not the one that moves the state to
    the next row. *)
Theorem rows_follow_the_update :
  (forall x1range x2range numICs mu lam T dt seed w xuk (i t : nat) x1 x2 up,
      fst (generate_data x1range x2range numICs mu lam T dt seed w) = Ok xuk ->
      Z.of_nat (S t) < T ->
      get3 xuk i t 0 = Some x1 -> get3 xuk i t 1 = Some x2 ->
      get3 xuk i (control_row (Z.to_nat T) t) 2 = Some up ->
      get3 xuk i (S t) 0
      = Some (elt_add x1 (elt_add (elt_mul x1 (cast (py_mul dt mu))) (elt_mul up (cast dt))))
      /\
      get3 xuk i (S t) 1
      = Some (elt_add x2 (elt_mul (elt_sub x2 (elt_sq x1)) (cast (py_mul dt lam))))) /\
  (forall x1range x2range numICs mu lam T_step dt seed w xuk (i t : nat) x1 x2 up,
      fst (generate_data_unforced x1range x2range numICs mu lam T_step dt seed w) = Ok xuk ->
      Z.of_nat (S t) < T_step ->
      get3 xuk i t 0 = Some x1 -> get3 xuk i t 1 = Some x2 ->
      get3 xuk i (control_row (Z.to_nat T_step) t) 2 = Some up ->
      get3 xuk i (S t) 0
      = Some (elt_add x1 (elt_add (elt_mul x1 (cast (py_mul dt mu))) (elt_mul up (cast dt))))
      /\
      get3 xuk i (S t) 1
      = Some (elt_add x2 (elt_mul (elt_sub x2 (elt_sq x1)) (cast (py_mul dt lam))))).
Proof.
  split.
  - intros x1range x2range numICs mu lam T dt seed w xuk i t x1 x2 up H Ht E1 E2 Eu.
    apply generate_data_returns in H as [_ ->].
    apply (osc_final_recurrence forced x1range x2range mu lam dt seed
             (Z.to_nat numICs) (Z.to_nat T) i t x1 x2 up); (assumption || lia).
  - intros x1range x2range numICs mu lam T dt seed w xuk i t x1 x2 up H Ht E1 E2 Eu.
    apply generate_data_unforced_returns in H as [_ ->].
    apply (osc_final_recurrence unforced x1range x2range mu lam dt seed
             (Z.to_nat numICs) (Z.to_nat T) i t x1 x2 up); (assumption || lia).
Qed.
End BufferRecurrence.

(** ** The control signal and the torques, in IEEE arithmetic *)

Module IEEEBounds.
Import IEEE IEEEFacts Digits.

(** The number of digits, from bounds. *)
Lemma digits2_pos_eq p d :
  2 ^ (d - 1) <= Z.pos p < 2 ^ d -> 0 < d -> Z.pos (digits2_pos p) = d.
Proof.
  intros [Hlo Hhi] Hd. pose proof (digits2_pos_range p) as [Llo Lhi].
  destruct (Z.lt_trichotomy (Z.pos (digits2_pos p)) d) as [Hlt|[Heq|Hgt]];
    [exfalso | exact Heq | exfalso].
  - assert (2 ^ Z.pos (digits2_pos p) <= 2 ^ (d - 1)) by (apply Z.pow_le_mono_r; lia).
    lia.
  - assert (2 ^ d <= 2 ^ (Z.pos (digits2_pos p) - 1)) by (apply Z.pow_le_mono_r; lia).
    lia.
Qed.

(** Shifting out digits that are all zero loses nothing. *)
Lemma shr_exact p r :
  SpecFloat.iter_pos shr_1 r {| shr_m := Z.pos (Pos.iter xO p r); shr_r := false; shr_s := false |}
  = {| shr_m := Z.pos p; shr_r := false; shr_s := false |}.
Proof.
  rewrite iter_pos_iter. induction r as [|r IH] using Pos.peano_ind.
  - reflexivity.
  - rewrite Pos.iter_succ_r, Pos.iter_succ. simpl shr_1. exact IH.
Qed.

(** A mantissa of 24 digits followed by [r] zeros is rounded to the 24
    digits, exactly. *)
Lemma binary_round_aux_shifted s p r e :
  Z.pos (digits2_pos p) = 24 -> -149 <= e + Z.pos r <= 104 ->
  binary_round_aux 24 128 s (Z.pos (Pos.iter xO p r)) e loc_Exact
  = S754_finite s p (e + Z.pos r).
Proof.
  intros Hd He. unfold binary_round_aux, shr_fexp, fexp, emin. cbn [Zdigits2].
  rewrite digits2_pos_iter_xO, Pos2Z.inj_add, Hd.
  replace (Z.max (24 + Z.pos r + e - 24) (3 - 128 - 24) - e) with (Z.pos r) by lia.
  cbn [shr shr_record_of_loc]. rewrite shr_exact.
  cbn [shr_m loc_of_shr_record round_nearest_even Zdigits2]. rewrite Hd.
  replace (Z.max (24 + (e + Z.pos r) - 24) (3 - 128 - 24) - (e + Z.pos r)) with 0 by lia.
  cbn [shr shr_record_of_loc shr_m].
  destruct (Z.leb_spec (e + Z.pos r) (128 - 24)); [reflexivity | lia].
Qed.

(** A number below [2^23] units of [2^-24], written with [s] more zero
    digits: rounding gives it exactly, normalised to 24 digits, with an
    exponent below that of [0.5]. *)
Lemma binary_round_below_half sgn (j mx : positive) (s : Z) :
  0 <= s -> Z.pos mx = Z.pos j * 2 ^ s -> Z.pos j < 2 ^ 23 ->
  exists m e,
    binary_round 24 128 sgn mx (-24 - s) = S754_finite sgn m e /\
    Z.pos (digits2_pos m) = 24 /\ -47 <= e <= -25.
Proof.
  intros Hs Hmx Hj.
  pose proof (digits2_pos_range j) as [Jlo Jhi].
  set (dj := Z.pos (digits2_pos j)) in *.
  assert (Hdj : 0 < dj <= 23).
  { split; [unfold dj; lia|]. apply digits2_pos_bound; [exact Hj | lia]. }
  assert (Hdmx : Z.pos (digits2_pos mx) = dj + s).
  { apply digits2_pos_eq; [|lia]. rewrite Hmx.
    replace (dj + s - 1) with ((dj - 1) + s) by lia.
    rewrite !Z.pow_add_r by lia.
    assert (0 < 2 ^ s) by (apply Z.pow_pos_nonneg; lia). nia. }
  unfold binary_round, fexp, emin. rewrite Hdmx.
  replace (Z.max (dj + s + (-24 - s) - 24) (3 - 128 - 24)) with (dj - 48) by lia.
  unfold shl_align.
  destruct (dj - 48 - (-24 - s)) as [|r|q] eqn:Ed.
  - exists mx, (-24 - s). split; [|lia]. apply binary_round_aux_exact; lia.
  - set (p := Pos.iter xO j (Z.to_pos (24 - dj))).
    assert (Hp : Z.pos p = Z.pos j * 2 ^ (24 - dj)).
    { unfold p. rewrite pos_iter_xO, Z2Pos.id by lia. reflexivity. }
    assert (Hdp : Z.pos (digits2_pos p) = 24).
    { unfold p. rewrite digits2_pos_iter_xO, Pos2Z.inj_add, Z2Pos.id by lia.
      fold dj. lia. }
    assert (Emx : mx = Pos.iter xO p r).
    { apply Pos2Z.inj. rewrite pos_iter_xO, Hp, Hmx, <- Z.mul_assoc, <- Z.pow_add_r by lia.
      do 2 f_equal. lia. }
    exists p, (dj - 48). split; [|split; [exact Hdp | lia]].
    rewrite Emx, binary_round_aux_shifted by (assumption || lia). f_equal. lia.
  - exists (Pos.iter xO mx q), (dj - 48).
    assert (Hd : Z.pos (digits2_pos (Pos.iter xO mx q)) = 24).
    { rewrite digits2_pos_iter_xO. lia. }
    split; [|split; [exact Hd | lia]].
    apply binary_round_aux_exact; [exact Hd | lia].
Qed.

(** [0.5] as a float32. *)
Definition half32 : elt := cast (py_lit 5 1).

Lemma half32_eq : half32 = S754_finite false 8388608 (-24).
Proof. vm_compute. reflexivity. Qed.

(** A uniform draw, digit by digit: [+0], or [k * 2^-24] for the 24 low
    bits [k] of the raw draw, normalised to 24 digits by [s] zeros. *)
Lemma uniform_shape v :
  uniform v = S754_zero false \/
  exists k p s, 0 <= s <= 23 /\ Z.pos p = Z.pos k * 2 ^ s /\ 2 ^ 23 <= Z.pos p < 2 ^ 24 /\
                uniform v = S754_finite false p (-24 - s).
Proof.
  unfold uniform, binary_normalize.
  assert (Hk : 0 <= Z.land v (2 ^ 24 - 1) < 2 ^ 24).
  { change (2 ^ 24 - 1) with (Z.ones 24). rewrite Z.land_ones by lia.
    apply Z.mod_pos_bound. lia. }
  destruct (Z.land v (2 ^ 24 - 1)) as [|k|k]; [now left | right | lia].
  pose proof (digits2_pos_range k) as [Klo Khi].
  pose proof (digits2_pos_bound k 24 (proj2 Hk) ltac:(lia)) as Hd.
  set (d := Z.pos (digits2_pos k)) in *.
  assert (0 < d) by (unfold d; lia).
  unfold binary_round, fexp, emin. fold d.
  replace (Z.max (d + -24 - 24) (3 - 128 - 24)) with (d - 48) by lia.
  unfold shl_align.
  destruct (d - 48 - -24) as [|q|q] eqn:Eq; [|lia|].
  - exists k, k, 0. assert (Hd24 : d = 24) by lia.
    split; [lia|]. split; [simpl; lia|].
    split; [rewrite Hd24 in Klo, Khi; simpl in Klo; lia|].
    apply binary_round_aux_exact; [exact Hd24 | lia].
  - exists k, (Pos.iter xO k q), (24 - d).
    assert (Hq : Z.pos q = 24 - d) by lia.
    split; [lia|]. split; [now rewrite pos_iter_xO, Hq|]. split.
    + rewrite pos_iter_xO, Hq.
      assert (E1 : 2 ^ 23 = 2 ^ (d - 1) * 2 ^ (24 - d)).
      { rewrite <- Z.pow_add_r by lia. f_equal. lia. }
      assert (E2 : 2 ^ 24 = 2 ^ d * 2 ^ (24 - d)).
      { rewrite <- Z.pow_add_r by lia. f_equal. lia. }
      assert (0 < 2 ^ (24 - d)) by (apply Z.pow_pos_nonneg; lia).
      rewrite E1, E2. nia.
    + replace (-24 - (24 - d)) with (d - 48) by lia.
      apply binary_round_aux_exact; [|lia].
      rewrite digits2_pos_iter_xO. fold d. lia.
Qed.

Lemma shl_align_same m e : shl_align m e e = (m, e).
Proof. unfold shl_align. now rewrite Z.sub_diag. Qed.

(** A draw minus [0.5] is computed exactly: it is [+0], [-0.5], or a
    number of 24 digits with an exponent below that of [0.5]. *)
Lemma forced_uniform_shape v :
  forced (uniform_real v) = S754_zero false \/
  forced (uniform_real v) = S754_finite true 8388608 (-24) \/
  exists s m e,
    forced (uniform_real v) = S754_finite s m e /\
    Z.pos (digits2_pos m) = 24 /\ -47 <= e <= -25.
Proof.
  change (forced (uniform_real v)) with (SFsub 24 128 (uniform v) half32).
  rewrite half32_eq.
  destruct (uniform_shape v) as [->|(k & p & s & Hs & Hpk & Hp & ->)];
    [right; left; reflexivity|].
  unfold SFsub. replace (Z.min (-24 - s) (-24)) with (-24 - s) by lia.
  cbn [cond_Zopp]. rewrite shl_align_same. cbn [fst].
  unfold shl_align.
  destruct s as [|s|s]; [| |lia].
  - change (-24 - 0 - -24) with 0. cbn [fst].
    destruct (Z.pos p - 8388608) as [|j|j] eqn:Ej;
      [left; reflexivity | | simpl in Hp; lia].
    destruct (binary_round_below_half false j j 0) as (m & e & E & Hd & He);
      [lia | simpl; lia | simpl in Hp |- *; lia |].
    right; right. exists false, m, e.
    unfold binary_normalize. change (-24 - 0) with (-24) in *. auto.
  - replace (-24 - Z.pos s - -24) with (Z.neg s) by lia. cbn [fst].
    assert (H2s : 0 < 2 ^ Z.pos s) by (apply Z.pow_pos_nonneg; lia).
    assert (H2s' : 2 <= 2 ^ Z.pos s).
    { change 2 with (2 ^ 1) at 1. apply Z.pow_le_mono_r; lia. }
    assert (Hk : Z.pos k < 2 ^ 23).
    { change (2 ^ 24) with (2 ^ 23 * 2) in Hp. change (2 ^ 23) with 8388608 in *. nia. }
    destruct (Z.pos p - Z.pos (Pos.iter xO 8388608%positive s)) as [|q|q] eqn:Eq.
    + rewrite pos_iter_xO in Eq. change (2 ^ 23) with 8388608 in *. nia.
    + rewrite pos_iter_xO in Eq. change (2 ^ 23) with 8388608 in *. nia.
    + destruct (binary_round_below_half true (Z.to_pos (8388608 - Z.pos k)) q (Z.pos s))
        as (m & e & E & Hd & He).
      * lia.
      * rewrite pos_iter_xO in Eq. change (2 ^ 23) with 8388608 in *.
        rewrite Z2Pos.id by lia. nia.
      * change (2 ^ 23) with 8388608 in *. rewrite Z2Pos.id by lia. lia.
      * right; right. exists true, m, e. unfold binary_normalize. auto.
Qed.

(** It lies in [[-0.5, 0.5)]. *)
Lemma forced_uniform_range v :
  SFleb (SFopp half32) (forced (uniform_real v)) = true /\
  SFltb (forced (uniform_real v)) half32 = true.
Proof.
  rewrite half32_eq.
  destruct (forced_uniform_shape v) as [->|[->|(s & m & e & -> & _ & He)]];
    [split; reflexivity | split; reflexivity |].
  unfold SFleb, SFltb. cbn [SFcompare SFopp negb].
  destruct s.
  - destruct (Z.compare_spec (-24) e); [lia | lia | split; reflexivity].
  - destruct (Z.compare_spec e (-24)); [lia | split; reflexivity | lia].
Qed.

(** Twice such a number is computed exactly too: a zero or a finite
    number. *)
Lemma twice_forced_uniform v :
  exists s,
    elt_mul (forced (uniform_real v)) (cast (py_lit 2 0)) = S754_zero s \/
    exists m e, elt_mul (forced (uniform_real v)) (cast (py_lit 2 0)) = S754_finite s m e.
Proof.
  change (cast (py_lit 2 0)) with (to_b32 (lit 2 0)).
  replace (to_b32 (lit 2 0)) with (S754_finite false 8388608 (-22))
    by (vm_compute; reflexivity).
  cbn [elt_mul arith].
  assert (Hshift : forall m, (m * 8388608)%positive = Pos.iter xO m 23).
  { intros m. apply Pos2Z.inj. rewrite pos_iter_xO, Pos2Z.inj_mul. reflexivity. }
  destruct (forced_uniform_shape v) as [->|[->|(s & m & e & -> & Hd & He)]].
  - exists false. left. reflexivity.
  - exists true. right. exists 8388608%positive, (-23). vm_compute. reflexivity.
  - exists s. right. exists m, (e + -22 + 23).
    cbn [SFmul]. rewrite xorb_false_r, Hshift.
    apply binary_round_aux_shifted; [exact Hd | lia].
Qed.
End IEEEBounds.

Section ControlRange.
Context {G : Generator}.
Import IEEE IEEEBounds.

(** X7 (range of the control signal, float32).  With IEEE arithmetic,
    every entry of the third column of a buffer returned by
    [generate_data] is a float32 [u] with [-0.5 <= u < 0.5], in the
    comparisons of floating-point numbers: the draw is a multiple of
    [2^-24] in [[0, 1)], and the subtraction of [0.5] does not round.  In
    particular no control value is infinite or NaN, and [0.5] itself
    never occurs. *)
Theorem control_in_half_open_range x1range x2range numICs mu lam T dt seed w xuk
    (i t : nat) :
  fst (generate_data x1range x2range numICs mu lam T dt seed w) = Ok xuk ->
  Z.of_nat i < numICs -> Z.of_nat t < T ->
  exists u,
    get3 xuk i t 2 = Some u /\
    SFleb (SFopp half32) u = true /\ SFltb u half32 = true.
Proof.
  intros H Hi Ht. apply generate_data_returns in H as [_ ->].
  destruct (get3_osc_final (A := arith) forced x1range x2range mu lam dt seed
              (Z.to_nat numICs) (Z.to_nat T) i t) as (_ & _ & H2); [lia | lia |].
  destruct (wf2_get2 (control forced seed (Z.to_nat numICs) (Z.to_nat T)) i t)
    as [u Eu]; [apply control_wf | simpl; lia | simpl; lia |].
  exists u. split; [now rewrite H2|].
  destruct (get2_control _ _ _ _ _ _ _ Eu) as [v ->].
  apply forced_uniform_range.
Qed.
End ControlRange.

Section ZeroTorque.
Context {G : Generator} {R : Trig IEEE.arith}.
Import IEEE IEEEBounds.

Lemma scale_torque_zero (s : bool) v :
  exists s', scale_torque (A := arith) (S754_zero s) (uniform_real v) = S754_zero s'.
Proof.
  unfold scale_torque. fold (forced (uniform_real v)).
  change (@cast arith (S754_zero s)) with (S754_zero s).
  destruct (twice_forced_uniform v) as [s0 [->|(m & e & ->)]];
    exists (xorb s0 s); reflexivity.
Qed.

(** X8 (no torque for [tau_max = 0], float32).  With IEEE arithmetic and
    [tau_max = 0], both torque entries (columns 4 and 5) of every row of a
    buffer returned by [generate_two_link_data] are zeros, [+0.0] or
    [-0.0]: the draw minus [0.5], doubled, is a finite number, and its
    product with [0] is a zero with the sign of the factor. *)
Theorem zero_tau_max_gives_zero_torques (s : bool) q1r q2r dq1r dq2r numICs T dt seed
    m1 m2 l1 l2 g0 w data (i t : nat) :
  fst (generate_two_link_data q1r q2r dq1r dq2r numICs T dt seed (S754_zero s)
         m1 m2 l1 l2 g0 w) = Ok data ->
  Z.of_nat i < numICs -> Z.of_nat t < T ->
  exists s1 s2,
    get3 data i t 4 = Some (S754_zero s1) /\ get3 data i t 5 = Some (S754_zero s2).
Proof.
  intros H Hi Ht. apply generate_two_link_data_returns in H as (_ & sq & _ & ->).
  set (n := Z.to_nat numICs). set (T' := Z.to_nat T).
  assert (Hi' : (i < n)%nat) by lia. assert (Ht' : (t < T')%nat) by lia.
  rewrite !get3_arm_final by (assumption || lia).
  destruct (decide (4 < 4)%nat) as [?|_]; [lia|].
  destruct (decide (5 < 4)%nat) as [?|_]; [lia|].
  rewrite !torque_draw by (assumption || lia).
  destruct (scale_torque_zero s
              (nth_draw (seeded seed) (4 * n + i * (T' * 2) + t * 2 + (4 - 4)))) as [s1 ->].
  destruct (scale_torque_zero s
              (nth_draw (seeded seed) (4 * n + i * (T' * 2) + t * 2 + (5 - 4)))) as [s2 ->].
  eauto.
Qed.
End ZeroTorque.

(** ** Fixed points of the unforced simulator, in IEEE arithmetic *)

Section Origin.
Context {G : Generator}.
Import IEEE.

(** A range whose two ends are zeros, of either sign, starts every
    trajectory at [+0]. *)
Lemma start_at_origin (a b : bool) v :
  elt_add (elt_mul (uniform_real v) (cast (py_sub (S754_zero b) (S754_zero a))))
    (cast (S754_zero a))
  = S754_zero false.
Proof.
  cbn [uniform_real cast py_sub elt_add elt_mul arith].
  destruct (IEEEFacts.uniform_cases v) as [->|(m & e & ->)]; destruct a, b; reflexivity.
Qed.

(** At the origin, with no control, both increments are zeros and the
    state stays [+0]. *)
Lemma origin_step (c1 c2 c3 : elt) :
  finite_float c1 = true -> finite_float c2 = true -> finite_float c3 = true ->
  let z := S754_zero false in
  elt_add z (elt_add (elt_mul z c1) (elt_mul z c2)) = z /\
  elt_add z (elt_mul (elt_sub z (elt_sq z)) c3) = z.
Proof.
  destruct c1 as [[]|[]| |[] ? ?], c2 as [[]|[]| |[] ? ?], c3 as [[]|[]| |[] ? ?];
    simpl; intros; try discriminate; split; reflexivity.
Qed.

Lemma origin_traj (a b a' b' : bool) mu lam dt seed n T t i :
  finite_float (cast dt) = true ->
  finite_float (cast (py_mul dt mu)) = true ->
  finite_float (cast (py_mul dt lam)) = true ->
  (i < n)%nat -> (t < T)%nat ->
  let traj :=
    osc_traj unforced (S754_zero a, S754_zero b) (S754_zero a', S754_zero b')
      mu lam dt seed n T in
  fst (traj t) !! i = Some (S754_zero false) /\
  snd (traj t) !! i = Some (S754_zero false).
Proof.
  intros Hdt Hmu Hlam Hi Ht traj. induction t as [|t IH].
  - split.
    + change (fst (traj 0%nat)) with (start_x1 (S754_zero a, S754_zero b) seed n).
      unfold start_x1.
      destruct (lookup_lt_is_Some_2 (fst (draw_x1 seed n)) i) as [d Ed].
      { unfold draw_x1. now rewrite length_uniform_fill. }
      destruct (proj1 (Forall_lookup _ _) (Forall_uniform_fill n (seeded seed)) i d Ed)
        as [v ->].
      rewrite (lookup_initial _ _ i _ Ed). cbn [fst snd]. now rewrite start_at_origin.
    + change (snd (traj 0%nat)) with (start_x2 (S754_zero a', S754_zero b') seed n).
      unfold start_x2.
      destruct (lookup_lt_is_Some_2 (fst (draw_x2 seed n)) i) as [d Ed].
      { unfold draw_x2. now rewrite length_uniform_fill. }
      destruct (proj1 (Forall_lookup _ _)
                  (Forall_uniform_fill n (snd (draw_x1 seed n))) i d Ed) as [v ->].
      rewrite (lookup_initial _ _ i _ Ed). cbn [fst snd]. now rewrite start_at_origin.
  - destruct IH as [IH1 IH2]; [lia|].
    destruct (wf2_get2 (control unforced seed n T) i (prev T t)) as [up Eu];
      [apply control_wf | simpl; lia | simpl; apply prev_lt; lia |].
    destruct (osc_traj_step (A := arith) unforced (S754_zero a, S754_zero b)
                (S754_zero a', S754_zero b')
                mu lam dt seed n T t i _ _ up IH1 IH2 Eu) as [S1 S2].
    destruct (get2_control _ _ _ _ _ _ _ Eu) as [v ->].
    rewrite IEEEFacts.unforced_uniform in S1.
    destruct (origin_step _ _ _ Hmu Hdt Hlam) as [O1 O2].
    split.
    + etransitivity; [exact S1 | f_equal; exact O1].
    + etransitivity; [exact S2 | f_equal; exact O2].
Qed.

(** X9 (the origin is a fixed point of the unforced simulator).
    With IEEE arithmetic, when both ranges are [(0, 0)] (zeros of either
    sign) and [dt], [dt * mu] and [dt * lam] are finite as float32, every
    entry of the buffer [generate_data_unforced] returns is [+0.0], for
    every seed, trajectory count and horizon. *)
Theorem unforced_origin_is_fixed (a b a' b' : bool) numICs mu lam T_step dt seed w xuk
    (i t c : nat) :
  finite_float (cast dt) = true ->
  finite_float (cast (py_mul dt mu)) = true ->
  finite_float (cast (py_mul dt lam)) = true ->
  fst (generate_data_unforced (S754_zero a, S754_zero b) (S754_zero a', S754_zero b')
         numICs mu lam T_step dt seed w) = Ok xuk ->
  Z.of_nat i < numICs -> Z.of_nat t < T_step -> (c < 3)%nat ->
  get3 xuk i t c = Some (S754_zero false).
Proof.
  intros Hdt Hmu Hlam H Hi Ht Hc.
  apply generate_data_unforced_returns in H as [_ ->].
  set (n := Z.to_nat numICs). set (T := Z.to_nat T_step).
  assert (Hi' : (i < n)%nat) by lia. assert (Ht' : (t < T)%nat) by lia.
  destruct (get3_osc_final (A := arith) unforced (S754_zero a, S754_zero b)
              (S754_zero a', S754_zero b')
              mu lam dt seed n T i t Hi' Ht') as (H0 & H1 & H2).
  destruct (origin_traj a b a' b' mu lam dt seed n T t i Hdt Hmu Hlam Hi' Ht') as [O1 O2].
  destruct c as [|[|[|c]]]; [| | |lia].
  - now rewrite H0.
  - now rewrite H1.
  - rewrite H2.
    destruct (wf2_get2 (control unforced seed n T) i t) as [u Eu];
      [apply control_wf | simpl; lia | simpl; lia |].
    rewrite Eu. destruct (get2_control _ _ _ _ _ _ _ Eu) as [v ->].
    now rewrite IEEEFacts.unforced_uniform.
Qed.
End Origin.

Section PointRange.
Context {G : Generator}.
Import IEEE IEEEFacts IEEEBounds.

(** The value of [x], with [+0] for either zero. *)
Definition unsigned_zero (x : spec_float) : spec_float :=
  match x with
  | S754_zero _ => S754_zero false
  | _ => x
  end.

Lemma sub_self (x : py) : finite_float x = true -> py_sub x x = S754_zero false.
Proof.
  destruct x as [[]|[]| |s m e]; try discriminate; intros _; try reflexivity.
  cbn [py_sub arith]. unfold SFsub. rewrite Z.min_id, shl_align_same. cbn [fst].
  now rewrite Z.sub_diag.
Qed.

Lemma start_of_point g (lo : py) k :
  finite_float lo = true -> start_of g (lo, lo) k = unsigned_zero (cast lo).
Proof.
  intros Hlo. unfold start_of. cbn [fst snd]. rewrite (sub_self lo Hlo).
  cbn [uniform_real cast elt_add elt_mul arith].
  change (to_b32 (S754_zero false)) with (S754_zero false).
  destruct (uniform_cases (nth_draw g k)) as [->|(m & e & ->)];
    destruct (to_b32 lo) as [[]|[]| |[] ? ?]; reflexivity.
Qed.

(** X10 (a range with equal ends).  With IEEE arithmetic, when [x1range] is
    [(a, a)] and [x2range] is [(b, b)] for finite [a] and [b], the forced
    and the unforced simulator record at step 0, for every trajectory,
    exactly [a] and [b] converted to float32 (with [+0] for a zero of
    either sign): the width of the range is [+0], so the draw does not
    matter. *)
Theorem point_range_start (a b : py) numICs mu lam T dt seed w (i : nat) :
  finite_float a = true -> finite_float b = true ->
  Z.of_nat i < numICs -> 0 < T ->
  (forall xuk,
      fst (generate_data (a, a) (b, b) numICs mu lam T dt seed w) = Ok xuk ->
      get3 xuk i 0 0 = Some (unsigned_zero (cast a)) /\
      get3 xuk i 0 1 = Some (unsigned_zero (cast b))) /\
  (forall xuk,
      fst (generate_data_unforced (a, a) (b, b) numICs mu lam T dt seed w) = Ok xuk ->
      get3 xuk i 0 0 = Some (unsigned_zero (cast a)) /\
      get3 xuk i 0 1 = Some (unsigned_zero (cast b))).
Proof.
  intros Ha Hb Hi HT.
  assert (Hi' : (i < Z.to_nat numICs)%nat) by lia.
  assert (HT' : (0 < Z.to_nat T)%nat) by lia.
  split; intros xuk H.
  - apply generate_data_returns in H as [_ ->].
    destruct (osc_final_draws (A := arith) forced (a, a) (b, b) mu lam dt seed
                (Z.to_nat numICs) (Z.to_nat T) i 0 Hi' HT') as (E0 & E1 & _).
    rewrite E0, E1, !start_of_point by assumption. split; reflexivity.
  - apply generate_data_unforced_returns in H as [_ ->].
    destruct (osc_final_draws (A := arith) unforced (a, a) (b, b) mu lam dt seed
                (Z.to_nat numICs) (Z.to_nat T) i 0 Hi' HT') as (E0 & E1 & _).
    rewrite E0, E1, !start_of_point by assumption. split; reflexivity.
Qed.

(** One update of x1 with a zero rate and no control leaves a finite
    value as it is. *)
Lemma frozen_step (x c d : elt) (s : bool) :
  finite_float x = true -> finite_float d = true -> c = S754_zero s ->
  unsigned_zero (elt_add x (elt_add (elt_mul x c) (elt_mul (S754_zero false) d)))
  = unsigned_zero x /\
  finite_float (elt_add x (elt_add (elt_mul x c) (elt_mul (S754_zero false) d))) = true.
Proof.
  intros Hx Hd ->.
  destruct x as [[]|[]| |[] ? ?], d as [[]|[]| |[] ? ?], s;
    try discriminate; split; reflexivity.
Qed.

Lemma zero_rate (dt : py) (s : bool) :
  finite_float (cast dt) = true -> exists s', cast (py_mul dt (S754_zero s)) = S754_zero s'.
Proof.
  destruct dt as [sd|sd| |sd m e]; try discriminate; intros _.
  - exists (xorb sd s). reflexivity.
  - exists (xorb sd s). reflexivity.
Qed.

Lemma frozen_traj (s : bool) x1range x2range lam dt seed n T t i x0 :
  finite_float (cast dt) = true ->
  (i < n)%nat -> (t < T)%nat ->
  let traj := osc_traj unforced x1range x2range (S754_zero s) lam dt seed n T in
  fst (traj 0%nat) !! i = Some x0 -> finite_float x0 = true ->
  exists xt, fst (traj t) !! i = Some xt /\
             unsigned_zero xt = unsigned_zero x0 /\ finite_float xt = true.
Proof.
  intros Hdt Hi Ht traj E0 Hx0. induction t as [|t IH].
  - exists x0. auto.
  - destruct IH as (xt & Et & Hz & Hf); [lia|].
    destruct (length_osc_at (A := arith) (S754_zero s) dt (py_mul dt lam)
                (control unforced seed n T) n T
                (start_x1 x1range seed n) (start_x2 x2range seed n)
                (control_shape unforced seed n T) (control_wf unforced seed n T)
                (start_x1_length x1range seed n) (start_x2_length x2range seed n) t)
      as [_ H2].
    destruct (lookup_lt_is_Some_2 (snd (traj t)) i) as [x2 E2];
      [unfold traj, osc_traj; lia|].
    destruct (wf2_get2 (control unforced seed n T) i (prev T t)) as [up Eu];
      [apply control_wf | simpl; lia | simpl; apply prev_lt; lia |].
    destruct (osc_traj_step (A := arith) unforced x1range x2range (S754_zero s) lam dt
                seed n T t i xt x2 up Et E2 Eu) as [S1 _].
    destruct (get2_control _ _ _ _ _ _ _ Eu) as [v ->].
    rewrite unforced_uniform in S1.
    destruct (zero_rate dt s Hdt) as [s' Hc].
    destruct (frozen_step xt _ (cast dt) s' Hf Hdt Hc) as [F1 F2].
    eexists. split; [exact S1|]. split; [now rewrite F1 | exact F2].
Qed.

(** X11 (no growth, no drift: the unforced simulator with [mu = 0]).
    With IEEE arithmetic, a [dt] that is finite as float32 and a rate
    [mu] that is zero, a trajectory whose recorded initial x1 is finite
    keeps that value of x1 in every row of the buffer
    [generate_data_unforced] returns (the same float32, or a zero where
    the initial value is a zero).  The forced simulator does not have
    this property: its x1 follows the control. *)
Theorem unforced_x1_stays_without_growth (s : bool) x1range x2range numICs lam T_step dt
    seed w xuk (i t : nat) x0 :
  finite_float (cast dt) = true ->
  fst (generate_data_unforced x1range x2range numICs (S754_zero s) lam T_step dt seed w)
  = Ok xuk ->
  get3 xuk i 0 0 = Some x0 -> finite_float x0 = true ->
  Z.of_nat t < T_step ->
  exists xt, get3 xuk i t 0 = Some xt /\ unsigned_zero xt = unsigned_zero x0.
Proof.
  intros Hdt H E0 Hx0 Ht. apply generate_data_unforced_returns in H as [_ ->].
  set (n := Z.to_nat numICs) in *. set (T := Z.to_nat T_step) in *.
  assert (Ht' : (t < T)%nat) by lia.
  assert (Hi : (i < n)%nat).
  { destruct (wf3_get3_inv _ i 0 0 (osc_final_wf _ _ _ _ _ _ _ _ _) (mk_is_Some _ _ E0))
      as [Hi _].
    now rewrite osc_final_shape in Hi. }
  destruct (get3_osc_final (A := arith) unforced x1range x2range (S754_zero s) lam dt seed
              n T i 0 Hi ltac:(lia)) as (G0 & _).
  destruct (get3_osc_final (A := arith) unforced x1range x2range (S754_zero s) lam dt seed
              n T i t Hi Ht') as (Gt & _).
  rewrite G0 in E0.
  destruct (frozen_traj s x1range x2range lam dt seed n T t i x0 Hdt Hi Ht' E0 Hx0)
    as (xt & Et & Hz & _).
  exists xt. split; [now rewrite Gt | exact Hz].
Qed.
End PointRange.

(** ** The splitters *)

Section SplittersRun.
Context {A : Arith} {G : Generator}.

(** Every call of an oscillator simulator with a seed that is accepted
    returns or raises [RuntimeError]. *)
Lemma generate_data_outcome x1range x2range numICs mu lam T dt seed w :
  seed_ok seed = true ->
  (exists xuk, fst (generate_data x1range x2range numICs mu lam T dt seed w) = Ok xuk /\
               0 <= numICs) \/
  fst (generate_data x1range x2range numICs mu lam T dt seed w) = Raise RuntimeError.
Proof.
  intros Hs. destruct (accepted numICs T seed) eqn:Ha.
  - left. destruct (accepted_nat _ _ _ Ha) as (_ & Hn & HT).
    rewrite Hn, HT, generate_data_run by exact Hs. eexists. split; [reflexivity | lia].
  - right. rewrite generate_data_refused by exact Ha. unfold refusal. now rewrite Hs.
Qed.

(** When the three shares are trajectory counts, [DataGenerator_mixed] is
    the five calls one after the other. *)
Lemma DataGenerator_mixed_run x1range x2range numICs mu lam (T : nat) dt
    (n5 n10 n40 : nat) w :
  share_of 5 2 numICs = Ok (Z.of_nat n5) ->
  share_of 1 1 numICs = Ok (Z.of_nat n10) ->
  share_of 4 1 numICs = Ok (Z.of_nat n40) ->
  DataGenerator_mixed x1range x2range numICs mu lam (Z.of_nat T) dt w
  = (Ok (osc_final unforced x1range x2range mu lam dt 4 n40 T,
         osc_final forced x1range x2range mu lam dt 5 n40 T,
         osc_final unforced x1range x2range mu lam dt 1 n5 T,
         osc_final forced x1range x2range mu lam dt 2 n5 T,
         osc_final forced x1range x2range mu lam dt 3 n10 T),
     World (snd (draw_u 5 n40 T)) (stdout w)).
Proof.
  intros H5 H10 H40. unfold DataGenerator_mixed, share.
  rewrite H5, H10, H40.
  unfold bind at 1, lift at 1.
  unfold bind at 1. rewrite generate_data_unforced_run by reflexivity.
  unfold bind at 1, lift at 1.
  unfold bind at 1. rewrite generate_data_run by reflexivity.
  unfold bind at 1, lift at 1.
  unfold bind at 1. rewrite generate_data_run by reflexivity.
  unfold bind at 1, lift at 1.
  unfold bind at 1. rewrite generate_data_unforced_run by reflexivity.
  unfold bind at 1, lift at 1.
  unfold bind at 1. rewrite generate_data_run by reflexivity.
  reflexivity.
Qed.

Context {R : Trig A}.

(** The line the arm simulator prints when called with the default masses
    and lengths, for the squares [sq] of the lengths. *)
Definition default_line (sq : squares) : string :=
  inertia_line (py_mul default_unit (sq_lc1 sq)) (py_mul default_unit (sq_lc2 sq)).

Lemma TwoLinkRobotDataGenerator_run q1r q2r dq1r dq2r numICs (T : nat) dt tau_max sq
    (n1 n2 n3 : nat) w :
  squares_of default_unit default_unit T sq ->
  share_of 1 1 numICs = Ok (Z.of_nat n1) ->
  share_of 2 1 numICs = Ok (Z.of_nat n2) ->
  share_of 7 1 numICs = Ok (Z.of_nat n3) ->
  let batch seed n :=
    arm_final q1r q2r dq1r dq2r dt seed tau_max default_unit default_unit default_unit
      default_unit default_g sq n T in
  TwoLinkRobotDataGenerator q1r q2r dq1r dq2r numICs (Z.of_nat T) dt tau_max w
  = (Ok (batch 3 n3, batch 1 n1, batch 2 n2),
     World (snd (draw_tau 3 n3 T))
       (stdout w ++ [default_line sq; default_line sq; default_line sq])).
Proof.
  intros (Q1 & Q2 & Q3) H1 H2 H3 batch. unfold TwoLinkRobotDataGenerator, share.
  unfold bind at 1, lift at 1. rewrite H1.
  unfold bind at 1.
  rewrite (generate_two_link_data_run _ _ _ _ _ _ _ _ _ _ _ _ sq)
    by (reflexivity || assumption).
  unfold bind at 1, lift at 1. rewrite H2.
  unfold bind at 1.
  rewrite (generate_two_link_data_run _ _ _ _ _ _ _ _ _ _ _ _ sq)
    by (reflexivity || assumption).
  unfold bind at 1, lift at 1. rewrite H3.
  unfold bind at 1.
  rewrite (generate_two_link_data_run _ _ _ _ _ _ _ _ _ _ _ _ sq)
    by (reflexivity || assumption).
  cbn [stdout ret]. rewrite <- !app_assoc. reflexivity.
Qed.
End SplittersRun.

(** *** Checking a property on a range of integers *)

(** [f] holds on [lo, lo + 1, ..., lo + B - 1]. *)
Definition check_range (f : Z -> bool) (lo : Z) (B : N) : bool :=
  fst (N.iter B (fun s : bool * Z => (fst s && f (snd s), snd s + 1)) (true, lo)).

Lemma check_range_spec f lo B :
  check_range f lo B = true -> forall n, lo <= n < lo + Z.of_N B -> f n = true.
Proof.
  unfold check_range.
  assert (H : snd (N.iter B (fun s : bool * Z => (fst s && f (snd s), snd s + 1)) (true, lo))
              = lo + Z.of_N B /\
              (fst (N.iter B (fun s : bool * Z => (fst s && f (snd s), snd s + 1)) (true, lo))
               = true -> forall n, lo <= n < lo + Z.of_N B -> f n = true)).
  { induction B as [|B [IH1 IH2]] using N.peano_ind.
    - simpl. split; [lia|]. intros _ n Hn. lia.
    - rewrite N.iter_succ. cbn [fst snd]. rewrite IH1, N2Z.inj_succ. split; [lia|].
      intros Hb n Hn. apply andb_prop in Hb as [Hb Hf].
      destruct (Z.eq_dec n (lo + Z.of_N B)) as [->|Hne]; [exact Hf|].
      apply IH2; [exact Hb | lia]. }
  exact (proj2 H).
Qed.

(** *** The shares, in IEEE arithmetic *)

Module Shares.
Import IEEE.

(** [round(c * numICs)] for a binary64 [c]. *)
Definition scaled (c : spec_float) (numICs : Z) : result Z :=
  rbind (of_int numICs) (fun x => round (SFmul 53 1024 c x)).

(** The binary64 numbers nearest to the fractions of the splitters. *)
Definition f005 : spec_float := S754_finite false 7205759403792794 (-57).
Definition f01 : spec_float := S754_finite false 7205759403792794 (-56).
Definition f02 : spec_float := S754_finite false 7205759403792794 (-55).
Definition f04 : spec_float := S754_finite false 7205759403792794 (-54).
Definition f07 : spec_float := S754_finite false 6305039478318694 (-53).

Lemma fractions :
  lit 5 2 = f005 /\ lit 1 1 = f01 /\ lit 2 1 = f02 /\ lit 4 1 = f04 /\ lit 7 1 = f07.
Proof. vm_compute. repeat split. Qed.

Lemma share_of_scaled m k numICs : share_of m k numICs = scaled (lit m k) numICs.
Proof. reflexivity. Qed.

(** The three shares of [DataGenerator] for a count that is not negative:
    none is negative, their sum is within one of the count, and they are
    exact when the count is a multiple of ten. *)
Definition counts3_test (numICs : Z) (r1 r2 r3 : result Z) : bool :=
  match r1, r2, r3 with
  | Ok a, Ok b, Ok c =>
      (0 <=? a) && (0 <=? b) && (0 <=? c) &&
      (numICs - 1 <=? a + b + c) && (a + b + c <=? numICs + 1) &&
      (if numICs mod 10 =? 0
       then (a =? numICs / 10) && (b =? 2 * (numICs / 10)) && (c =? 7 * (numICs / 10))
       else true)
  | _, _, _ => false
  end.

(** For a negative count: the first two are zero or negative, the third
    is negative. *)
Definition negative3_test (r1 r2 r3 : result Z) : bool :=
  match r1, r2, r3 with
  | Ok a, Ok b, Ok c => (a <=? 0) && (b <=? 0) && (c <? 0)
  | _, _, _ => false
  end.

(** The three distinct shares of [DataGenerator_mixed], two of them used
    twice. *)
Definition counts5_test (numICs : Z) (r5 r10 r40 : result Z) : bool :=
  match r5, r10, r40 with
  | Ok a, Ok b, Ok c =>
      (0 <=? a) && (0 <=? b) && (0 <=? c) &&
      (numICs - 1 <=? 2 * a + b + 2 * c) && (2 * a + b + 2 * c <=? numICs + 1)
  | _, _, _ => false
  end.

Definition counts3_ok (numICs : Z) : bool :=
  counts3_test numICs (scaled f01 numICs) (scaled f02 numICs) (scaled f07 numICs).
Definition negative3_ok (numICs : Z) : bool :=
  negative3_test (scaled f01 numICs) (scaled f02 numICs) (scaled f07 numICs).
Definition counts5_ok (numICs : Z) : bool :=
  counts5_test numICs (scaled f005 numICs) (scaled f01 numICs) (scaled f04 numICs).

Lemma counts3_checked : check_range counts3_ok 0 1001 = true.
Proof. vm_compute. reflexivity. Qed.

Lemma negative3_checked : check_range negative3_ok (-1000) 1000 = true.
Proof. vm_compute. reflexivity. Qed.

Lemma counts5_checked : check_range counts5_ok 0 1001 = true.
Proof. vm_compute. reflexivity. Qed.

Lemma counts3_test_true numICs r1 r2 r3 :
  counts3_test numICs r1 r2 r3 = true ->
  exists n_test n_val n_train : nat,
    r1 = Ok (Z.of_nat n_test) /\ r2 = Ok (Z.of_nat n_val) /\ r3 = Ok (Z.of_nat n_train) /\
    numICs - 1 <= Z.of_nat (n_test + n_val + n_train) <= numICs + 1 /\
    (numICs mod 10 = 0 ->
     Z.of_nat n_test = numICs / 10 /\ Z.of_nat n_val = 2 * (numICs / 10) /\
     Z.of_nat n_train = 7 * (numICs / 10)).
Proof.
  unfold counts3_test. intros H.
  destruct r1 as [a|]; [|discriminate].
  destruct r2 as [b|]; [|discriminate].
  destruct r3 as [c|]; [|discriminate].
  apply andb_prop in H as [H Hexact]. repeat (apply andb_prop in H as [H ?]).
  exists (Z.to_nat a), (Z.to_nat b), (Z.to_nat c).
  rewrite !Z2Nat.id by lia.
  do 3 (split; [reflexivity|]). split; [lia|].
  intros Hm. rewrite Hm in Hexact. change (0 =? 0) with true in Hexact. cbv iota in Hexact.
  apply andb_prop in Hexact as [Hexact Hc]. apply andb_prop in Hexact as [Ha Hb]. lia.
Qed.

Lemma counts5_test_true numICs r5 r10 r40 :
  counts5_test numICs r5 r10 r40 = true ->
  exists n5 n10 n40 : nat,
    r5 = Ok (Z.of_nat n5) /\ r10 = Ok (Z.of_nat n10) /\ r40 = Ok (Z.of_nat n40) /\
    numICs - 1 <= Z.of_nat (n5 + n5 + n10 + n40 + n40) <= numICs + 1.
Proof.
  unfold counts5_test. intros H.
  destruct r5 as [a|]; [|discriminate].
  destruct r10 as [b|]; [|discriminate].
  destruct r40 as [c|]; [|discriminate].
  repeat (apply andb_prop in H as [H ?]).
  exists (Z.to_nat a), (Z.to_nat b), (Z.to_nat c).
  rewrite !Z2Nat.id by lia. repeat split; lia.
Qed.

Lemma negative3_test_true r1 r2 r3 :
  negative3_test r1 r2 r3 = true ->
  exists a b c, r1 = Ok a /\ r2 = Ok b /\ r3 = Ok c /\ a <= 0 /\ b <= 0 /\ c < 0.
Proof.
  unfold negative3_test. intros H.
  destruct r1 as [a|]; [|discriminate].
  destruct r2 as [b|]; [|discriminate].
  destruct r3 as [c|]; [|discriminate].
  repeat (apply andb_prop in H as [H ?]).
  exists a, b, c. repeat split; lia.
Qed.

(** The shares of the fractions, as the splitters compute them. *)
Lemma share_values numICs :
  share_of 5 2 numICs = scaled f005 numICs /\ share_of 1 1 numICs = scaled f01 numICs /\
  share_of 2 1 numICs = scaled f02 numICs /\ share_of 4 1 numICs = scaled f04 numICs /\
  share_of 7 1 numICs = scaled f07 numICs.
Proof.
  destruct fractions as (E5 & E1 & E2 & E4 & E7).
  rewrite !share_of_scaled, E5, E1, E2, E4, E7. repeat split.
Qed.

Lemma counts3 numICs :
  0 <= numICs <= 1000 ->
  exists n_test n_val n_train : nat,
    share_of 1 1 numICs = Ok (Z.of_nat n_test) /\
    share_of 2 1 numICs = Ok (Z.of_nat n_val) /\
    share_of 7 1 numICs = Ok (Z.of_nat n_train) /\
    numICs - 1 <= Z.of_nat (n_test + n_val + n_train) <= numICs + 1 /\
    (numICs mod 10 = 0 ->
     Z.of_nat n_test = numICs / 10 /\ Z.of_nat n_val = 2 * (numICs / 10) /\
     Z.of_nat n_train = 7 * (numICs / 10)).
Proof.
  intros Hn. destruct (share_values numICs) as (_ & -> & -> & _ & ->).
  apply counts3_test_true.
  exact (check_range_spec _ _ _ counts3_checked numICs ltac:(lia)).
Qed.

Lemma counts5 numICs :
  0 <= numICs <= 1000 ->
  exists n5 n10 n40 : nat,
    share_of 5 2 numICs = Ok (Z.of_nat n5) /\
    share_of 1 1 numICs = Ok (Z.of_nat n10) /\
    share_of 4 1 numICs = Ok (Z.of_nat n40) /\
    numICs - 1 <= Z.of_nat (n5 + n5 + n10 + n40 + n40) <= numICs + 1.
Proof.
  intros Hn. destruct (share_values numICs) as (-> & -> & _ & -> & _).
  apply counts5_test_true.
  exact (check_range_spec _ _ _ counts5_checked numICs ltac:(lia)).
Qed.

Lemma counts3_negative numICs :
  -1000 <= numICs < 0 ->
  exists a b c,
    share_of 1 1 numICs = Ok a /\ share_of 2 1 numICs = Ok b /\
    share_of 7 1 numICs = Ok c /\ a <= 0 /\ b <= 0 /\ c < 0.
Proof.
  intros Hn. destruct (share_values numICs) as (_ & -> & -> & _ & ->).
  apply negative3_test_true.
  exact (check_range_spec _ _ _ negative3_checked numICs ltac:(lia)).
Qed.
End Shares.

(** *** What the splitters return *)

Section SplitterBatches.
Context {G : Generator}.
Import IEEE Shares.

(** X12 (batch sizes of [DataGenerator]).  For every [numICs] from 0 to
    1000 and every horizon the call returns [(train, test, val)]; the
    test, validation and train batches have [round(0.1 * numICs)],
    [round(0.2 * numICs)] and [round(0.7 * numICs)] trajectories and are
    the buffers [generate_data] returns from any world for these counts
    and the seeds 1, 2 and 3.  The three counts together are [numICs] up
    to one trajectory more or less (the three shares are rounded
    separately, halves to even, and not renormalised), and exactly a
    tenth, two tenths and seven tenths when [numICs] is a multiple of
    ten.  Nothing is printed. *)
Theorem DataGenerator_batch_sizes x1range x2range numICs mu lam (T : nat) dt w :
  0 <= numICs <= 1000 ->
  exists (n_test n_val n_train : nat) train test val w',
    DataGenerator x1range x2range numICs mu lam (Z.of_nat T) dt w
    = (Ok (train, test, val), w') /\
    share_of 1 1 numICs = Ok (Z.of_nat n_test) /\
    share_of 2 1 numICs = Ok (Z.of_nat n_val) /\
    share_of 7 1 numICs = Ok (Z.of_nat n_train) /\
    (forall w0,
        fst (generate_data x1range x2range (Z.of_nat n_test) mu lam (Z.of_nat T) dt 1 w0)
        = Ok test) /\
    (forall w0,
        fst (generate_data x1range x2range (Z.of_nat n_val) mu lam (Z.of_nat T) dt 2 w0)
        = Ok val) /\
    (forall w0,
        fst (generate_data x1range x2range (Z.of_nat n_train) mu lam (Z.of_nat T) dt 3 w0)
        = Ok train) /\
    shape3 train = (n_train, T, 3%nat) /\
    shape3 test = (n_test, T, 3%nat) /\
    shape3 val = (n_val, T, 3%nat) /\
    stdout w' = stdout w /\
    numICs - 1 <= Z.of_nat (n_test + n_val + n_train) <= numICs + 1 /\
    (numICs mod 10 = 0 ->
     Z.of_nat n_test = numICs / 10 /\ Z.of_nat n_val = 2 * (numICs / 10) /\
     Z.of_nat n_train = 7 * (numICs / 10)).
Proof.
  intros Hn. destruct (counts3 numICs Hn) as (n1 & n2 & n3 & S1 & S2 & S3 & Hsum & Hten).
  exists n1, n2, n3. do 4 eexists.
  split; [apply (DataGenerator_run x1range x2range numICs mu lam T dt n1 n2 n3 w S1 S2 S3)|].
  do 3 (split; [assumption|]).
  split; [intros w0; now rewrite generate_data_run|].
  split; [intros w0; now rewrite generate_data_run|].
  split; [intros w0; now rewrite generate_data_run|].
  split; [apply osc_final_shape|]. split; [apply osc_final_shape|].
  split; [apply osc_final_shape|]. split; [reflexivity|]. split; assumption.
Qed.

Lemma generate_data_raises x1range x2range numICs mu lam T dt seed w e w' :
  seed_ok seed = true ->
  generate_data x1range x2range numICs mu lam T dt seed w = (Raise e, w') ->
  e = RuntimeError.
Proof.
  intros Hs E.
  destruct (generate_data_outcome x1range x2range numICs mu lam T dt seed w Hs)
    as [(xuk & H & _)|H]; rewrite E in H; simpl in H; congruence.
Qed.

(** X13 (a negative count).  For every [numICs] from -1000 to -1,
    whatever the horizon, [DataGenerator] raises [RuntimeError]: the
    share of the train batch, [round(0.7 * numICs)], is negative, and
    [torch.rand] refuses it, if an earlier call has not already raised. *)
Theorem DataGenerator_negative_count x1range x2range numICs mu lam T dt w :
  -1000 <= numICs < 0 ->
  fst (DataGenerator x1range x2range numICs mu lam T dt w) = Raise RuntimeError.
Proof.
  intros Hn. destruct (counts3_negative numICs Hn) as (a & b & c & S1 & S2 & S3 & _ & _ & Hc).
  unfold DataGenerator, share. rewrite S1, S2, S3.
  unfold bind at 1, lift at 1. unfold bind at 1.
  destruct (generate_data x1range x2range a mu lam T dt 1 w) as [[x1|e1] w1] eqn:E1;
    [|now rewrite (generate_data_raises x1range x2range a mu lam T dt 1 w e1 w1 eq_refl E1)].
  unfold bind at 1, lift at 1. unfold bind at 1.
  destruct (generate_data x1range x2range b mu lam T dt 2 w1) as [[x2|e2] w2] eqn:E2;
    [|now rewrite (generate_data_raises x1range x2range b mu lam T dt 2 w1 e2 w2 eq_refl E2)].
  unfold bind at 1, lift at 1. unfold bind at 1.
  assert (Ha : accepted c T 3 = false).
  { unfold accepted. destruct (Z.leb_spec 0 c); [lia|]. now rewrite andb_false_r. }
  pose proof (generate_data_refused x1range x2range c mu lam T dt 3 w2 Ha) as E3.
  change (refusal 3) with RuntimeError in E3.
  destruct (generate_data x1range x2range c mu lam T dt 3 w2) as [[x3|e3] w3];
    simpl in E3; [discriminate|].
  injection E3 as ->. reflexivity.
Qed.

(** X14 (the five batches of [DataGenerator_mixed]).  For every [numICs]
    from 0 to 1000 and every horizon the call returns, in this order, the
    unforced train batch (seed 4), the forced train batch (seed 5), the
    unforced test batch (seed 1), the forced test batch (seed 2) and the
    forced validation batch (seed 3); each is the buffer the simulator
    returns for its seed and share from any world, the shares being
    [round(0.05 * numICs)] for the two test batches,
    [round(0.1 * numICs)] for validation and [round(0.4 * numICs)] for the
    two train batches.  The five counts add up to [numICs] up to one
    trajectory; the generator is left as the last call (seed 5) leaves it
    and nothing is printed. *)
Theorem DataGenerator_mixed_batches x1range x2range numICs mu lam (T : nat) dt w :
  0 <= numICs <= 1000 ->
  exists (n5 n10 n40 : nat) train_unforced train_forced test_unforced test_forced val w',
    DataGenerator_mixed x1range x2range numICs mu lam (Z.of_nat T) dt w
    = (Ok (train_unforced, train_forced, test_unforced, test_forced, val), w') /\
    share_of 5 2 numICs = Ok (Z.of_nat n5) /\
    share_of 1 1 numICs = Ok (Z.of_nat n10) /\
    share_of 4 1 numICs = Ok (Z.of_nat n40) /\
    (forall w0,
        fst (generate_data_unforced x1range x2range (Z.of_nat n5) mu lam (Z.of_nat T) dt 1 w0)
        = Ok test_unforced) /\
    (forall w0,
        fst (generate_data x1range x2range (Z.of_nat n5) mu lam (Z.of_nat T) dt 2 w0)
        = Ok test_forced) /\
    (forall w0,
        fst (generate_data x1range x2range (Z.of_nat n10) mu lam (Z.of_nat T) dt 3 w0)
        = Ok val) /\
    (forall w0,
        fst (generate_data_unforced x1range x2range (Z.of_nat n40) mu lam (Z.of_nat T) dt 4 w0)
        = Ok train_unforced) /\
    (forall w0,
        fst (generate_data x1range x2range (Z.of_nat n40) mu lam (Z.of_nat T) dt 5 w0)
        = Ok train_forced) /\
    (forall w0,
        rng w'
        = rng (snd (generate_data x1range x2range (Z.of_nat n40) mu lam (Z.of_nat T) dt 5 w0)))
    /\
    stdout w' = stdout w /\
    numICs - 1 <= Z.of_nat (n5 + n5 + n10 + n40 + n40) <= numICs + 1.
Proof.
  intros Hn. destruct (counts5 numICs Hn) as (n5 & n10 & n40 & S5 & S10 & S40 & Hsum).
  exists n5, n10, n40. do 6 eexists.
  split; [apply (DataGenerator_mixed_run x1range x2range numICs mu lam T dt n5 n10 n40 w
                   S5 S10 S40)|].
  do 3 (split; [assumption|]).
  split; [intros w0; now rewrite generate_data_unforced_run|].
  split; [intros w0; now rewrite generate_data_run|].
  split; [intros w0; now rewrite generate_data_run|].
  split; [intros w0; now rewrite generate_data_unforced_run|].
  split; [intros w0; now rewrite generate_data_run|].
  split; [intros w0; now rewrite generate_data_run|].
  split; [reflexivity | exact Hsum].
Qed.

Context {R : Trig arith}.

Lemma default_squares_ok T : squares_of default_unit default_unit T default_squares.
Proof. repeat split; intros; vm_compute; reflexivity. Qed.

Lemma default_line_eq :
  default_line default_squares = "Computed Inertia: I1 = 0.2500, I2 = 0.2500"%string.
Proof. vm_compute. reflexivity. Qed.

(** X15 (the arm splitter).  For every [numICs] from 0 to 1000 and every
    horizon, [TwoLinkRobotDataGenerator] returns [(train, test, val)],
    where each batch is the buffer [generate_two_link_data] returns from
    any world for the seed (3, 1, 2) and share (0.7, 0.1, 0.2 of [numICs],
    rounded) of the batch, with the given [tau_max] and the default masses
    and lengths 1.0 and gravity 9.81; and it writes three lines to
    standard output, one for each call, all of them
    ["Computed Inertia: I1 = 0.2500, I2 = 0.2500"], whatever its
    arguments. *)
Theorem TwoLinkRobotDataGenerator_batches q1r q2r dq1r dq2r numICs (T : nat) dt tau_max w :
  0 <= numICs <= 1000 ->
  let line := "Computed Inertia: I1 = 0.2500, I2 = 0.2500"%string in
  let call n seed :=
    generate_two_link_data q1r q2r dq1r dq2r (Z.of_nat n) (Z.of_nat T) dt seed tau_max
      (py_lit 10 1) (py_lit 10 1) (py_lit 10 1) (py_lit 10 1) (py_lit 981 2) in
  exists (n_test n_val n_train : nat) train test val w',
    TwoLinkRobotDataGenerator q1r q2r dq1r dq2r numICs (Z.of_nat T) dt tau_max w
    = (Ok (train, test, val), w') /\
    share_of 1 1 numICs = Ok (Z.of_nat n_test) /\
    share_of 2 1 numICs = Ok (Z.of_nat n_val) /\
    share_of 7 1 numICs = Ok (Z.of_nat n_train) /\
    (forall w0, fst (call n_test 1 w0) = Ok test) /\
    (forall w0, fst (call n_val 2 w0) = Ok val) /\
    (forall w0, fst (call n_train 3 w0) = Ok train) /\
    shape3 train = (n_train, T, 6%nat) /\
    shape3 test = (n_test, T, 6%nat) /\
    shape3 val = (n_val, T, 6%nat) /\
    stdout w' = stdout w ++ [line; line; line].
Proof.
  intros Hn line call.
  destruct (counts3 numICs Hn) as (n1 & n2 & n3 & S1 & S2 & S3 & _).
  exists n1, n2, n3. do 4 eexists.
  destruct (default_squares_ok T) as (Q1 & Q2 & Q3).
  assert (Hrun : forall n seed w0, seed_ok seed = true ->
            fst (call n seed w0)
            = Ok (arm_final q1r q2r dq1r dq2r dt seed tau_max default_unit default_unit
                    default_unit default_unit default_g default_squares n T)).
  { intros n seed w0 Hs. unfold call.
    now rewrite (generate_two_link_data_run _ _ _ _ _ _ _ _ _ _ _ _ default_squares)
      by assumption. }
  split; [apply (TwoLinkRobotDataGenerator_run q1r q2r dq1r dq2r numICs T dt tau_max
                   default_squares n1 n2 n3 w (default_squares_ok T) S1 S2 S3)|].
  do 3 (split; [assumption|]).
  split; [intros w0; now apply Hrun|].
  split; [intros w0; now apply Hrun|].
  split; [intros w0; now apply Hrun|].
  split; [apply arm_final_shape|]. split; [apply arm_final_shape|].
  split; [apply arm_final_shape|].
  cbn [stdout]. now rewrite default_line_eq.
Qed.
End SplitterBatches.

(** ** The range of the torques, in float32 *)

Section TorqueRange.
Context {G : Generator} {R : Trig IEEE.arith}.
Import IEEE IEEEBounds Rounding IEEEOrder.

Lemma two32_eq : cast (py_lit 2 0) = S754_finite false 8388608 (-22).
Proof. vm_compute. reflexivity. Qed.

Lemma scaled_draw_range tau_max v :
  valid_binary 53 1024 tau_max = true -> finite_float (cast tau_max) = true ->
  SFleb (SFabs (scale_torque (A := arith) tau_max (uniform_real v))) (SFabs (cast tau_max))
  = true.
Proof.
  intros V F.
  assert (N : is_nan tau_max = false) by (destruct tau_max; (reflexivity || discriminate)).
  destruct (cast_valid tau_max V N) as [V32 _].
  unfold scale_torque. fold half32. rewrite half32_eq, two32_eq.
  exact (torque_bounded (to_b32 tau_max) v V32 F).
Qed.

(** X17 (range of the torques, float32).  With IEEE arithmetic, for a
    binary64 [tau_max] that is finite as float32, both torque entries
    (columns 4 and 5) of every row of a buffer returned by
    [generate_two_link_data] are at most [float32(tau_max)] in absolute
    value: each is [(d - 0.5) * 2 * tau_max], computed in float32, for a
    uniform draw [d] in [[0, 1)], and neither product rounds above the
    bound. *)
Theorem torques_within_tau_max q1r q2r dq1r dq2r numICs T dt seed (tau_max : py)
    m1 m2 l1 l2 g0 w data (i t : nat) :
  valid_binary 53 1024 tau_max = true ->
  finite_float (cast tau_max) = true ->
  fst (generate_two_link_data q1r q2r dq1r dq2r numICs T dt seed tau_max m1 m2 l1 l2 g0 w)
  = Ok data ->
  Z.of_nat i < numICs -> Z.of_nat t < T ->
  exists tau1 tau2,
    get3 data i t 4 = Some tau1 /\ get3 data i t 5 = Some tau2 /\
    SFleb (SFabs tau1) (SFabs (cast tau_max)) = true /\
    SFleb (SFabs tau2) (SFabs (cast tau_max)) = true.
Proof.
  intros V F H Hi Ht. apply generate_two_link_data_returns in H as (_ & sq & _ & ->).
  set (n := Z.to_nat numICs). set (T' := Z.to_nat T).
  assert (Hi' : (i < n)%nat) by lia. assert (Ht' : (t < T')%nat) by lia.
  rewrite !get3_arm_final by (assumption || lia).
  destruct (decide (4 < 4)%nat) as [?|_]; [lia|].
  destruct (decide (5 < 4)%nat) as [?|_]; [lia|].
  rewrite !torque_draw by (assumption || lia).
  do 2 eexists. split; [reflexivity|]. split; [reflexivity|].
  split; apply scaled_draw_range; assumption.
Qed.
End TorqueRange.

(** ** The further properties at concrete calls *)

Module MoreChecks.
Import IEEE MT19937 IEEEBounds Scenario ArmChecks Shares.

(** A call of the arm simulator with the default masses and lengths
    returns the recurrence for the default squares. *)
Lemma default_run {R : Trig arith} q1r q2r dq1r dq2r (n T : nat) dt seed tau_max g w :
  seed_ok seed = true ->
  fst (generate_two_link_data q1r q2r dq1r dq2r (Z.of_nat n) (Z.of_nat T) dt seed tau_max
         default_unit default_unit default_unit default_unit g w)
  = Ok (arm_final q1r q2r dq1r dq2r dt seed tau_max default_unit default_unit
          default_unit default_unit g default_squares n T).
Proof.
  intros Hs. destruct (default_squares_ok T) as (Q1 & Q2 & Q3).
  now rewrite (generate_two_link_data_run _ _ _ _ _ _ _ _ _ _ _ _ default_squares)
    by assumption.
Defined.

(** The order of the draws for two trajectories of three steps, seed 7. *)
Lemma oscillator_draw_order_at_a_call :
  seed_ok 7 = true /\
  exists xuk xuk0,
    generate_data (zero, tenth) (zero, tenth) (Z.of_nat 2) tenth tenth (Z.of_nat 3) tenth 7 w0
    = (Ok xuk, World (skip (2 * 2 + 2 * 3) (seed_gen (7 mod 2 ^ 64))) (stdout w0)) /\
    generate_data_unforced (zero, tenth) (zero, tenth) (Z.of_nat 2) tenth tenth (Z.of_nat 3)
      tenth 7 w0
    = (Ok xuk0, World (skip (2 * 2 + 2 * 3) (seed_gen (7 mod 2 ^ 64))) (stdout w0)) /\
    forall i t, (i < 2)%nat -> (t < 3)%nat ->
      get3 xuk i 0 0 = Some (start_of (seed_gen (7 mod 2 ^ 64)) (zero, tenth) i) /\
      get3 xuk i 0 1 = Some (start_of (seed_gen (7 mod 2 ^ 64)) (zero, tenth) (2 + i)) /\
      get3 xuk i t 2
      = Some (elt_sub (uniform_real (nth_draw (seed_gen (7 mod 2 ^ 64)) (2 * 2 + i * 3 + t)))
                (cast (py_lit 5 1))) /\
      get3 xuk0 i 0 0 = Some (start_of (seed_gen (7 mod 2 ^ 64)) (zero, tenth) i) /\
      get3 xuk0 i 0 1 = Some (start_of (seed_gen (7 mod 2 ^ 64)) (zero, tenth) (2 + i)) /\
      get3 xuk0 i t 2
      = Some (elt_mul (uniform_real (nth_draw (seed_gen (7 mod 2 ^ 64)) (2 * 2 + i * 3 + t)))
                (cast (py_lit 0 0))).
Proof.
  split; [reflexivity|].
  exact (oscillator_draw_order (zero, tenth) (zero, tenth) 2 tenth tenth 3 tenth 7 w0 eq_refl).
Defined.

(** The origin, for the last step of the second of two trajectories. *)
Lemma unforced_origin_is_fixed_at_a_call :
  finite_float (cast tenth) = true /\
  get3 (osc_final unforced (zero, zero) (zero, zero) tenth tenth tenth 7 2 3) 1 2 0
  = Some (S754_zero false).
Proof.
  split; [vm_compute; reflexivity|].
  apply (unforced_origin_is_fixed false false false false 2 tenth tenth 3 tenth 7 w0).
  - vm_compute. reflexivity.
  - vm_compute. reflexivity.
  - vm_compute. reflexivity.
  - change 2 with (Z.of_nat 2). change 3 with (Z.of_nat 3).
    rewrite generate_data_unforced_run; reflexivity.
  - reflexivity.
  - reflexivity.
  - lia.
Defined.

(** The control range at a call. *)
Lemma control_in_half_open_range_at_a_call :
  exists u,
    get3 (osc_final forced (zero, tenth) (zero, tenth) tenth tenth tenth 7 2 3) 1 2 2 = Some u /\
    SFleb (SFopp half32) u = true /\ SFltb u half32 = true.
Proof.
  apply (control_in_half_open_range (zero, tenth) (zero, tenth) 2 tenth tenth 3 tenth 7 w0).
  - change 2 with (Z.of_nat 2). change 3 with (Z.of_nat 3).
    rewrite generate_data_run; reflexivity.
  - reflexivity.
  - reflexivity.
Defined.

(** No torque at a call, whatever cosine and sine are. *)
Lemma zero_tau_max_gives_zero_torques_at_a_call :
  seed_ok 7 = true /\
  forall R : Trig arith,
  exists s1 s2,
    get3 (arm_final (zero, tenth) (zero, tenth) (zero, tenth) (zero, tenth) tenth 7 zero
            default_unit default_unit default_unit default_unit default_g
            default_squares 2 3) 1 2 4
    = Some (S754_zero s1) /\
    get3 (arm_final (zero, tenth) (zero, tenth) (zero, tenth) (zero, tenth) tenth 7 zero
            default_unit default_unit default_unit default_unit default_g
            default_squares 2 3) 1 2 5
    = Some (S754_zero s2).
Proof.
  split; [reflexivity|]. intros R.
  apply (zero_tau_max_gives_zero_torques (R := R) false (zero, tenth) (zero, tenth)
           (zero, tenth) (zero, tenth) (Z.of_nat 2) (Z.of_nat 3) tenth 7
           default_unit default_unit default_unit default_unit default_g w0).
  - now apply default_run.
  - reflexivity.
  - reflexivity.
Defined.

(** The batch sizes for [numICs = 8]: 1, 2 and 6 trajectories, nine in
    all. *)
Lemma DataGenerator_batch_sizes_at_a_call :
  0 <= 8 <= 1000 /\
  exists (n_test n_val n_train : nat) train test val w',
    DataGenerator (zero, tenth) (zero, tenth) 8 tenth tenth (Z.of_nat 3) tenth w0
    = (Ok (train, test, val), w') /\
    share_of 1 1 8 = Ok (Z.of_nat n_test) /\
    share_of 2 1 8 = Ok (Z.of_nat n_val) /\
    share_of 7 1 8 = Ok (Z.of_nat n_train) /\
    (forall w1,
        fst (generate_data (zero, tenth) (zero, tenth) (Z.of_nat n_test) tenth tenth
               (Z.of_nat 3) tenth 1 w1) = Ok test) /\
    (forall w1,
        fst (generate_data (zero, tenth) (zero, tenth) (Z.of_nat n_val) tenth tenth
               (Z.of_nat 3) tenth 2 w1) = Ok val) /\
    (forall w1,
        fst (generate_data (zero, tenth) (zero, tenth) (Z.of_nat n_train) tenth tenth
               (Z.of_nat 3) tenth 3 w1) = Ok train) /\
    shape3 train = (n_train, 3, 3)%nat /\
    shape3 test = (n_test, 3, 3)%nat /\
    shape3 val = (n_val, 3, 3)%nat /\
    stdout w' = stdout w0 /\
    8 - 1 <= Z.of_nat (n_test + n_val + n_train) <= 8 + 1 /\
    (8 mod 10 = 0 ->
     Z.of_nat n_test = 8 / 10 /\ Z.of_nat n_val = 2 * (8 / 10) /\
     Z.of_nat n_train = 7 * (8 / 10)).
Proof.
  split; [lia|].
  apply (DataGenerator_batch_sizes (zero, tenth) (zero, tenth) 8 tenth tenth 3 tenth w0). lia.
Defined.

Example shares_of_eight :
  share_of 1 1 8 = Ok 1 /\ share_of 2 1 8 = Ok 2 /\ share_of 7 1 8 = Ok 6.
Proof. vm_compute. repeat split. Qed.

(** A negative count at a call. *)
Lemma DataGenerator_negative_count_at_a_call :
  -1000 <= -5 < 0 /\
  fst (DataGenerator (zero, tenth) (zero, tenth) (-5) tenth tenth 3 tenth w0)
  = Raise RuntimeError.
Proof.
  split; [lia|].
  apply (DataGenerator_negative_count (zero, tenth) (zero, tenth) (-5) tenth tenth 3 tenth w0).
  lia.
Defined.

(** The five batches for [numICs = 100]. *)
Lemma DataGenerator_mixed_batches_at_a_call :
  0 <= 100 <= 1000 /\
  exists (n5 n10 n40 : nat) train_unforced train_forced test_unforced test_forced val w',
    DataGenerator_mixed (zero, tenth) (zero, tenth) 100 tenth tenth (Z.of_nat 3) tenth w0
    = (Ok (train_unforced, train_forced, test_unforced, test_forced, val), w') /\
    share_of 5 2 100 = Ok (Z.of_nat n5) /\
    share_of 1 1 100 = Ok (Z.of_nat n10) /\
    share_of 4 1 100 = Ok (Z.of_nat n40) /\
    (forall w1,
        fst (generate_data_unforced (zero, tenth) (zero, tenth) (Z.of_nat n5) tenth tenth
               (Z.of_nat 3) tenth 1 w1) = Ok test_unforced) /\
    (forall w1,
        fst (generate_data (zero, tenth) (zero, tenth) (Z.of_nat n5) tenth tenth
               (Z.of_nat 3) tenth 2 w1) = Ok test_forced) /\
    (forall w1,
        fst (generate_data (zero, tenth) (zero, tenth) (Z.of_nat n10) tenth tenth
               (Z.of_nat 3) tenth 3 w1) = Ok val) /\
    (forall w1,
        fst (generate_data_unforced (zero, tenth) (zero, tenth) (Z.of_nat n40) tenth tenth
               (Z.of_nat 3) tenth 4 w1) = Ok train_unforced) /\
    (forall w1,
        fst (generate_data (zero, tenth) (zero, tenth) (Z.of_nat n40) tenth tenth
               (Z.of_nat 3) tenth 5 w1) = Ok train_forced) /\
    (forall w1,
        rng w'
        = rng (snd (generate_data (zero, tenth) (zero, tenth) (Z.of_nat n40) tenth tenth
                      (Z.of_nat 3) tenth 5 w1))) /\
    stdout w' = stdout w0 /\
    100 - 1 <= Z.of_nat (n5 + n5 + n10 + n40 + n40) <= 100 + 1.
Proof.
  split; [lia|].
  apply (DataGenerator_mixed_batches (zero, tenth) (zero, tenth) 100 tenth tenth 3 tenth w0).
  lia.
Defined.

Example shares_of_a_hundred_mixed :
  share_of 5 2 100 = Ok 5 /\ share_of 1 1 100 = Ok 10 /\ share_of 4 1 100 = Ok 40.
Proof. vm_compute. repeat split. Qed.

(** The arm splitter for [numICs = 100], whatever cosine and sine are. *)
Lemma TwoLinkRobotDataGenerator_batches_at_a_call :
  0 <= 100 <= 1000 /\
  forall R : Trig arith,
  exists (n_test n_val n_train : nat) train test val w',
    TwoLinkRobotDataGenerator (zero, tenth) (zero, tenth) (zero, tenth) (zero, tenth) 100
      (Z.of_nat 3) tenth tenth w0
    = (Ok (train, test, val), w') /\
    share_of 1 1 100 = Ok (Z.of_nat n_test) /\
    share_of 2 1 100 = Ok (Z.of_nat n_val) /\
    share_of 7 1 100 = Ok (Z.of_nat n_train) /\
    (forall w1,
        fst (generate_two_link_data (zero, tenth) (zero, tenth) (zero, tenth) (zero, tenth)
               (Z.of_nat n_test) (Z.of_nat 3) tenth 1 tenth
               (py_lit 10 1) (py_lit 10 1) (py_lit 10 1) (py_lit 10 1) (py_lit 981 2) w1)
        = Ok test) /\
    (forall w1,
        fst (generate_two_link_data (zero, tenth) (zero, tenth) (zero, tenth) (zero, tenth)
               (Z.of_nat n_val) (Z.of_nat 3) tenth 2 tenth
               (py_lit 10 1) (py_lit 10 1) (py_lit 10 1) (py_lit 10 1) (py_lit 981 2) w1)
        = Ok val) /\
    (forall w1,
        fst (generate_two_link_data (zero, tenth) (zero, tenth) (zero, tenth) (zero, tenth)
               (Z.of_nat n_train) (Z.of_nat 3) tenth 3 tenth
               (py_lit 10 1) (py_lit 10 1) (py_lit 10 1) (py_lit 10 1) (py_lit 981 2) w1)
        = Ok train) /\
    shape3 train = (n_train, 3, 6)%nat /\
    shape3 test = (n_test, 3, 6)%nat /\
    shape3 val = (n_val, 3, 6)%nat /\
    stdout w' = stdout w0 ++
                ["Computed Inertia: I1 = 0.2500, I2 = 0.2500";
                 "Computed Inertia: I1 = 0.2500, I2 = 0.2500";
                 "Computed Inertia: I1 = 0.2500, I2 = 0.2500"]%string.
Proof.
  split; [lia|]. intros R.
  apply (TwoLinkRobotDataGenerator_batches (R := R) (zero, tenth) (zero, tenth) (zero, tenth)
           (zero, tenth) 100 3 tenth tenth w0).
  lia.
Defined.

(** A point range at a call: both states start at [0.1] as a float32. *)
Lemma point_range_start_at_a_call :
  finite_float tenth = true /\ cast tenth = S754_finite false 13421773 (-27) /\
  (forall xuk,
      fst (generate_data (tenth, tenth) (tenth, tenth) 2 tenth tenth 3 tenth 7 w0) = Ok xuk ->
      get3 xuk 1 0 0 = Some (unsigned_zero (cast tenth)) /\
      get3 xuk 1 0 1 = Some (unsigned_zero (cast tenth))) /\
  (forall xuk,
      fst (generate_data_unforced (tenth, tenth) (tenth, tenth) 2 tenth tenth 3 tenth 7 w0)
      = Ok xuk ->
      get3 xuk 1 0 0 = Some (unsigned_zero (cast tenth)) /\
      get3 xuk 1 0 1 = Some (unsigned_zero (cast tenth))).
Proof.
  split; [vm_compute; reflexivity|]. split; [vm_compute; reflexivity|].
  apply (point_range_start tenth tenth 2 tenth tenth 3 tenth 7 w0 1).
  - vm_compute. reflexivity.
  - vm_compute. reflexivity.
  - reflexivity.
  - reflexivity.
Defined.

(** No drift at a call: [mu = 0], ranges [(0.1, 0.1)]. *)
Lemma unforced_x1_stays_without_growth_at_a_call :
  exists xt,
    get3 (osc_final unforced (tenth, tenth) (zero, tenth) zero tenth tenth 7 2 3) 1 2 0
    = Some xt /\
    unsigned_zero xt = unsigned_zero (cast tenth).
Proof.
  apply (unforced_x1_stays_without_growth false (tenth, tenth) (zero, tenth) 2 tenth 3 tenth
           7 w0 _ 1 2 (cast tenth)).
  - vm_compute. reflexivity.
  - change 2 with (Z.of_nat 2). change 3 with (Z.of_nat 3).
    rewrite generate_data_unforced_run; reflexivity.
  - destruct (osc_final_draws (A := arith) unforced (tenth, tenth) (zero, tenth) zero tenth
                tenth 7 2 3 1 0) as (E0 & _); [lia | lia |].
    rewrite E0, start_of_point by (vm_compute; reflexivity).
    reflexivity.
  - vm_compute. reflexivity.
  - reflexivity.
Defined.

(** The order of the draws of the arm, for two trajectories of three
    steps with the default masses and lengths, whatever cosine and sine
    are. *)
Lemma arm_draw_order_at_a_call :
  seed_ok 3 = true /\
  squares_of default_unit default_unit 3 default_squares /\
  forall R : Trig arith,
    let g := seed_gen (3 mod 2 ^ 64) in
    let tau k :=
      elt_mul (elt_mul (elt_sub (uniform_real (nth_draw g k)) (cast (py_lit 5 1)))
                 (cast (py_lit 2 0)))
        (cast default_unit) in
    let call :=
      generate_two_link_data unit_range unit_range unit_range unit_range (Z.of_nat 2)
        (Z.of_nat 3) tenth 3 default_unit default_unit default_unit default_unit
        default_unit default_g w0 in
    exists data,
      fst call = Ok data /\
      rng (snd call) = skip (4 * 2 + 2 * (3 * 2)) g /\
      forall i t, (i < 2)%nat -> (t < 3)%nat ->
        get3 data i 0 0 = Some (start_of g unit_range i) /\
        get3 data i 0 1 = Some (start_of g unit_range (2 + i)) /\
        get3 data i 0 2 = Some (start_of g unit_range (2 * 2 + i)) /\
        get3 data i 0 3 = Some (start_of g unit_range (3 * 2 + i)) /\
        get3 data i t 4 = Some (tau (4 * 2 + i * (3 * 2) + t * 2)%nat) /\
        get3 data i t 5 = Some (tau (4 * 2 + i * (3 * 2) + t * 2 + 1)%nat).
Proof.
  split; [reflexivity|]. split; [exact (default_squares_ok 3)|]. intros R g tau call.
  exact (arm_draw_order (A := arith) (R := R) unit_range unit_range unit_range unit_range
           2 3 tenth 3 default_unit default_unit default_unit default_unit default_unit
           default_g default_squares w0 eq_refl (default_squares_ok 3)).
Defined.

(** The torque range at a call, [tau_max = 1]. *)
Lemma torques_within_tau_max_at_a_call :
  valid_binary 53 1024 default_unit = true /\
  finite_float (cast default_unit) = true /\
  forall R : Trig arith,
  exists tau1 tau2,
    get3 (arm_final unit_range unit_range unit_range unit_range tenth 3 default_unit
            default_unit default_unit default_unit default_unit default_g
            default_squares 2 3) 1 2 4 = Some tau1 /\
    get3 (arm_final unit_range unit_range unit_range unit_range tenth 3 default_unit
            default_unit default_unit default_unit default_unit default_g
            default_squares 2 3) 1 2 5 = Some tau2 /\
    SFleb (SFabs tau1) (SFabs (cast default_unit)) = true /\
    SFleb (SFabs tau2) (SFabs (cast default_unit)) = true.
Proof.
  assert (V : valid_binary 53 1024 default_unit = true) by (vm_compute; reflexivity).
  assert (F : finite_float (cast default_unit) = true) by (vm_compute; reflexivity).
  split; [exact V|]. split; [exact F|]. intros R.
  apply (torques_within_tau_max (R := R) unit_range unit_range unit_range unit_range
           (Z.of_nat 2) (Z.of_nat 3) tenth 3 default_unit default_unit default_unit
           default_unit default_unit default_g w0).
  - exact V.
  - exact F.
  - now apply default_run.
  - reflexivity.
  - reflexivity.
Defined.
End MoreChecks.
